(** * Three-phase commit: coordinator and participant

    A shallow embedding of [coordinator.py] and [participant.py].

    The Python objects are records; each method is a function on the record.
    Methods that block (socket exchanges, [time.sleep]) run in a small
    state-and-exception monad over a [World]: the coordinator object, the
    schedule of what the other threads and the network do at each point where
    the method blocks, and the log of the exchanges it attempted. *)

From Stdlib Require Import String Ascii List ZArith QArith Bool Lia.
From stdpp Require Import base gmap strings list.

Local Open Scope string_scope.
Local Open Scope list_scope.

(** * Python dictionaries whose iteration order is observed

    [self.participants] and [self.transactions] are iterated, so they are
    kept as association lists in insertion order with unique keys.
    [d[k] = v] replaces the value in place when [k] is present and appends
    otherwise. *)
Module PyDict.

Fixpoint get {V : Type} (k : string) (d : list (string * V)) : option V :=
  match d with
  | [] => None
  | (k', v) :: d' => if String.eqb k k' then Some v else get k d'
  end.

Fixpoint set {V : Type} (k : string) (v : V) (d : list (string * V))
  : list (string * V) :=
  match d with
  | [] => [(k, v)]
  | (k', v') :: d' =>
      if String.eqb k k' then (k, v) :: d' else (k', v') :: set k v d'
  end.

Definition keys {V : Type} (d : list (string * V)) : list string := map fst d.

Definition mem {V : Type} (k : string) (d : list (string * V)) : bool :=
  match get k d with Some _ => true | None => false end.

End PyDict.

(** * Messages *)
Module Protocol.

(** Modelled from the spec: the enumeration [MessageType] of [protocol.py],
    which is not among the sources; the tags are those of section 3. *)
Inductive MessageType :=
| CANCOMMIT | CANCOMMIT_VOTE_YES | CANCOMMIT_VOTE_NO | CANCOMMIT_ABORT
| PRECOMMIT | PRECOMMIT_VOTE_YES | PRECOMMIT_VOTE_NO | PRECOMMIT_ABORT
| COMMIT | ABORT | ACK_COMMIT | ACK_ABORT
| QUERY_STATE | STATE_RESPONSE | REQUEST_HISTORY | HISTORY_RESPONSE.

#[global] Instance MessageType_eq_dec : EqDecision MessageType.
Proof. solve_decision. Defined.

(** Modelled from the spec: [MessageType.value], the tag's own name (the
    coordinator compares stored values with the literal ['ACK_COMMIT']). *)
Definition value (t : MessageType) : string :=
  match t with
  | CANCOMMIT => "CANCOMMIT" | CANCOMMIT_VOTE_YES => "CANCOMMIT_VOTE_YES"
  | CANCOMMIT_VOTE_NO => "CANCOMMIT_VOTE_NO"
  | CANCOMMIT_ABORT => "CANCOMMIT_ABORT"
  | PRECOMMIT => "PRECOMMIT" | PRECOMMIT_VOTE_YES => "PRECOMMIT_VOTE_YES"
  | PRECOMMIT_VOTE_NO => "PRECOMMIT_VOTE_NO"
  | PRECOMMIT_ABORT => "PRECOMMIT_ABORT"
  | COMMIT => "COMMIT" | ABORT => "ABORT"
  | ACK_COMMIT => "ACK_COMMIT" | ACK_ABORT => "ACK_ABORT"
  | QUERY_STATE => "QUERY_STATE" | STATE_RESPONSE => "STATE_RESPONSE"
  | REQUEST_HISTORY => "REQUEST_HISTORY"
  | HISTORY_RESPONSE => "HISTORY_RESPONSE"
  end.

(** The status literals the coordinator writes into a transaction record
    and into the history. *)
Inductive TxStatus :=
| WAITING | WAITED | PREPARING | PREPARED
| COMMITTING | ABORTING | COMMITTED | ABORTED.

#[global] Instance TxStatus_eq_dec : EqDecision TxStatus.
Proof. solve_decision. Defined.

(** Transaction data: the [key=value] pairs typed by the operator. *)
Definition Data := list (string * string).

(** One element of [transaction_history]. *)
Record HistoryEntry := {
  h_transaction_id : string;
  h_status : TxStatus;
  h_data : Data;
  h_timestamp : Z
}.

(** The [data] argument of a message. *)
Inductive Payload :=
| PNone                                   (* no data argument *)
| PDict (d : Data)                        (* transaction data *)
| PState (status : string) (d : Payload)  (* {'status': .., 'data': ..} *)
| PHistory (h : list HistoryEntry)        (* {'history': [..]} *)
| PParticipant (pid : string).            (* {'participant_id': ..} *)

(** Modelled from the spec: the class [Message] of [protocol.py]
    ([msg_type], [transaction_id], [data]; the timestamp written at encoding
    time is read nowhere and is left out). *)
Record Message := {
  msg_type : MessageType;
  transaction_id : string;
  data : Payload
}.

(** What a node reads from an inbound connection to the coordinator, after
    [split('|')] and the JSON decoding of the tail. *)
Inductive Frame :=
| REGISTER (pid host : string) (port : Z)
| VOTE_RESPONSE (pid : string) (m : Message)
| ACK_RESPONSE (pid : string) (m : Message)
| HISTORY_REQUEST (pid : string)
| Malformed.  (* any other first field, too few fields, or a decoding error *)

(** What the coordinator writes back on that connection. *)
Inductive Reply := OK | ReplyMessage (m : Message).

End Protocol.
Import Protocol.

(** * Coordinator *)
Module Coordinator.

(** One value of [self.transactions]. *)
Record Transaction := {
  tx_data : Data;
  tx_participants : list string;
  tx_votes : gmap string bool;
  tx_votep : gmap string bool;
  tx_votec : gmap string bool;
  tx_acks : gmap string string;
  tx_status : TxStatus
}.

Definition with_votes (f : gmap string bool → gmap string bool)
  (t : Transaction) : Transaction :=
  {| tx_data := tx_data t; tx_participants := tx_participants t;
     tx_votes := f (tx_votes t); tx_votep := tx_votep t;
     tx_votec := tx_votec t; tx_acks := tx_acks t;
     tx_status := tx_status t |}.

Definition with_votep (f : gmap string bool → gmap string bool)
  (t : Transaction) : Transaction :=
  {| tx_data := tx_data t; tx_participants := tx_participants t;
     tx_votes := tx_votes t; tx_votep := f (tx_votep t);
     tx_votec := tx_votec t; tx_acks := tx_acks t;
     tx_status := tx_status t |}.

Definition with_acks (f : gmap string string → gmap string string)
  (t : Transaction) : Transaction :=
  {| tx_data := tx_data t; tx_participants := tx_participants t;
     tx_votes := tx_votes t; tx_votep := tx_votep t;
     tx_votec := tx_votec t; tx_acks := f (tx_acks t);
     tx_status := tx_status t |}.

Definition with_status (s : TxStatus) (t : Transaction) : Transaction :=
  {| tx_data := tx_data t; tx_participants := tx_participants t;
     tx_votes := tx_votes t; tx_votep := tx_votep t;
     tx_votec := tx_votec t; tx_acks := tx_acks t;
     tx_status := s |}.

(** The fields of the [Coordinator] object that the protocol reads. *)
Record State := {
  participants : list (string * (string * Z));
  transactions : list (string * Transaction);
  transaction_history : list HistoryEntry;
  crashed : bool
}.

Definition set_participants (p : list (string * (string * Z))) (c : State) :=
  {| participants := p; transactions := transactions c;
     transaction_history := transaction_history c; crashed := crashed c |}.

Definition set_transactions (t : list (string * Transaction)) (c : State) :=
  {| participants := participants c; transactions := t;
     transaction_history := transaction_history c; crashed := crashed c |}.

Definition set_history (h : list HistoryEntry) (c : State) :=
  {| participants := participants c; transactions := transactions c;
     transaction_history := h; crashed := crashed c |}.

Definition set_crashed (b : bool) (c : State) :=
  {| participants := participants c; transactions := transactions c;
     transaction_history := transaction_history c; crashed := b |}.

(** [tx = self.transactions[tid]; ...] on a record that is present. *)
Definition update_tx (tid : string) (f : Transaction → Transaction)
  (c : State) : State :=
  match PyDict.get tid (transactions c) with
  | Some tx => set_transactions (PyDict.set tid (f tx) (transactions c)) c
  | None => c
  end.

(** ** [_handle_participant_connection] (lines 62-146)

    One inbound connection, from [recv] to [close]. *)
Definition refused_when_crashed (f : Frame) : bool :=
  match f with
  | REGISTER _ _ _ | HISTORY_REQUEST _ => false
  | _ => true
  end.

Definition _handle_participant_connection (f : Frame) (c : State)
  : State * option Reply :=
  if crashed c && refused_when_crashed f then (c, None)
  else
    match f with
    | REGISTER participant_id host port =>
        (set_participants
           (PyDict.set participant_id (host, port) (participants c)) c,
         Some OK)
    | VOTE_RESPONSE participant_id message =>
        match PyDict.get (transaction_id message) (transactions c) with
        | Some _ =>
            (update_tx (transaction_id message)
               (match msg_type message with
                | CANCOMMIT_VOTE_YES => with_votes (insert participant_id true)
                | CANCOMMIT_VOTE_NO => with_votes (insert participant_id false)
                | PRECOMMIT_VOTE_YES => with_votep (insert participant_id true)
                | _ => with_votep (insert participant_id false)
                end) c,
             None)
        | None => (c, None)
        end
    | ACK_RESPONSE participant_id message =>
        match PyDict.get (transaction_id message) (transactions c) with
        | Some _ =>
            (update_tx (transaction_id message)
               (with_acks (insert participant_id (value (msg_type message))))
               c,
             None)
        | None => (c, None)
        end
    | HISTORY_REQUEST participant_id =>
        (c, Some (ReplyMessage
                    {| msg_type := HISTORY_RESPONSE;
                       transaction_id := "HISTORY";
                       data := PHistory (transaction_history c) |}))
    | Malformed => (c, None)
    end.

(** ** [_handle_crash] (lines 949-960) *)
Definition _handle_crash (c : State) : State :=
  if crashed c then c else set_crashed true c.


(** ** The world a blocking method runs in

    The driver runs on its own thread. The other threads (one per inbound
    connection, and the operator's command loop) are taken to run while it
    is blocked, that is, at the suspension points of section 5: the
    per-participant socket exchange and the one-second sleeps of the
    collection loops. A [Tick] says what happens at one suspension point:
    the inbound connections handled and the crash commands typed meanwhile,
    in order, and, for an exchange, the decoded reply ([None]: empty reply,
    refused connection, timeout or decoding error).

    The recover command is not an event: the recovery runs in the command
    loop, which reads no command until it is over, and a driver that is
    still running when the operator recovers is not followed. *)
Inductive Event :=
| EvFrame (f : Frame)   (* a connection served by the listener *)
| EvCrash.              (* the operator types [crash] *)

Definition apply_event (c : State) (e : Event) : State :=
  match e with
  | EvFrame f => fst (_handle_participant_connection f c)
  | EvCrash => _handle_crash c
  end.

Definition apply_events (es : list Event) (c : State) : State :=
  fold_left apply_event es c.

Record Tick := { events : list Event; response : option Message }.

Definition idle : Tick := {| events := []; response := None |}.

Record World := {
  coord : State;                      (* the Coordinator object *)
  env : list Tick;                    (* what is still to happen *)
  outbox : list (string * Message);   (* exchanges attempted, oldest first *)
  now : Z                             (* what time.time() answers *)
}.

Definition set_coord (c : State) (w : World) : World :=
  {| coord := c; env := env w; outbox := outbox w; now := now w |}.

Inductive Exn :=
| KeyError              (* self.transactions[tid] on an absent id *)
| RuntimeError          (* dictionary changed size during iteration *)
| AttributeError        (* .get on a payload that is not a dict *)
| UnknownParticipant.   (* raised by _send_message *)

(** How a piece of a method body ends: it falls through to the next
    statement, executes [return v] ([None] for a bare return or the end of
    the method), or raises. *)
Inductive Outcome (A : Type) :=
| Continue (a : A)
| Return (v : option bool)
| Raise (e : Exn).
Arguments Continue {A} a.
Arguments Return {A} v.
Arguments Raise {A} e.

Definition Driver (A : Type) : Type := World → Outcome A * World.

#[global] Instance driver_mret : MRet Driver := λ A a w, (Continue a, w).

#[global] Instance driver_bind : MBind Driver := λ A B k d w,
  match d w with
  | (Continue a, w') => k a w'
  | (Return v, w') => (Return v, w')
  | (Raise e, w') => (Raise e, w')
  end.

Definition return_ {A} (v : option bool) : Driver A := λ w, (Return v, w).
Definition raise {A} (e : Exn) : Driver A := λ w, (Raise e, w).

Definition get_self : Driver State := λ w, (Continue (coord w), w).

Definition modify (f : State → State) : Driver unit :=
  λ w, (Continue tt, set_coord (f (coord w)) w).

Definition time_time : Driver Z := λ w, (Continue (now w), w).

(** [self.transactions[tid]] *)
Definition get_tx (tid : string) : Driver Transaction :=
  λ w, match PyDict.get tid (transactions (coord w)) with
       | Some tx => (Continue tx, w)
       | None => (Raise KeyError, w)
       end.

(** [self.transactions[tid][field] = ...], or the same through an alias of
    the record's dictionary. *)
Definition modify_tx (tid : string) (f : Transaction → Transaction)
  : Driver unit :=
  get_tx tid ;; modify (update_tx tid f).

(** A suspension point: the next tick of the schedule is consumed and the
    other threads' work of that tick is done. *)
Definition suspend : Driver Tick :=
  λ w, match env w with
       | [] => (Continue idle, w)
       | t :: rest =>
           (Continue t,
            {| coord := apply_events (events t) (coord w); env := rest;
               outbox := outbox w; now := now w |})
       end.

(** [time.sleep(1)] *)
Definition sleep : Driver unit := suspend ;; mret tt.

Definition log_send (pid : string) (m : Message) : Driver unit :=
  λ w, (Continue tt,
        {| coord := coord w; env := env w;
           outbox := outbox w ++ [(pid, m)]; now := now w |}).

(** ** [_send_message] (lines 148-179) *)
Definition _send_message (participant_id : string) (message : Message)
  (force : bool) : Driver (option Message) :=
  c ← get_self;
  if negb (PyDict.mem participant_id (participants c))
  then raise UnknownParticipant
  else if crashed c && negb force then mret None
  else
    log_send participant_id message ;;
    t ← suspend;
    mret (response t).

(** ** Pieces shared by the copies of the collection code *)

(** [for p in plist: if p not in m: m[p] = v] *)
Definition fill_missing {V} (v : V) (plist : list string)
  (m : gmap string V) : gmap string V :=
  fold_left (λ m p, match m !! p with Some _ => m | None => <[p := v]> m end)
            plist m.

(** [all(m.values())] *)
Definition all_values (m : gmap string bool) : bool :=
  forallb id (map snd (map_to_list m)).

(** [sum(1 for a in m.values() if a == s)] *)
Definition count_values (s : string) (m : gmap string string) : nat :=
  length (filter (λ kv, snd kv = s) (map_to_list m)).

(** The 60 one-second ticks of a vote collection (lines 250-271 for the
    CanCommit votes, 318-339 for the PreCommit votes). *)
Fixpoint wait_votes (field : Transaction → gmap string bool) (ticks : nat)
  (tid : string) (participant_list : list string) : Driver unit :=
  match ticks with
  | O => mret tt
  | S ticks' =>
      c ← get_self;
      if crashed c then return_ (Some false)
      else
        tx ← get_tx tid;
        if Nat.eqb (size (field tx)) (length participant_list) then mret tt
        else sleep ;; wait_votes field ticks' tid participant_list
  end.

(** The 60 one-second ticks of an ACK collection (lines 394-415, 493-514,
    573-594, 763-784, 860-881). [target] is [len(participant_list)] in the
    driver and [len(self.participants)] in the recovery helpers. *)
Fixpoint wait_acks (ticks : nat) (tid : string) (target : State → nat)
  : Driver unit :=
  match ticks with
  | O => mret tt
  | S ticks' =>
      c ← get_self;
      if crashed c then return_ (Some false)
      else
        tx ← get_tx tid;
        if Nat.eqb (size (tx_acks tx)) (target c) then mret tt
        else sleep ;; wait_acks ticks' tid target
  end.

(** [for pid in self.participants.keys(): ...] sending [message] and
    recording an immediate reply of type [expect] in the local [acks]
    (lines 374-388, 473-487, 553-567, 743-757, 844-854). The dictionary
    iterator compares the size of the dictionary with its size at the start
    of the loop each time it is advanced, also the last time.
    [check_crash] is false for [_complete_abort] only, which has no crash
    test in this loop. *)
Fixpoint ack_sends (check_crash : bool) (message : Message)
  (expect : MessageType) (size0 : nat) (keys : list string)
  (acks : gmap string string) : Driver (gmap string string) :=
  c ← get_self;
  if negb (Nat.eqb (length (participants c)) size0) then raise RuntimeError
  else
    match keys with
    | [] => mret acks
    | participant_id :: keys' =>
        if check_crash && crashed c then return_ (Some false)
        else
          r ← _send_message participant_id message false;
          ack_sends check_crash message expect size0 keys'
            (match r with
             | Some m =>
                 if bool_decide (msg_type m = expect)
                 then <[participant_id := value expect]> acks
                 else acks
             | None => acks
             end)
    end.

Definition append_history (tid : string) (s : TxStatus) (d : Data)
  : Driver unit :=
  t ← time_time;
  modify (λ c, set_history
                 (transaction_history c ++
                  [{| h_transaction_id := tid; h_status := s; h_data := d;
                      h_timestamp := t |}]) c).


(** ** [execute_transaction] (lines 181-623)

    The method is given in the order of its text, one definition per block.
    [transaction_id] stands for the truncated uuid4 drawn at line 187. *)

Definition message (t : MessageType) (tid : string) (d : Data) : Message :=
  {| msg_type := t; transaction_id := tid; data := PDict d |}.

(** The immediate reply to a CANCOMMIT or PRECOMMIT exchange, folded into
    the two vote dictionaries (lines 228-243 and 297-312). *)
Definition fold_vote (participant_id : string) (r : option Message)
  (votes votep : gmap string bool) : gmap string bool * gmap string bool :=
  match r with
  | Some m =>
      match msg_type m with
      | CANCOMMIT_VOTE_YES => (<[participant_id := true]> votes, votep)
      | CANCOMMIT_VOTE_NO => (<[participant_id := false]> votes, votep)
      | PRECOMMIT_VOTE_YES => (votes, <[participant_id := true]> votep)
      | _ => (votes, <[participant_id := false]> votep)
      end
  | None => (votes, votep)
  end.

(** Lines 223-243: both dictionaries are still the locals of lines
    216-217. *)
Fixpoint cancommit_sends (cancommit_msg : Message)
  (participant_list : list string) (votes votep : gmap string bool)
  : Driver (gmap string bool * gmap string bool) :=
  match participant_list with
  | [] => mret (votes, votep)
  | participant_id :: rest =>
      r ← _send_message participant_id cancommit_msg false;
      let '(votes', votep') := fold_vote participant_id r votes votep in
      cancommit_sends cancommit_msg rest votes' votep'
  end.

(** Lines 292-312: [votes] is by now the dictionary stored in the record
    (lines 245 and 275), [votep] is still the local of line 217. *)
Fixpoint precommit_sends (tid : string) (precommit_msg : Message)
  (participant_list : list string) (votep : gmap string bool)
  : Driver (gmap string bool) :=
  match participant_list with
  | [] => mret votep
  | participant_id :: rest =>
      r ← _send_message participant_id precommit_msg false;
      match r with
      | Some m =>
          match msg_type m with
          | CANCOMMIT_VOTE_YES =>
              modify_tx tid (with_votes (insert participant_id true)) ;;
              precommit_sends tid precommit_msg rest votep
          | CANCOMMIT_VOTE_NO =>
              modify_tx tid (with_votes (insert participant_id false)) ;;
              precommit_sends tid precommit_msg rest votep
          | PRECOMMIT_VOTE_YES =>
              precommit_sends tid precommit_msg rest
                (<[participant_id := true]> votep)
          | _ =>
              precommit_sends tid precommit_msg rest
                (<[participant_id := false]> votep)
          end
      | None => precommit_sends tid precommit_msg rest votep
      end
  end.

(** Lines 273-289: the tally of the CanCommit votes. *)
Definition cancommit_tally (tid : string) (participant_list : list string)
  : Driver bool :=
  modify_tx tid (with_votes (fill_missing false participant_list)) ;;
  tx ← get_tx tid;
  let all_yes := all_values (tx_votes tx) in
  modify_tx tid (with_status WAITED) ;;
  mret all_yes.

(** Lines 341-356: the tally of the PreCommit votes. *)
Definition precommit_tally (tid : string) (participant_list : list string)
  : Driver bool :=
  modify_tx tid (with_votep (fill_missing false participant_list)) ;;
  tx ← get_tx tid;
  let all_yes := all_values (tx_votep tx) in
  modify_tx tid (with_status PREPARED) ;;
  mret all_yes.

(** Lines 417-463: the tally of the commit ACKs. *)
Definition docommit_tally (tid : string) (participant_list : list string)
  (transaction_data : Data) : Driver unit :=
  modify_tx tid (with_acks (fill_missing "TIMEOUT" participant_list)) ;;
  tx ← get_tx tid;
  let success_count := count_values "ACK_COMMIT" (tx_acks tx) in
  if Nat.ltb success_count (length participant_list) then
    modify_tx tid (with_status ABORTED) ;;
    append_history tid ABORTED transaction_data ;;
    return_ (Some false)
  else
    modify_tx tid (with_status COMMITTED) ;;
    append_history tid COMMITTED transaction_data ;;
    return_ (Some true).

(** Lines 365-463: DoCommit. *)
Definition docommit_phase (tid : string) (participant_list : list string)
  (transaction_data : Data) : Driver unit :=
  modify_tx tid (with_status COMMITTING) ;;
  c ← get_self;
  acks ← ack_sends true (message COMMIT tid transaction_data) ACK_COMMIT
         (length (participants c)) (PyDict.keys (participants c)) ∅;
  modify_tx tid (with_acks (λ _, acks)) ;;
  wait_acks 60 tid (λ _, length participant_list) ;;
  docommit_tally tid participant_list transaction_data.

(** Lines 464-543 with [abort_type = PRECOMMIT_ABORT] and lines 544-623
    with [abort_type = CANCOMMIT_ABORT]: the two copies differ in the
    message type only. *)
Definition abort_phase (abort_type : MessageType) (tid : string)
  (participant_list : list string) (transaction_data : Data) : Driver unit :=
  modify_tx tid (with_status ABORTING) ;;
  c ← get_self;
  acks ← ack_sends true (message abort_type tid transaction_data) ACK_ABORT
         (length (participants c)) (PyDict.keys (participants c)) ∅;
  modify_tx tid (with_acks (λ _, acks)) ;;
  wait_acks 60 tid (λ _, length participant_list) ;;
  modify_tx tid (with_acks (fill_missing "TIMEOUT" participant_list)) ;;
  modify_tx tid (with_status ABORTED) ;;
  append_history tid ABORTED transaction_data ;;
  return_ (Some false).

(** Lines 290-543: PreCommit and what follows it. *)
Definition precommit_phase (tid : string) (participant_list : list string)
  (transaction_data : Data) (votep : gmap string bool) : Driver unit :=
  modify_tx tid (with_status PREPARING) ;;
  votep' ← precommit_sends tid (message PRECOMMIT tid transaction_data)
             participant_list votep;
  modify_tx tid (with_votep (λ _, votep')) ;;
  wait_votes tx_votep 60 tid participant_list ;;
  all_yes ← precommit_tally tid participant_list;
  c ← get_self;
  if crashed c then return_ (Some false)
  else if (all_yes : bool)
       then docommit_phase tid participant_list transaction_data
       else abort_phase PRECOMMIT_ABORT tid participant_list transaction_data.

Definition new_transaction (transaction_data : Data)
  (participant_list : list string) : Transaction :=
  {| tx_data := transaction_data; tx_participants := participant_list;
     tx_votes := ∅; tx_votep := ∅; tx_votec := ∅; tx_acks := ∅;
     tx_status := WAITING |}.

(** Lines 273-623: what the driver does once the CanCommit wait is
    over. *)
Definition after_cancommit_wait (tid : string)
  (participant_list : list string) (transaction_data : Data)
  (votep : gmap string bool) : Driver unit :=
  all_yes ← cancommit_tally tid participant_list;
  if (all_yes : bool)
  then precommit_phase tid participant_list transaction_data votep
  else abort_phase CANCOMMIT_ABORT tid participant_list transaction_data.

Definition execute_transaction (transaction_id : string)
  (transaction_data : Data) : Driver unit :=
  c ← get_self;
  if crashed c then return_ (Some false)
  else
    match participants c with
    | [] => return_ (Some false)
    | _ :: _ =>
        modify (λ c, set_transactions
                       (PyDict.set transaction_id
                          (new_transaction transaction_data
                             (PyDict.keys (participants c)))
                          (transactions c)) c) ;;
        c ← get_self;
        let participant_list := PyDict.keys (participants c) in
        modify_tx transaction_id (with_status WAITING) ;;
        '(votes, votep) ←
          cancommit_sends (message CANCOMMIT transaction_id transaction_data)
            participant_list ∅ ∅;
        modify_tx transaction_id (with_votes (λ _, votes)) ;;
        wait_votes tx_votes 60 transaction_id participant_list ;;
        after_cancommit_wait transaction_id participant_list
          transaction_data votep
    end.

(** ** [_query_participant_state] (lines 625-637)

    The exchange is forced; whatever [_send_message] raises is caught. *)
Definition unknown_state : Payload := PState "UNKNOWN" PNone.

Definition _query_participant_state (participant_id tid : string)
  : Driver Payload :=
  λ w,
    match _send_message participant_id
            {| msg_type := QUERY_STATE; transaction_id := tid;
               data := PDict [] |} true w with
    | (Continue (Some r), w') =>
        if bool_decide (msg_type r = STATE_RESPONSE)
        then (Continue (data r), w')
        else (Continue unknown_state, w')
    | (Continue None, w') => (Continue unknown_state, w')
    | (Raise _, w') => (Continue unknown_state, w')
    | (Return v, w') => (Return v, w')
    end.

(** [s.get('status')]: [Some None] when the key is absent, [None] when the
    payload is not a dictionary. *)
Definition get_status (s : Payload) : option (option string) :=
  match s with
  | PNone => None
  | PDict d => Some (PyDict.get "status" d)
  | PState status _ => Some (Some status)
  | PHistory _ | PParticipant _ => Some None
  end.

(** ** [_complete_commit] (lines 736-831)

    [tx_info] is the record of the table itself, so its fields are read
    from the table. The method returns False, or None on the commit
    branch, which has no return statement. *)
Definition _complete_commit (transaction_id : string) : Driver unit :=
  tx_info ← get_tx transaction_id;
  c ← get_self;
  acks ← ack_sends true (message COMMIT transaction_id (tx_data tx_info))
           ACK_COMMIT (length (participants c))
           (PyDict.keys (participants c)) ∅;
  modify_tx transaction_id (with_acks (λ _, acks)) ;;
  wait_acks 60 transaction_id (λ c, length (participants c)) ;;
  c ← get_self;
  modify_tx transaction_id
    (with_acks (fill_missing "TIMEOUT" (PyDict.keys (participants c)))) ;;
  tx ← get_tx transaction_id;
  let success_count := count_values "ACK_COMMIT" (tx_acks tx) in
  if Nat.ltb success_count (length (participants c)) then
    modify_tx transaction_id (with_status ABORTED) ;;
    append_history transaction_id ABORTED (tx_data tx) ;;
    return_ (Some false)
  else
    modify_tx transaction_id (with_status COMMITTED) ;;
    append_history transaction_id COMMITTED (tx_data tx).

(** ** [_complete_abort] (lines 833-910) *)
Definition _complete_abort (transaction_id : string) : Driver unit :=
  tx_info ← get_tx transaction_id;
  modify_tx transaction_id (with_status ABORTING) ;;
  c ← get_self;
  acks ← ack_sends false (message ABORT transaction_id (tx_data tx_info))
           ACK_ABORT (length (participants c))
           (PyDict.keys (participants c)) ∅;
  modify_tx transaction_id (with_acks (λ _, acks)) ;;
  wait_acks 60 transaction_id (λ c, length (participants c)) ;;
  c ← get_self;
  modify_tx transaction_id
    (with_acks (fill_missing "TIMEOUT" (PyDict.keys (participants c)))) ;;
  modify_tx transaction_id (with_status ABORTED) ;;
  tx ← get_tx transaction_id;
  append_history transaction_id ABORTED (tx_data tx) ;;
  return_ (Some false).

(** A call whose result is dropped: the callee's [return] ends the callee,
    not the caller. *)
Definition call (d : Driver unit) : Driver unit :=
  λ w, match d w with
       | (Continue _, w') | (Return _, w') => (Continue tt, w')
       | (Raise e, w') => (Raise e, w')
       end.

(** ** [_recover_coordinator] (lines 639-734) *)

(** The filter of lines 646-650. *)
Definition unfinished (tx_info : Transaction) : bool :=
  bool_decide (tx_status tx_info ∈ [WAITING; WAITED; PREPARING; PREPARED]).

Definition unfinished_txs (c : State) : list string :=
  PyDict.keys (filter (λ kv, unfinished (snd kv) = true) (transactions c)).

(** Lines 668-676: the probes. *)
Fixpoint query_states (tid : string) (pids : list string)
  (participant_states : gmap string Payload)
  : Driver (gmap string Payload) :=
  match pids with
  | [] => mret participant_states
  | participant_id :: rest =>
      c ← get_self;
      if negb (PyDict.mem participant_id (participants c))
      then query_states tid rest participant_states
      else
        state ← _query_participant_state participant_id tid;
        match get_status state with
        | None => raise AttributeError
        | Some _ =>
            query_states tid rest
              (<[participant_id := state]> participant_states)
        end
  end.

(** Lines 679-686: how many of the probed participants report one of two
    statuses. *)
Definition count_status (s1 s2 : string)
  (participant_states : gmap string Payload) : nat :=
  length (filter (λ kv, get_status (snd kv) = Some (Some s1)
                        ∨ get_status (snd kv) = Some (Some s2))
                 (map_to_list participant_states)).

(** Lines 694-729: the decision. *)
Definition recovery_decision (tx_id : string)
  (participant_states : gmap string Payload) : Driver unit :=
  let prepared_count := count_status "PREPARING" "PREPARED" participant_states in
  let committed_count :=
    count_status "COMMITTING" "COMMITTED" participant_states in
  tx_info ← get_tx tx_id;
  match tx_status tx_info with
  | WAITING | WAITED => call (_complete_abort tx_id)
  | PREPARING | PREPARED =>
      let votes := tx_votes tx_info in
      if Nat.eqb (size votes) (length (tx_participants tx_info))
         && all_values votes
      then call (_complete_commit tx_id)
      else call (_complete_abort tx_id)
  | COMMITTING | COMMITTED =>
      if Nat.ltb 0 committed_count then call (_complete_commit tx_id)
      else if Nat.eqb prepared_count (length (tx_participants tx_info))
           then call (_complete_commit tx_id)
           else call (_complete_commit tx_id)
  | ABORTING | ABORTED => call (_complete_abort tx_id)
  end.

(** Lines 661-729: one turn of the loop over the unfinished
    transactions. *)
Definition recover_transaction (tx_id : string) : Driver unit :=
  tx_info ← get_tx tx_id;
  participant_states ← query_states tx_id (tx_participants tx_info) ∅;
  recovery_decision tx_id participant_states.

Fixpoint recover_transactions (tx_ids : list string) : Driver unit :=
  match tx_ids with
  | [] => mret tt
  | tx_id :: rest =>
      recover_transaction tx_id ;; recover_transactions rest
  end.

Definition _recover_coordinator : Driver unit :=
  c ← get_self;
  match unfinished_txs c with
  | [] => modify (set_crashed false) ;; return_ None
  | tx_ids =>
      modify (set_crashed false) ;;
      recover_transactions tx_ids ;;
      modify (set_crashed false)
  end.

(** ** [_handle_recover] (lines 962-968) *)
Definition _handle_recover : Driver unit :=
  c ← get_self;
  if negb (crashed c) then return_ None else _recover_coordinator.

(** ** Notions used to state what the methods do *)

(** The fields of a record that no inbound frame writes. *)
Definition tx_core (tx : Transaction) : TxStatus * Data * list string :=
  (tx_status tx, tx_data tx, tx_participants tx).

Definition core_of (tid : string) (c : State)
  : option (TxStatus * Data * list string) :=
  tx_core <$> PyDict.get tid (transactions c).

Definition terminal (s : TxStatus) : bool :=
  match s with COMMITTED | ABORTED => true | _ => false end.

Definition preserves {A} (I : State → Prop) (d : Driver A) : Prop :=
  ∀ w, I (coord w) → I (coord (d w).2).

(** The record [tid] is in the table, which is a well-formed dictionary,
    with status, data and participants [k]. *)
Definition frozen (tid : string) (k : TxStatus * Data * list string)
  (c : State) : Prop :=
  NoDup (PyDict.keys (transactions c)) ∧ core_of tid c = Some k.

(** An event that neither crashes the coordinator nor enlarges the
    registry [K]. *)
Definition quiet_event (K : list string) (e : Event) : bool :=
  match e with
  | EvCrash => false
  | EvFrame (REGISTER pid _ _) => bool_decide (pid ∈ K)
  | EvFrame _ => true
  end.

Definition quiet (K : list string) (env : list Tick) : bool :=
  forallb (λ t, forallb (quiet_event K) (events t)) env.

(** The coordinator is up, its registry has the keys [K], and nothing that
    is still to happen crashes it or enlarges the registry. *)
Definition settled (K : list string) (w : World) : Prop :=
  crashed (coord w) = false ∧
  PyDict.keys (participants (coord w)) = K ∧
  quiet K (env w) = true.

(** [c'] differs from [c] in the vote and ACK dictionaries and in the
    addresses of the registry only. *)
Definition calm (c c' : State) : Prop :=
  crashed c' = crashed c ∧
  PyDict.keys (participants c') = PyDict.keys (participants c) ∧
  transaction_history c' = transaction_history c ∧
  ∀ tid, core_of tid c' = core_of tid c.

(** From [w] to [w'] the coordinator stays settled and calm, the exchanges
    [sent] are attempted and the clock is the same. *)
Definition progress (K : list string) (w w' : World)
  (sent : list (string * Message)) : Prop :=
  calm (coord w) (coord w') ∧ settled K w' ∧
  outbox w' = outbox w ++ sent ∧ now w' = now w.

End Coordinator.

(** * Participant *)
Module Participant.

(** The fields of the [Participant] object that the protocol reads. *)
Record State := {
  participant_id : string;
  host : string;
  port : Z;
  failure_rate : Q;
  waited_transactions : gset string;
  prepared_transactions : gset string;
  committed_transactions : gmap string Payload;
  aborted_transactions : gset string;
  crashed : bool;
  pending_vote : option (string * Payload);
  pending_commit : option (string * Payload);
  pending_abort : option (string * Payload)
}.

Definition set_failure_rate (r : Q) (p : State) : State :=
  {| participant_id := participant_id p; host := host p; port := port p;
     failure_rate := r;
     waited_transactions := waited_transactions p;
     prepared_transactions := prepared_transactions p;
     committed_transactions := committed_transactions p;
     aborted_transactions := aborted_transactions p;
     crashed := crashed p; pending_vote := pending_vote p;
     pending_commit := pending_commit p; pending_abort := pending_abort p |}.

Definition set_waited (s : gset string) (p : State) : State :=
  {| participant_id := participant_id p; host := host p; port := port p;
     failure_rate := failure_rate p;
     waited_transactions := s;
     prepared_transactions := prepared_transactions p;
     committed_transactions := committed_transactions p;
     aborted_transactions := aborted_transactions p;
     crashed := crashed p; pending_vote := pending_vote p;
     pending_commit := pending_commit p; pending_abort := pending_abort p |}.

Definition set_prepared (s : gset string) (p : State) : State :=
  {| participant_id := participant_id p; host := host p; port := port p;
     failure_rate := failure_rate p;
     waited_transactions := waited_transactions p;
     prepared_transactions := s;
     committed_transactions := committed_transactions p;
     aborted_transactions := aborted_transactions p;
     crashed := crashed p; pending_vote := pending_vote p;
     pending_commit := pending_commit p; pending_abort := pending_abort p |}.

Definition set_committed (m : gmap string Payload) (p : State) : State :=
  {| participant_id := participant_id p; host := host p; port := port p;
     failure_rate := failure_rate p;
     waited_transactions := waited_transactions p;
     prepared_transactions := prepared_transactions p;
     committed_transactions := m;
     aborted_transactions := aborted_transactions p;
     crashed := crashed p; pending_vote := pending_vote p;
     pending_commit := pending_commit p; pending_abort := pending_abort p |}.

Definition set_aborted (s : gset string) (p : State) : State :=
  {| participant_id := participant_id p; host := host p; port := port p;
     failure_rate := failure_rate p;
     waited_transactions := waited_transactions p;
     prepared_transactions := prepared_transactions p;
     committed_transactions := committed_transactions p;
     aborted_transactions := s;
     crashed := crashed p; pending_vote := pending_vote p;
     pending_commit := pending_commit p; pending_abort := pending_abort p |}.

Definition set_crashed (b : bool) (p : State) : State :=
  {| participant_id := participant_id p; host := host p; port := port p;
     failure_rate := failure_rate p;
     waited_transactions := waited_transactions p;
     prepared_transactions := prepared_transactions p;
     committed_transactions := committed_transactions p;
     aborted_transactions := aborted_transactions p;
     crashed := b; pending_vote := pending_vote p;
     pending_commit := pending_commit p; pending_abort := pending_abort p |}.

Definition set_pending_vote (v : option (string * Payload)) (p : State) :=
  {| participant_id := participant_id p; host := host p; port := port p;
     failure_rate := failure_rate p;
     waited_transactions := waited_transactions p;
     prepared_transactions := prepared_transactions p;
     committed_transactions := committed_transactions p;
     aborted_transactions := aborted_transactions p;
     crashed := crashed p; pending_vote := v;
     pending_commit := pending_commit p; pending_abort := pending_abort p |}.

Definition set_pending_commit (v : option (string * Payload)) (p : State) :=
  {| participant_id := participant_id p; host := host p; port := port p;
     failure_rate := failure_rate p;
     waited_transactions := waited_transactions p;
     prepared_transactions := prepared_transactions p;
     committed_transactions := committed_transactions p;
     aborted_transactions := aborted_transactions p;
     crashed := crashed p; pending_vote := pending_vote p;
     pending_commit := v; pending_abort := pending_abort p |}.

Definition set_pending_abort (v : option (string * Payload)) (p : State) :=
  {| participant_id := participant_id p; host := host p; port := port p;
     failure_rate := failure_rate p;
     waited_transactions := waited_transactions p;
     prepared_transactions := prepared_transactions p;
     committed_transactions := committed_transactions p;
     aborted_transactions := aborted_transactions p;
     crashed := crashed p; pending_vote := pending_vote p;
     pending_commit := pending_commit p; pending_abort := v |}.

(** The four timeout threads (lines 178-248). *)
Inductive Timer :=
| wait_for_cancommit_vote | wait_for_precommit_vote
| wait_for_ack_commit | wait_for_ack_abort.

(** What a method does besides changing the object. *)
Inductive Output :=
| Respond (m : Message)             (* written back on the inbound socket *)
| Send (f : Frame)                 (* a connection opened to the coordinator *)
| Arm (t : Timer) (tid : string).  (* Thread(target=t, args=(tid,)).start() *)

Definition bare (t : MessageType) (tid : string) : Message :=
  {| msg_type := t; transaction_id := tid; data := PNone |}.

(** [self.failure_rate > 0 and random.random() < self.failure_rate], for
    the number [draw] that [random.random()] answers. *)
Definition Qltb (x y : Q) : bool := negb (Qle_bool y x).

Definition simulated_failure (p : State) (draw : Q) : bool :=
  Qltb 0 (failure_rate p) && Qltb draw (failure_rate p).

(** ** The senders (lines 376-445)

    [net] says whether [connect] succeeds; when it does not, the exception
    is caught and nothing after it in the [try] block is executed. *)
Definition _send_cancommit_vote_to_coordinator (transaction_id : string)
  (vote_yes net : bool) (p : State) : State * list Output :=
  if negb net then (p, [])
  else if vote_yes then
    (set_waited ({[transaction_id]} ∪ waited_transactions p) p,
     [Send (VOTE_RESPONSE (participant_id p)
              (bare CANCOMMIT_VOTE_YES transaction_id))])
  else
    (p, [Send (VOTE_RESPONSE (participant_id p)
                 (bare CANCOMMIT_VOTE_NO transaction_id))]).

Definition _send_precommit_vote_to_coordinator (transaction_id : string)
  (vote_yes net : bool) (p : State) : State * list Output :=
  if negb net then (p, [])
  else if vote_yes then
    (set_prepared ({[transaction_id]} ∪ prepared_transactions p)
       (set_waited (waited_transactions p ∖ {[transaction_id]}) p),
     [Send (VOTE_RESPONSE (participant_id p)
              (bare PRECOMMIT_VOTE_YES transaction_id))])
  else
    (p, [Send (VOTE_RESPONSE (participant_id p)
                 (bare PRECOMMIT_VOTE_NO transaction_id))]).

Definition _send_ack_to_coordinator (transaction_id : string)
  (ack_type : MessageType) (net : bool) (p : State) : list Output :=
  if negb net then []
  else [Send (ACK_RESPONSE (participant_id p) (bare ack_type transaction_id))].

(** ** The handlers of inbound messages (lines 150-369) *)
Definition _handle_cancommit (message : Message) (draw : Q) (p : State)
  : State * list Output :=
  if simulated_failure p draw
  then (p, [Respond (bare CANCOMMIT_VOTE_NO (transaction_id message))])
  else
    (set_pending_vote (Some (transaction_id message, data message)) p,
     [Arm wait_for_cancommit_vote (transaction_id message)]).

Definition _handle_precommit (message : Message) (draw : Q) (p : State)
  : State * list Output :=
  if simulated_failure p draw
  then (p, [Respond (bare PRECOMMIT_VOTE_NO (transaction_id message))])
  else
    (set_pending_vote (Some (transaction_id message, data message)) p,
     [Arm wait_for_precommit_vote (transaction_id message)]).

Definition _handle_commit (message : Message) (p : State)
  : State * list Output :=
  if bool_decide (transaction_id message ∈ prepared_transactions p)
  then
    (set_pending_commit (Some (transaction_id message, data message)) p,
     [Arm wait_for_ack_commit (transaction_id message)])
  else (p, [Respond (bare ACK_ABORT (transaction_id message))]).

(** [_handle_cancommit_abort], [_handle_precommit_abort] and
    [_handle_abort] (lines 277-344) have the same body. *)
Definition _handle_abort (message : Message) (p : State)
  : State * list Output :=
  (set_pending_abort (Some (transaction_id message, data message)) p,
   [Arm wait_for_ack_abort (transaction_id message)]).

Definition _handle_query_state (message : Message) (p : State)
  : State * list Output :=
  let transaction_id := transaction_id message in
  let state :=
    match committed_transactions p !! transaction_id with
    | Some d => PState "COMMITTED" d
    | None =>
        if bool_decide (transaction_id ∈ prepared_transactions p)
        then PState "PREPARED" (PDict [])
        else if bool_decide (transaction_id ∈ waited_transactions p)
        then PState "WAITED" (PDict [])
        else if bool_decide (transaction_id ∈ aborted_transactions p)
        then PState "ABORTED" (PDict [])
        else PState "UNKNOWN" (PDict [])
    end in
  (p, [Respond {| msg_type := STATE_RESPONSE; transaction_id := transaction_id;
                data := state |}]).

(** ** [_process_message] (lines 122-148) *)
Definition _process_message (message : Message) (draw1 draw2 : Q) (p : State)
  : State * list Output :=
  if simulated_failure p draw1 then
    if bool_decide (msg_type message = CANCOMMIT)
    then (p, [Respond (bare CANCOMMIT_VOTE_NO (transaction_id message))])
    else (p, [])
  else
    match msg_type message with
    | CANCOMMIT => _handle_cancommit message draw2 p
    | PRECOMMIT => _handle_precommit message draw2 p
    | COMMIT => _handle_commit message p
    | CANCOMMIT_ABORT | PRECOMMIT_ABORT | ABORT => _handle_abort message p
    | QUERY_STATE => _handle_query_state message p
    | _ => (p, [])
    end.

(** ** [_handle_request] (lines 100-120), for a payload that decodes to
    [message] *)
Definition _handle_request (message : Message) (draw1 draw2 : Q) (p : State)
  : State * list Output :=
  if crashed p then (p, []) else _process_message message draw1 draw2 p.

(** ** The timeout threads once their sleep is over (lines 178-248) *)
Definition holds (slot : option (string * Payload)) (tid : string) : bool :=
  match slot with
  | Some (tid', _) => bool_decide (tid' = tid)
  | None => false
  end.

Definition _wait_for_cancommit_vote (transaction_id : string) (net : bool)
  (p : State) : State * list Output :=
  if holds (pending_vote p) transaction_id then
    let '(p', out) :=
      _send_cancommit_vote_to_coordinator transaction_id false net p in
    (set_pending_vote None p', out)
  else (p, []).

Definition _wait_for_precommit_vote (transaction_id : string) (net : bool)
  (p : State) : State * list Output :=
  if holds (pending_vote p) transaction_id then
    let '(p', out) :=
      _send_precommit_vote_to_coordinator transaction_id false net p in
    (set_pending_vote None p', out)
  else (p, []).

(** [prepared -> committed[data]] *)
Definition do_commit (transaction_id : string) (d : Payload) (p : State)
  : State :=
  if bool_decide (transaction_id ∈ prepared_transactions p)
  then set_prepared (prepared_transactions p ∖ {[transaction_id]})
         (set_committed (<[transaction_id := d]> (committed_transactions p)) p)
  else p.

(** [prepared -> aborted] *)
Definition do_abort (transaction_id : string) (p : State) : State :=
  set_aborted ({[transaction_id]} ∪ aborted_transactions p)
    (set_prepared (prepared_transactions p ∖ {[transaction_id]}) p).

Definition _wait_for_ack_commit (transaction_id : string) (net : bool)
  (p : State) : State * list Output :=
  match pending_commit p with
  | Some (tid', d) =>
      if bool_decide (tid' = transaction_id) then
        (set_pending_commit None (do_commit transaction_id d p),
         _send_ack_to_coordinator transaction_id ACK_COMMIT net p)
      else (p, [])
  | None => (p, [])
  end.

Definition _wait_for_ack_abort (transaction_id : string) (net : bool)
  (p : State) : State * list Output :=
  if holds (pending_abort p) transaction_id then
    (set_pending_abort None (do_abort transaction_id p),
     _send_ack_to_coordinator transaction_id ACK_ABORT net p)
  else (p, []).

(** ** The operator's commands (lines 544-665)

    A vote or ack command is given by its last word, [None] when the
    command is not one of the two accepted forms. *)
Definition _handle_cancommit_vote_command (vote : option bool) (net : bool)
  (p : State) : State * list Output :=
  match vote, pending_vote p with
  | Some cancommit_vote_yes, Some (transaction_id, _) =>
      _send_cancommit_vote_to_coordinator transaction_id cancommit_vote_yes
        net (set_pending_vote None p)
  | _, _ => (p, [])
  end.

Definition _handle_precommit_vote_command (vote : option bool) (net : bool)
  (p : State) : State * list Output :=
  match vote, pending_vote p with
  | Some precommit_vote_yes, Some (transaction_id, _) =>
      _send_precommit_vote_to_coordinator transaction_id precommit_vote_yes
        net (set_pending_vote None p)
  | _, _ => (p, [])
  end.

Definition _handle_ack_command (ack : option bool) (net : bool) (p : State)
  : State * list Output :=
  match ack with
  | None => (p, [])
  | Some true =>
      match pending_commit p with
      | None => (p, [])
      | Some (transaction_id, d) =>
          let p' := do_commit transaction_id d (set_pending_commit None p) in
          (p', _send_ack_to_coordinator transaction_id ACK_COMMIT net p')
      end
  | Some false =>
      match pending_commit p, pending_abort p with
      | Some (transaction_id, _), _ =>
          let p' := do_abort transaction_id (set_pending_commit None p) in
          (p', _send_ack_to_coordinator transaction_id ACK_ABORT net p')
      | None, Some (transaction_id, _) =>
          let p' := do_abort transaction_id (set_pending_abort None p) in
          (p', _send_ack_to_coordinator transaction_id ACK_ABORT net p')
      | None, None => (p, [])
      end
  end.

Definition _handle_crash (p : State) : State :=
  if crashed p then p else set_crashed true p.

(** Lines 473-486: one record of the history. *)
Definition replay (p : State) (record : HistoryEntry) : State :=
  let tx_id := h_transaction_id record in
  match h_status record with
  | COMMITTED =>
      set_prepared (prepared_transactions p ∖ {[tx_id]})
        (set_committed
           (<[tx_id := PDict (h_data record)]> (committed_transactions p)) p)
  | ABORTED =>
      set_prepared (prepared_transactions p ∖ {[tx_id]})
        (set_aborted ({[tx_id]} ∪ aborted_transactions p) p)
  | _ => p
  end.

(** [_request_history_from_coordinator] (lines 447-492), for the decoded
    reply [r] ([None]: no connection or an empty reply). *)
Definition _request_history_from_coordinator (r : option Message) (p : State)
  : State * bool :=
  match r with
  | Some m =>
      if bool_decide (msg_type m = HISTORY_RESPONSE) then
        match data m with
        | PHistory history => (fold_left replay history p, true)
        | PNone => (p, false)
        | _ => (p, true)
        end
      else (p, false)
  | None => (p, false)
  end.

(** [_handle_recover] (lines 643-665); [registered] says whether the
    coordinator answered [OK] to the registration. *)
Definition _handle_recover (registered : bool) (r : option Message)
  (p : State) : State * list Output :=
  if negb (crashed p) then (p, [])
  else
    let reg := Send (REGISTER (participant_id p) (host p) (port p)) in
    if negb registered then (p, [reg])
    else
      let '(p', _) := _request_history_from_coordinator r p in
      (set_crashed false p', [reg; Send (HISTORY_REQUEST (participant_id p))]).

(** [_set_failure_rate] (lines 695-705) *)
Definition _set_failure_rate (rate : Q) (p : State) : State :=
  if Qle_bool 0 rate && Qle_bool rate 1 then set_failure_rate rate p else p.

(** ** One operation on the participant object *)
Inductive Op :=
| Request (m : Message) (draw1 draw2 : Q)
| TimerFires (t : Timer) (tid : string) (net : bool)
| CancommitVote (vote : option bool) (net : bool)
| PrecommitVote (vote : option bool) (net : bool)
| AckCommand (ack : option bool) (net : bool)
| CrashCommand
| RecoverCommand (registered : bool) (r : option Message)
| FailCommand (rate : Q).

Definition step (p : State) (o : Op) : State * list Output :=
  match o with
  | Request m draw1 draw2 => _handle_request m draw1 draw2 p
  | TimerFires wait_for_cancommit_vote tid net =>
      _wait_for_cancommit_vote tid net p
  | TimerFires wait_for_precommit_vote tid net =>
      _wait_for_precommit_vote tid net p
  | TimerFires wait_for_ack_commit tid net => _wait_for_ack_commit tid net p
  | TimerFires wait_for_ack_abort tid net => _wait_for_ack_abort tid net p
  | CancommitVote vote net => _handle_cancommit_vote_command vote net p
  | PrecommitVote vote net => _handle_precommit_vote_command vote net p
  | AckCommand ack net => _handle_ack_command ack net p
  | CrashCommand => (_handle_crash p, [])
  | RecoverCommand registered r => _handle_recover registered r p
  | FailCommand rate => (_set_failure_rate rate p, [])
  end.

Fixpoint run (p : State) (ops : list Op) : State * list Output :=
  match ops with
  | [] => (p, [])
  | o :: ops' =>
      let '(p', out) := step p o in
      let '(p'', out') := run p' ops' in
      (p'', out ++ out')
  end.

(** [Participant.__init__] *)
Definition init (pid : string) : State :=
  {| participant_id := pid; host := "localhost"; port := 6000;
     failure_rate := 0;
     waited_transactions := ∅; prepared_transactions := ∅;
     committed_transactions := ∅; aborted_transactions := ∅;
     crashed := false; pending_vote := None; pending_commit := None;
     pending_abort := None |}.

(** ** Notions used to state what the methods do *)

Definition is_vote (t : MessageType) : bool :=
  match t with
  | CANCOMMIT_VOTE_YES | CANCOMMIT_VOTE_NO
  | PRECOMMIT_VOTE_YES | PRECOMMIT_VOTE_NO => true
  | _ => false
  end.

(** [o] carries a vote on [tid] to the coordinator, as an immediate reply
    or as a VOTE_RESPONSE frame. *)
Definition votes_on (tid : string) (o : Output) : bool :=
  match o with
  | Respond m | Send (VOTE_RESPONSE _ m) =>
      is_vote (msg_type m) && bool_decide (transaction_id m = tid)
  | _ => false
  end.

(** [o] is the arrival of a CANCOMMIT or PRECOMMIT for [tid]. *)
Definition delivers (tid : string) (o : Op) : bool :=
  match o with
  | Request m _ _ =>
      (bool_decide (msg_type m = CANCOMMIT)
       || bool_decide (msg_type m = PRECOMMIT))
      && bool_decide (transaction_id m = tid)
  | _ => false
  end.

Definition silent_on (tid : string) (out : list Output) : Prop :=
  forallb (λ o, negb (votes_on tid o)) out = true.

End Participant.

(** * Concrete situations *)
Module Scenario.

Definition kv : Data := [("k", "v")].

Definition one_participant : list (string * (string * Z)) :=
  [("P1", ("localhost", 6001%Z))].

Definition two_participants : list (string * (string * Z)) :=
  [("P1", ("localhost", 6001%Z)); ("P2", ("localhost", 6002%Z))].

Definition tick (es : list Coordinator.Event) : Coordinator.Tick :=
  {| Coordinator.events := es; Coordinator.response := None |}.

Definition about_t1 (t : MessageType) : Message :=
  {| msg_type := t; transaction_id := "t1"; data := PNone |}.

Definition vote (pid : string) (t : MessageType) : Coordinator.Event :=
  Coordinator.EvFrame (VOTE_RESPONSE pid (about_t1 t)).

Definition ack (pid : string) (t : MessageType) : Coordinator.Event :=
  Coordinator.EvFrame (ACK_RESPONSE pid (about_t1 t)).

Definition record (s : TxStatus) (plist : list string)
  (votes votep : gmap string bool) (acks : gmap string string)
  : Coordinator.Transaction :=
  {| Coordinator.tx_data := kv; Coordinator.tx_participants := plist;
     Coordinator.tx_votes := votes; Coordinator.tx_votep := votep;
     Coordinator.tx_votec := ∅; Coordinator.tx_acks := acks;
     Coordinator.tx_status := s |}.

Definition coordinator (registry : list (string * (string * Z)))
  (txs : list (string * Coordinator.Transaction)) (is_crashed : bool)
  : Coordinator.State :=
  {| Coordinator.participants := registry; Coordinator.transactions := txs;
     Coordinator.transaction_history := [];
     Coordinator.crashed := is_crashed |}.

Definition world (c : Coordinator.State) (e : list Coordinator.Tick)
  : Coordinator.World :=
  {| Coordinator.coord := c; Coordinator.env := e; Coordinator.outbox := [];
     Coordinator.now := 0%Z |}.

Definition entry (s : TxStatus) : HistoryEntry :=
  {| h_transaction_id := "t1"; h_status := s; h_data := kv;
     h_timestamp := 0%Z |}.

Definition yes2 : gmap string bool := {[ "P1" := true; "P2" := true ]}.

(** P1 and P2 went through both votes and were sent COMMIT; P1 has
    acknowledged, P2 has not, and an ACK_RESPONSE frame that names P3, which
    is not in the snapshot, has been delivered. *)
Definition foreign_ack_record : Coordinator.Transaction :=
  record COMMITTING ["P1"; "P2"] yes2 yes2
    {[ "P1" := "ACK_COMMIT"; "P3" := "ACK_COMMIT" ]}.

Definition committing_foreign_ack : Coordinator.World :=
  world (coordinator two_participants [("t1", foreign_ack_record)] false) [].

(** The same without the stray frame. *)
Definition one_ack_record : Coordinator.Transaction :=
  record COMMITTING ["P1"; "P2"] yes2 yes2 {[ "P1" := "ACK_COMMIT" ]}.

Definition committing_one_ack : Coordinator.World :=
  world (coordinator two_participants [("t1", one_ack_record)] false) [].

(** A whole run that ends in the first situation: every operator answers
    yes twice, then P1 acknowledges and the stray frame arrives. *)
Definition foreign_ack_run : Coordinator.World :=
  world (coordinator two_participants [] false)
    [tick []; tick [];
     tick [vote "P1" CANCOMMIT_VOTE_YES; vote "P2" CANCOMMIT_VOTE_YES];
     tick []; tick [];
     tick [vote "P1" PRECOMMIT_VOTE_YES; vote "P2" PRECOMMIT_VOTE_YES];
     tick []; tick [];
     tick [ack "P1" ACK_COMMIT; ack "P3" ACK_COMMIT]].

(** P1 answers yes twice; the operator types [crash] while COMMIT is
    being sent to P1. *)
Definition crash_while_committing : Coordinator.World :=
  world (coordinator one_participant [] false)
    [tick []; tick [vote "P1" CANCOMMIT_VOTE_YES];
     tick []; tick [vote "P1" PRECOMMIT_VOTE_YES];
     tick [Coordinator.EvCrash]].

(** The coordinator crashed while t1 was COMMITTING and t2 ABORTING. *)
Definition crashed_in_last_phase : Coordinator.World :=
  world (coordinator one_participant
           [("t1", record COMMITTING ["P1"] {[ "P1" := true ]}
                     {[ "P1" := true ]} ∅);
            ("t2", record ABORTING ["P1"] {[ "P1" := false ]} ∅ ∅)]
           true) [].

(** P2 registers while the coordinator waits for P1's CanCommit vote,
    which is NO. *)
Definition late_registration : Coordinator.World :=
  world (coordinator one_participant [] false)
    [tick [];
     tick [Coordinator.EvFrame (REGISTER "P2" "localhost" 6002);
           vote "P1" CANCOMMIT_VOTE_NO];
     tick []; tick [];
     tick [ack "P1" ACK_ABORT]].

(** Recovery has reached t1, which is PREPARED; P1 voted yes, and a vote
    frame that names P3 was delivered as well. *)
Definition foreign_vote_record : Coordinator.Transaction :=
  record PREPARED ["P1"] {[ "P1" := true; "P3" := true ]} ∅ ∅.

Definition prepared_foreign_vote : Coordinator.World :=
  world (coordinator one_participant [("t1", foreign_vote_record)] false) [].

(** The same, where P1 voted no and no stray frame arrived. *)
Definition voted_no_record : Coordinator.Transaction :=
  record PREPARED ["P1"] {[ "P1" := false ]} ∅ ∅.

Definition prepared_voted_no : Coordinator.World :=
  world (coordinator one_participant [("t1", voted_no_record)] false) [].

(** Recovery is asked for in that situation. *)
Definition recover_foreign_vote : Coordinator.World :=
  world (coordinator one_participant [("t1", foreign_vote_record)] true) [].

(** A whole run of the driver: P1 votes no, P2 votes yes, and the operator
    types [crash] while CANCOMMIT_ABORT is being sent to P1. *)
Definition crash_in_abort_run : Coordinator.World :=
  world (coordinator two_participants [] false)
    [tick []; tick [];
     tick [vote "P1" CANCOMMIT_VOTE_NO; vote "P2" CANCOMMIT_VOTE_YES];
     tick [Coordinator.EvCrash]].

(** The CanCommit wait is over with one NO; the operator types [crash]
    during the first exchange of the abort branch. *)
Definition split_vote_record : Coordinator.Transaction :=
  record WAITING ["P1"; "P2"] {[ "P1" := false; "P2" := true ]} ∅ ∅.

Definition crash_in_abort_branch : Coordinator.World :=
  world (coordinator two_participants [("t1", split_vote_record)] false)
    [tick [Coordinator.EvCrash]].

(** The CanCommit wait is over and P1 has not voted; nothing happens
    during the abort branch but P1's acknowledgement. *)
Definition missing_vote_record : Coordinator.Transaction :=
  record WAITING ["P1"; "P2"] {[ "P2" := true ]} ∅ ∅.

Definition quiet_abort_branch : Coordinator.World :=
  world (coordinator two_participants [("t1", missing_vote_record)] false)
    [tick []; tick []; tick [ack "P1" ACK_ABORT]].

(** t1 is ABORTED; P1 never acknowledged. *)
Definition aborted_record : Coordinator.State :=
  coordinator one_participant
    [("t1", record ABORTED ["P1"] {[ "P1" := false ]} ∅
              {[ "P1" := "TIMEOUT" ]})]
    false.

Definition empty_registry : Coordinator.World :=
  world (coordinator [] [] false) [].

(** Participant side. *)
Definition to_p1 (t : MessageType) (tid : string) : Message :=
  {| msg_type := t; transaction_id := tid; data := PDict kv |}.

(** P1 always simulates a failure. *)
Definition always_failing : Participant.State :=
  Participant.set_failure_rate 1 (Participant.init "P1").

(** P1 is waiting for its operator's vote on t1. *)
Definition voting_on_t1 : Participant.State :=
  Participant.set_pending_vote (Some ("t1", PDict kv)) (Participant.init "P1").

(** P1 votes yes on CanCommit, the transaction is aborted because some
    other participant voted no, and P1's operator confirms the abort. *)
Definition yes_then_abort : list Participant.Op :=
  [Participant.Request (to_p1 CANCOMMIT "t1") 0 0;
   Participant.CancommitVote (Some true) true;
   Participant.Request (to_p1 CANCOMMIT_ABORT "t1") 0 0;
   Participant.AckCommand (Some false) true].

End Scenario.

(** * A driver that sleeps through a crash and the recovery

    [execute_transaction] runs on a thread of its own (line 997) and the
    recovery on the thread of the command loop. The recovery clears
    [self.crashed] before anything else (lines 654 and 657), so a driver
    that was asleep or blocked when the operator typed [crash] and then
    [recover] finds the coordinator up at its next test and goes on. *)
Module Overlap.
Import Coordinator Scenario.

(** The driver of t1 has created its record, has sent CANCOMMIT to P1, the
    only participant, which did not answer at once, and is in the
    [time.sleep(1)] of the first round of the CanCommit wait (line 264);
    [E] is what is still to happen. *)
Definition asleep (E : list Tick) : World :=
  {| coord := coordinator one_participant
                [("t1", new_transaction kv ["P1"])] false;
     env := E; outbox := [("P1", message CANCOMMIT "t1" kv)]; now := 0%Z |}.

(** The world in which that driver wakes up when the other threads have
    done the work of the tick [t]. *)
Definition woken (t : Tick) (E : list Tick) : World :=
  {| coord := apply_events (events t) (coord (asleep E)); env := E;
     outbox := outbox (asleep E); now := now (asleep E) |}.

(** What is left of [execute_transaction] for the driver that wakes up:
    the other 59 rounds of the wait (lines 250-271), then lines
    273-623. *)
Definition resumed : Driver unit :=
  wait_votes tx_votes 59 "t1" ["P1"] ;;
  after_cancommit_wait "t1" ["P1"] kv ∅.

(** What happens while the recovery runs: P1 answers the probe (it holds
    t1 in no set), does not answer the ABORT at once, and its operator
    confirms the abort during the first second of the wait. *)
Definition recovery_schedule : list Tick :=
  [{| events := [];
      response := Some {| msg_type := STATE_RESPONSE; transaction_id := "t1";
                          data := PState "UNKNOWN" (PDict []) |} |};
   idle;
   tick [ack "P1" ACK_ABORT]].

(** While the driver is asleep the operator types [crash], then
    [recover]; the recovery runs, and [E] is what is still to happen
    after it. *)
Definition crash_and_recover (E : list Tick) : World :=
  (_handle_recover
     (set_coord (_handle_crash (coord (asleep (recovery_schedule ++ E))))
        (asleep (recovery_schedule ++ E)))).2.

(** Nobody votes during the 59 rounds that are left of the wait, and the
    operator types [crash] again during the CANCOMMIT_ABORT exchange. *)
Definition second_crash : list Tick :=
  replicate 59 idle ++ [tick [EvCrash]].

End Overlap.

(** * Statements about blocking methods *)
Module Hoare.
Import Coordinator.

(** How a method body is left other than by falling through. *)
Inductive Exit :=
| Returned (v : option bool)
| Raised (e : Exn).

(** Started where [P] holds, [d] falls through with a value [a] in a world
    where [Q a] holds, or is left by [x] in a world where [X x] holds. *)
Definition triple {A} (P : World → Prop) (d : Driver A)
  (Q : A → World → Prop) (X : Exit → World → Prop) : Prop :=
  ∀ w, P w →
    match d w with
    | (Continue a, w') => Q a w'
    | (Return v, w') => X (Returned v) w'
    | (Raise e, w') => X (Raised e) w'
    end.

(** A function on records that keeps the data and the snapshot. *)
Definition keeps (f : Transaction → Transaction) : Prop :=
  ∀ tx, tx_data (f tx) = tx_data tx ∧
        tx_participants (f tx) = tx_participants tx.

(** The world after one tick, after one logged exchange, after one write
    to a record, and after one entry is appended to the history. *)
Definition ticked (t : Tick) (rest : list Tick) (w : World) : World :=
  {| coord := apply_events (events t) (coord w); env := rest;
     outbox := outbox w; now := now w |}.

Definition logged (pid : string) (m : Message) (w : World) : World :=
  {| coord := coord w; env := env w; outbox := outbox w ++ [(pid, m)];
     now := now w |}.

Definition written (tid : string) (f : Transaction → Transaction)
  (w : World) : World :=
  set_coord (update_tx tid f (coord w)) w.

Definition appended (e : HistoryEntry) (w : World) : World :=
  set_coord (set_history (transaction_history (coord w) ++ [e]) (coord w)) w.

Definition registry (w : World) : list string :=
  PyDict.keys (participants (coord w)).

Definition known (tid : string) (w : World) : Prop :=
  is_Some (PyDict.get tid (transactions (coord w))).

(** The status a transaction ends with, and the world after the last three
    statements of the driver: the status is written, the history entry is
    appended, the method returns. *)
Definition final_status (b : bool) : TxStatus :=
  if b then COMMITTED else ABORTED.

Definition final_entry (tid : string) (b : bool) (d : Data) (t : Z)
  : HistoryEntry :=
  {| h_transaction_id := tid; h_status := final_status b; h_data := d;
     h_timestamp := t |}.

Definition finished (tid : string) (b : bool) (d : Data) (w : World)
  : World :=
  appended (final_entry tid b d (now w))
    (written tid (with_status (final_status b)) w).

(** The world after the record of a new transaction is put in the table
    (lines 200-208). *)
Definition created (tid : string) (d : Data) (w : World) : World :=
  set_coord
    (set_transactions
       (PyDict.set tid (new_transaction d (registry w))
          (transactions (coord w))) (coord w)) w.

(** How a helper of the recovery is left when [J] holds at its end: by a
    return, or by one of two exceptions. *)
Definition helper_exit (J : World → Prop) (x : Exit) (w : World) : Prop :=
  match x with
  | Returned _ => J w
  | Raised e => e ∈ [RuntimeError; AttributeError] ∧ J w
  end.

(** How the recovery itself is left: it returns nothing. *)
Definition recovery_exit (J : World → Prop) (x : Exit) (w : World) : Prop :=
  match x with
  | Returned None => J w
  | Returned (Some _) => False
  | Raised e => e ∈ [RuntimeError; AttributeError] ∧ J w
  end.

(** What holds between two blocking steps of a method: [I], the registry
    still begins with [K], and the records [T] are in the table. *)
Definition inv (I : World → Prop) (K T : list string) (w : World) : Prop :=
  I w ∧ K `prefix_of` registry w ∧ Forall (λ tid, known tid w) T.

End Hoare.

(** * The life of a coordinator *)
Module Lifetime.
Import Coordinator.

(** [Coordinator.__init__] (lines 15-24) *)
Definition init : State :=
  {| participants := []; transactions := []; transaction_history := [];
     crashed := false |}.

(** The states a coordinator goes through: it starts, serves inbound
    connections and crash commands, runs transactions and recoveries one
    after the other, under any schedule. *)
Inductive Reachable : State → Prop :=
| reach_init : Reachable init
| reach_event c e : Reachable c → Reachable (apply_event c e)
| reach_transaction w tid d :
    Reachable (coord w) → Reachable (coord (execute_transaction tid d w).2)
| reach_recover w :
    Reachable (coord w) → Reachable (coord (_handle_recover w).2).

(** Every record has a snapshot that is not empty, has no duplicates and
    is the beginning of the registry, in the order of registration. *)
Definition snapshots_registered (c : State) : Prop :=
  ∀ tid tx, PyDict.get tid (transactions c) = Some tx →
    tx_participants tx ≠ [] ∧ NoDup (tx_participants tx) ∧
    tx_participants tx `prefix_of` PyDict.keys (participants c).

(** Every history entry is the COMMITTED or ABORTED entry of a transaction
    of the table. *)
Definition history_terminal (c : State) : Prop :=
  Forall (λ e, terminal (h_status e) = true ∧
               is_Some (PyDict.get (h_transaction_id e) (transactions c)))
         (transaction_history c).

(** The two dictionaries that are iterated have no duplicate key. *)
Definition well_formed (c : State) : Prop :=
  NoDup (PyDict.keys (participants c)) ∧
  NoDup (PyDict.keys (transactions c)).

Definition sound (c : State) : Prop :=
  well_formed c ∧ snapshots_registered c ∧ history_terminal c.

End Lifetime.

(** * Schedules in which every operator agrees *)
Module Schedules.
Import Coordinator.

(** [n] exchanges that get no immediate reply and during which nothing
    else happens. *)
Definition silent (n : nat) : list Tick := replicate n idle.

(** One tick during which the frame of every participant of [K] arrives,
    in the order of [K]. *)
Definition arrival (frame : string → Frame) (K : list string) : Tick :=
  {| events := map (λ p, EvFrame (frame p)) K; response := None |}.

(** The frames that the participant [p] sends for [tid] when its operator
    votes yes, votes yes again and confirms the commit
    ([participant.py], lines 387-394, 413-420 and 433-436). *)
Definition cancommit_yes (tid p : string) : Frame :=
  VOTE_RESPONSE p (Participant.bare CANCOMMIT_VOTE_YES tid).

Definition precommit_yes (tid p : string) : Frame :=
  VOTE_RESPONSE p (Participant.bare PRECOMMIT_VOTE_YES tid).

Definition commit_ack (tid p : string) : Frame :=
  ACK_RESPONSE p (Participant.bare ACK_COMMIT tid).

(** For each phase: no participant answers at once, and all the operators
    have answered by the end of the first second of the wait. *)
Definition all_agree (tid : string) (K : list string) : list Tick :=
  silent (length K) ++ [arrival (cancommit_yes tid) K] ++
  silent (length K) ++ [arrival (precommit_yes tid) K] ++
  silent (length K) ++ [arrival (commit_ack tid) K].

(** [for p in L: m[p] = v] *)
Definition record_all {V} (v : V) (L : list string) (m : gmap string V)
  : gmap string V :=
  fold_left (λ m p, <[p := v]> m) L m.

(** The world of a coordinator that is up, with the registry [P], a table
    that holds the record [tx] for [tid], and the history [H]. *)
Definition steady (P : list (string * (string * Z)))
  (T0 : list (string * Transaction)) (H : list HistoryEntry) (N : Z)
  (tid : string) (tx : Transaction) (E : list Tick)
  (O : list (string * Message)) : World :=
  {| coord := {| participants := P; transactions := PyDict.set tid tx T0;
                 transaction_history := H; crashed := false |};
     env := E; outbox := O; now := N |}.

(** The record of a transaction once every participant of [K] has voted
    yes twice and acknowledged the commit. *)
Definition agreed (K : list string) (d : Data) : Transaction :=
  {| tx_data := d; tx_participants := K;
     tx_votes := record_all true K ∅; tx_votep := record_all true K ∅;
     tx_votec := ∅; tx_acks := record_all "ACK_COMMIT" K ∅;
     tx_status := COMMITTED |}.

(** [message t tid d] to every participant of [K], in order. *)
Definition to_all (t : MessageType) (tid : string) (d : Data)
  (K : list string) : list (string * Message) :=
  map (λ p, (p, message t tid d)) K.

End Schedules.

(** * What is observed of a participant *)
Module Observation.
Import Participant.

(** The number of votes on [tid] among the outputs. *)
Definition votes_cast (tid : string) (out : list Output) : nat :=
  length (List.filter (votes_on tid) out).

(** The operator types [recover]. *)
Definition recovers (o : Op) : bool :=
  match o with RecoverCommand _ _ => true | _ => false end.

(** The operator types [precommit vote yes] while the coordinator can be
    reached. *)
Definition prepares (o : Op) : bool :=
  match o with PrecommitVote (Some true) true => true | _ => false end.

(** A COMMIT for [tid] arrives. *)
Definition asks_commit (tid : string) (o : Op) : bool :=
  match o with
  | Request m _ _ =>
      bool_decide (msg_type m = COMMIT)
      && bool_decide (transaction_id m = tid)
  | _ => false
  end.

(** The output is addressed as coming from the participant [p]: a frame
    carries the id of [p], a registration its address as well. *)
Definition own (p : State) (o : Output) : Prop :=
  match o with
  | Send (REGISTER pid h pt) =>
      pid = participant_id p ∧ h = host p ∧ pt = port p
  | Send (VOTE_RESPONSE pid _) | Send (ACK_RESPONSE pid _)
  | Send (HISTORY_REQUEST pid) => pid = participant_id p
  | _ => True
  end.

(** What one participant goes through when the three messages of a
    transaction arrive and its operator agrees each time, the coordinator
    being reachable. *)
Definition agreeing (tid : string) (d : Data) : list Op :=
  [Request {| msg_type := CANCOMMIT; transaction_id := tid;
              data := PDict d |} 0 0;
   CancommitVote (Some true) true;
   Request {| msg_type := PRECOMMIT; transaction_id := tid;
              data := PDict d |} 0 0;
   PrecommitVote (Some true) true;
   Request {| msg_type := COMMIT; transaction_id := tid;
              data := PDict d |} 0 0;
   AckCommand (Some true) true].

End Observation.

(** * The text of the frames that a participant sends

    A participant writes its frames with f-strings and the coordinator
    cuts the text it receives at every ['|']. The texts are kept as their
    UTF-8 bytes: the byte of ['|'] is part of no other character. *)
Module Wire.

(** [sep in s] *)
Fixpoint contains (sep : ascii) (s : string) : bool :=
  match s with
  | EmptyString => false
  | String a s' => Ascii.eqb a sep || contains sep s'
  end.

(** [s.split(sep)] for a separator of one character *)
Fixpoint split (sep : ascii) (s : string) : list string :=
  match s with
  | EmptyString => [EmptyString]
  | String a s' =>
      if Ascii.eqb a sep then EmptyString :: split sep s'
      else
        match split sep s' with
        | [] => [String a EmptyString]
        | x :: l => String a x :: l
        end
  end.

(** [sep.join(l)] *)
Fixpoint join (sep : ascii) (l : list string) : string :=
  match l with
  | [] => EmptyString
  | [x] => x
  | x :: l' => x +:+ String sep (join sep l')
  end.

Definition bar : ascii := "|"%char.

(** [f"{kind}|{self.participant_id}|{msg.to_json()}"]
    ([participant.py], lines 394, 420 and 436) *)
Definition frame (kind participant_id message_json : string) : string :=
  kind +:+ String bar (participant_id +:+ String bar message_json).

(** [f"REGISTER|{self.participant_id}|{self.host}|{self.port}"]
    ([participant.py], line 72); [port] is the text of the number. *)
Definition register_frame (participant_id host port : string) : string :=
  "REGISTER" +:+ String bar
    (participant_id +:+ String bar (host +:+ String bar port)).

(** What the coordinator takes from the text of a VOTE_RESPONSE or an
    ACK_RESPONSE ([coordinator.py], lines 69-70, 89-92 and 113-116): the
    request type, the participant id and the text it hands to
    [Message.from_json]; nothing when there are fewer than three
    parts. *)
Definition read_frame (data : string) : option (string * string * string) :=
  match split bar data with
  | request_type :: participant_id :: (_ :: _) as rest =>
      Some (request_type, participant_id, join bar rest)
  | _ => None
  end.

(** What the coordinator takes from the text of a REGISTER
    ([coordinator.py], lines 69-70 and 77-81): the id, the host and the
    text it hands to [int]; parts after the fourth are not looked at. *)
Definition read_register (data : string)
  : option (string * string * string) :=
  match split bar data with
  | request_type :: participant_id :: participant_host :: port :: _ =>
      if String.eqb request_type "REGISTER"
      then Some (participant_id, participant_host, port) else None
  | _ => None
  end.

End Wire.

(** * Runs of the two programs *)
Module Examples.
Import Scenario.

(** The coordinator after P1 has registered. *)
Definition registered : Coordinator.State :=
  Coordinator.apply_event Lifetime.init
    (Coordinator.EvFrame (REGISTER "P1" "localhost" 6001%Z)).

(** The operator of P1 agrees to t1 in each phase. *)
Definition p1_agrees : Coordinator.World :=
  {| Coordinator.coord := registered;
     Coordinator.env := Schedules.all_agree "t1" ["P1"];
     Coordinator.outbox := []; Coordinator.now := 0%Z |}.

(** The coordinator after it has run t1 with P1. *)
Definition after_commit : Coordinator.State :=
  Coordinator.coord (Coordinator.execute_transaction "t1" kv p1_agrees).2.

(** The operator of P1 agrees to t2 as well. *)
Definition p1_agrees_again : Coordinator.World :=
  {| Coordinator.coord := after_commit;
     Coordinator.env := Schedules.all_agree "t2" ["P1"];
     Coordinator.outbox := []; Coordinator.now := 1%Z |}.

(** The coordinator after it has run t1 with P1, and then t2. *)
Definition after_two : Coordinator.State :=
  Coordinator.coord
    (Coordinator.execute_transaction "t2" kv p1_agrees_again).2.

(** The operators of P1 and P2 agree to t1 in each phase; after that, P1
    registers again. *)
Definition both_agree : Coordinator.World :=
  world (coordinator two_participants [] false)
    (Schedules.all_agree "t1" ["P1"; "P2"] ++
     [tick [Coordinator.EvFrame (REGISTER "P1" "localhost" 6001%Z)]]).

(** The coordinator has started t1 with P1 and P2. *)
Definition started : Coordinator.State :=
  coordinator two_participants
    [("t1", record WAITING ["P1"; "P2"] ∅ ∅ ∅)] false.

(** P1 has crashed. *)
Definition p1_down : Participant.State :=
  Participant._handle_crash (Participant.init "P1").

(** The vote on t1 is pending; the operator votes, the timeout thread
    fires, the operator votes again. *)
Definition vote_then_timeout : list Participant.Op :=
  [Participant.CancommitVote (Some true) true;
   Participant.TimerFires Participant.wait_for_cancommit_vote "t1" true;
   Participant.PrecommitVote (Some false) true].

(** After the lost vote, the timeout thread fires and the operator
    confirms a commit. *)
Definition timeout_then_ack : list Participant.Op :=
  [Participant.TimerFires Participant.wait_for_cancommit_vote "t1" true;
   Participant.AckCommand (Some true) true].

(** The operator sets the failure rate to one half, then tries 2. *)
Definition fail_commands : list Participant.Op :=
  [Participant.FailCommand (1 # 2); Participant.FailCommand 2].

(** The coordinator has started t1 and crashed. *)
Definition started_then_crashed : Coordinator.State :=
  Coordinator._handle_crash started.

(** What reaches a crashed coordinator: a vote, an ACK, a second [crash]
    and a registration. *)
Definition while_down : list Coordinator.Event :=
  [vote "P1" CANCOMMIT_VOTE_YES; ack "P2" ACK_COMMIT; Coordinator.EvCrash;
   Coordinator.EvFrame (REGISTER "P3" "localhost" 6003%Z)].

(** What a crashed participant goes through: a CANCOMMIT arrives, its
    operator votes and types [crash] again. *)
Definition requests_while_down : list Participant.Op :=
  [Participant.Request (to_p1 CANCOMMIT "t1") 0 0;
   Participant.CancommitVote (Some true) true;
   Participant.CrashCommand].

(** The reply of the coordinator to the history request of P1 when t1
    was committed. *)
Definition history_reply : Message :=
  {| msg_type := HISTORY_RESPONSE; transaction_id := "HISTORY";
     data := PHistory [entry COMMITTED] |}.

End Examples.

(** * Facts *)

Set Warnings "-clear-no-such-hyp".

Module PyDictFacts.
Import PyDict.

Lemma eqb_decide (a b : string) : String.eqb a b = bool_decide (a = b).
Proof.
  destruct (String.eqb_spec a b) as [->|Hne].
  - by rewrite bool_decide_eq_true_2.
  - by rewrite bool_decide_eq_false_2.
Qed.

Lemma get_set_eq {V} k (v : V) d : get k (set k v d) = Some v.
Proof.
  induction d as [|[k' v'] d IH]; simpl.
  - by rewrite String.eqb_refl.
  - destruct (String.eqb k k') eqn:E; simpl; rewrite ?String.eqb_refl, ?E; done.
Qed.

Lemma get_set_ne {V} k k' (v : V) d : k ≠ k' → get k' (set k v d) = get k' d.
Proof.
  intros Hne. induction d as [|[k0 v0] d IH]; simpl.
  - destruct (String.eqb_spec k' k); congruence.
  - destruct (String.eqb_spec k k0) as [->|Hk]; simpl.
    + destruct (String.eqb_spec k' k0); congruence.
    + destruct (String.eqb_spec k' k0); congruence.
Qed.

Lemma keys_set_present {V} k (v : V) d :
  is_Some (get k d) → keys (set k v d) = keys d.
Proof.
  unfold keys. induction d as [|[k0 v0] d IH]; simpl.
  - by intros [? ?].
  - destruct (String.eqb_spec k k0) as [->|Hk]; simpl; [done|].
    intros H. by rewrite IH.
Qed.

Lemma get_Some_elem_of {V} k (v : V) d : get k d = Some v → (k, v) ∈ d.
Proof.
  induction d as [|[k0 v0] d IH]; simpl; [done|].
  destruct (String.eqb_spec k k0) as [->|Hk].
  - intros [= ->]. left.
  - intros H. right. auto.
Qed.

Lemma get_is_Some_keys {V} k (d : list (string * V)) :
  is_Some (get k d) ↔ k ∈ keys d.
Proof.
  unfold keys. induction d as [|[k0 v0] d IH]; simpl.
  - split; [by intros [? ?]|by intros ?%elem_of_nil].
  - destruct (String.eqb_spec k k0) as [->|Hk].
    + split; [intros _; left|eauto].
    + rewrite IH, elem_of_cons. split; [auto|]. intros [?|?]; [done|auto].
Qed.

Lemma elem_of_get_NoDup {V} k (v : V) d :
  NoDup (keys d) → (k, v) ∈ d → get k d = Some v.
Proof.
  unfold keys. induction d as [|[k0 v0] d IH]; simpl.
  - by intros _ ?%elem_of_nil.
  - intros [Hnotin Hnd]%NoDup_cons [Heq|Hin]%elem_of_cons.
    + injection Heq as -> ->. by rewrite String.eqb_refl.
    + destruct (String.eqb_spec k k0) as [->|Hk]; [|auto].
      exfalso. apply Hnotin. apply list_elem_of_fmap. by exists (k0, v).
Qed.

Lemma mem_true {V} k (d : list (string * V)) : mem k d = true ↔ k ∈ keys d.
Proof.
  rewrite <- get_is_Some_keys. unfold mem.
  destruct (get k d); split; intros H; done.
Qed.

Lemma length_keys {V} (d : list (string * V)) : length (keys d) = length d.
Proof. unfold keys. by rewrite length_map. Qed.

End PyDictFacts.

Module CoordinatorProofs.
Import PyDictFacts Coordinator.

Lemma fill_missing_lookup {V} (v : V) plist (m : gmap string V) p :
  fill_missing v plist m !! p =
    match m !! p with
    | Some x => Some x
    | None => if decide (p ∈ plist) then Some v else None
    end.
Proof.
  unfold fill_missing. revert m.
  induction plist as [|q plist IH]; intros m; cbn [fold_left].
  - destruct (m !! p); [done|].
    destruct (decide (p ∈ [])) as [H|H]; [by apply elem_of_nil in H|done].
  - rewrite IH.
    assert (Hcons : p ∈ q :: plist ↔ p = q ∨ p ∈ plist) by apply elem_of_cons.
    destruct (m !! q) eqn:Hq.
    + destruct (m !! p) eqn:Hp; [done|].
      assert (p ≠ q) by congruence.
      destruct (decide (p ∈ plist)), (decide (p ∈ q :: plist)); naive_solver.
    + destruct (decide (p = q)) as [->|Hne].
      * rewrite lookup_insert_eq, Hq.
        destruct (decide (q ∈ q :: plist)); naive_solver.
      * rewrite lookup_insert_ne by done.
        destruct (m !! p); [done|].
        destruct (decide (p ∈ plist)), (decide (p ∈ q :: plist)); naive_solver.
Qed.

Lemma fill_missing_dom {V} (v : V) plist (m : gmap string V) :
  dom (fill_missing v plist m) = dom m ∪ list_to_set plist.
Proof.
  apply set_eq. intros p.
  rewrite elem_of_dom, fill_missing_lookup, elem_of_union, elem_of_dom,
    elem_of_list_to_set.
  destruct (m !! p); [naive_solver|].
  destruct (decide (p ∈ plist)); naive_solver.
Qed.

Lemma all_values_spec (m : gmap string bool) :
  all_values m = true ↔ ∀ p b, m !! p = Some b → b = true.
Proof.
  unfold all_values. rewrite forallb_forall. split.
  - intros H p b Hp. apply (H b).
    apply in_map_iff. exists (p, b). split; [done|].
    apply list_elem_of_In. by apply elem_of_map_to_list.
  - intros H b [[p b'] [<- Hin]]%in_map_iff. simpl.
    apply list_elem_of_In, elem_of_map_to_list in Hin.
    unfold id. eauto.
Qed.

Lemma length_filter_eq {A} (P : A → Prop) `{∀ x, Decision (P x)} (l : list A) :
  length (filter P l) = length l ↔ Forall P l.
Proof.
  split.
  - intros Hlen. apply Forall_forall. intros x Hx.
    destruct (decide (P x)) as [|Hn]; [done|].
    pose proof (length_filter_lt P l x Hx Hn). lia.
  - induction 1 as [|x l HP _ IH]; [done|].
    rewrite filter_cons_True by done. simpl. by rewrite IH.
Qed.

Lemma count_values_le s (m : gmap string string) :
  (count_values s m ≤ size m)%nat.
Proof.
  unfold count_values. rewrite <- length_map_to_list. apply length_filter.
Qed.

Lemma count_values_full s (m : gmap string string) :
  count_values s m = size m ↔ ∀ p x, m !! p = Some x → x = s.
Proof.
  unfold count_values. rewrite <- length_map_to_list, length_filter_eq.
  rewrite Forall_forall. split.
  - intros H p x Hp. apply (H (p, x)). by apply elem_of_map_to_list.
  - intros H [p x] Hin. simpl. apply elem_of_map_to_list in Hin. eauto.
Qed.

Lemma size_covering {V} (m : gmap string V) plist :
  NoDup plist → dom m = list_to_set plist → size m = length plist.
Proof.
  intros Hnd Hdom. rewrite <- size_dom, Hdom. by apply size_list_to_set.
Qed.

(** The ACK count of the commit tally against the snapshot. *)
Lemma count_acks_snapshot (acks : gmap string string) plist :
  NoDup plist →
  (∀ p, p ∈ dom acks → p ∈ plist) →
  let filled := fill_missing "TIMEOUT" plist acks in
  (count_values "ACK_COMMIT" filled < length plist)%nat ↔
  ¬ (∀ p, p ∈ plist → filled !! p = Some "ACK_COMMIT").
Proof.
  intros Hnd Hsub filled.
  assert (Hdom : dom filled = list_to_set plist).
  { unfold filled. rewrite fill_missing_dom. apply set_eq. intros p.
    rewrite elem_of_union, elem_of_list_to_set. naive_solver. }
  pose proof (size_covering filled plist Hnd Hdom) as Hsize.
  pose proof (count_values_le "ACK_COMMIT" filled) as Hle.
  pose proof (count_values_full "ACK_COMMIT" filled) as Hfull.
  split.
  - intros Hlt Hall.
    assert (count_values "ACK_COMMIT" filled = size filled); [|lia].
    apply Hfull. intros p x Hp.
    assert (p ∈ plist) as Hin.
    { apply (elem_of_list_to_set (C:=gset string)). rewrite <- Hdom.
      apply elem_of_dom. eauto. }
    specialize (Hall p Hin). congruence.
  - intros Hnot.
    destruct (decide (count_values "ACK_COMMIT" filled = size filled)) as [E|E];
      [|lia].
    exfalso. apply Hnot. intros p Hin.
    assert (is_Some (filled !! p)) as [x Hx].
    { apply elem_of_dom. rewrite Hdom. by apply elem_of_list_to_set. }
    rewrite Hx. f_equal. by apply (proj1 Hfull E p x).
Qed.


Lemma bind_Continue {A B} (d : Driver A) (k : A → Driver B) w a w' :
  d w = (Continue a, w') → (d ≫= k) w = k a w'.
Proof. intros H. unfold mbind, driver_bind. by rewrite H. Qed.

Lemma bind_Return {A B} (d : Driver A) (k : A → Driver B) w v w' :
  d w = (Return v, w') → (d ≫= k) w = (Return v, w').
Proof. intros H. unfold mbind, driver_bind. by rewrite H. Qed.

Lemma bind_Raise {A B} (d : Driver A) (k : A → Driver B) w e w' :
  d w = (Raise e, w') → (d ≫= k) w = (Raise e, w').
Proof. intros H. unfold mbind, driver_bind. by rewrite H. Qed.

Lemma get_tx_run tid w tx :
  PyDict.get tid (transactions (coord w)) = Some tx →
  get_tx tid w = (Continue tx, w).
Proof. intros H. unfold get_tx. by rewrite H. Qed.

Lemma modify_tx_run tid f w tx :
  PyDict.get tid (transactions (coord w)) = Some tx →
  modify_tx tid f w = (Continue tt, set_coord (update_tx tid f (coord w)) w).
Proof.
  intros H. unfold modify_tx.
  by rewrite (bind_Continue _ _ _ _ _ (get_tx_run _ _ _ H)).
Qed.

Lemma get_update_tx_eq tid f c tx :
  PyDict.get tid (transactions c) = Some tx →
  PyDict.get tid (transactions (update_tx tid f c)) = Some (f tx).
Proof. intros H. unfold update_tx. rewrite H. simpl. apply get_set_eq. Qed.

Lemma get_update_tx_ne tid tid' f c :
  tid ≠ tid' →
  PyDict.get tid' (transactions (update_tx tid f c)) =
  PyDict.get tid' (transactions c).
Proof.
  intros H. unfold update_tx. destruct (PyDict.get tid (transactions c)); [|done].
  simpl. by apply get_set_ne.
Qed.

Lemma update_tx_history tid f c :
  transaction_history (update_tx tid f c) = transaction_history c.
Proof. unfold update_tx. by destruct (PyDict.get tid (transactions c)). Qed.

Lemma update_tx_participants tid f c :
  participants (update_tx tid f c) = participants c.
Proof. unfold update_tx. by destruct (PyDict.get tid (transactions c)). Qed.

Lemma update_tx_crashed tid f c : crashed (update_tx tid f c) = crashed c.
Proof. unfold update_tx. by destruct (PyDict.get tid (transactions c)). Qed.

Lemma append_history_run tid s d w :
  append_history tid s d w =
  (Continue tt,
   set_coord (set_history (transaction_history (coord w) ++
                [{| h_transaction_id := tid; h_status := s; h_data := d;
                    h_timestamp := now w |}]) (coord w)) w).
Proof. reflexivity. Qed.

(** C1, with a proviso. In the DoCommit phase, once the ACK wait is over, the
    snapshot participants without an ACK are recorded as TIMEOUT; provided
    the ACK dictionary has no entry for an id outside the snapshot, the
    driver returns true, sets the status to COMMITTED and appends exactly
    one COMMITTED history entry if the ACK of every snapshot participant is
    ACK_COMMIT, and otherwise returns false, sets the status to ABORTED and
    appends exactly one ABORTED history entry. *)
Theorem docommit_tally_snapshot tid plist transaction_data w tx :
  PyDict.get tid (transactions (coord w)) = Some tx →
  NoDup plist →
  (∀ p, p ∈ dom (tx_acks tx) → p ∈ plist) →
  let filled := fill_missing "TIMEOUT" plist (tx_acks tx) in
  ∃ (b : bool) w',
    docommit_tally tid plist transaction_data w = (Return (Some b), w') ∧
    (b = true ↔ ∀ p, p ∈ plist → filled !! p = Some "ACK_COMMIT") ∧
    PyDict.get tid (transactions (coord w')) =
      Some (with_status (if b then COMMITTED else ABORTED)
              (with_acks (λ _, filled) tx)) ∧
    transaction_history (coord w') =
      transaction_history (coord w) ++
      [{| h_transaction_id := tid;
          h_status := if b then COMMITTED else ABORTED;
          h_data := transaction_data; h_timestamp := now w |}] ∧
    outbox w' = outbox w.
Proof.
  intros Hget Hnd Hsub filled.
  pose proof (count_acks_snapshot (tx_acks tx) plist Hnd Hsub) as Hcount.
  cbv zeta in Hcount. fold filled in Hcount.
  unfold docommit_tally.
  erewrite bind_Continue by (by eapply modify_tx_run).
  set (w1 := set_coord _ w).
  assert (Hget1 : PyDict.get tid (transactions (coord w1)) =
                  Some (with_acks (λ _, filled) tx)).
  { unfold w1. simpl. by rewrite (get_update_tx_eq _ _ _ _ Hget). }
  erewrite bind_Continue by (by eapply get_tx_run).
  cbv zeta. cbn [tx_acks with_acks].
  destruct (Nat.ltb_spec (count_values "ACK_COMMIT" filled) (length plist))
    as [Hlt|Hge].
  - exists false.
    erewrite bind_Continue by (by eapply modify_tx_run).
    eexists. split; [reflexivity|]. cbn.
    split.
    { split; [done|]. intros Hall. by apply Hcount in Hlt. }
    split; [by rewrite (get_update_tx_eq _ _ _ _ Hget1)|].
    by rewrite !update_tx_history.
  - exists true.
    erewrite bind_Continue by (by eapply modify_tx_run).
    eexists. split; [reflexivity|]. cbn.
    split.
    { split; [|done]. intros _.
      destruct (decide (Forall (λ p, filled !! p = Some "ACK_COMMIT") plist))
        as [Hall|Hnot].
      - intros p Hp. by eapply Forall_forall in Hall.
      - exfalso. assert (count_values "ACK_COMMIT" filled < length plist)%nat;
          [|lia].
        apply Hcount. intros Hall. apply Hnot, Forall_forall. eauto. }
    split; [by rewrite (get_update_tx_eq _ _ _ _ Hget1)|].
    by rewrite !update_tx_history.
Qed.

(** C8. With an empty registry [execute_transaction] returns false at
    once and leaves everything as it was: no record in the table, no
    exchange attempted, no history entry (crashed or not). *)
Theorem execute_transaction_no_participants transaction_id transaction_data w :
  participants (coord w) = [] →
  execute_transaction transaction_id transaction_data w =
    (Return (Some false), w).
Proof.
  intros H. unfold execute_transaction.
  erewrite bind_Continue by reflexivity.
  destruct (crashed (coord w)); [done|]. by rewrite H.
Qed.


Section Preservation.
Variable I : State → Prop.
Hypothesis I_event : ∀ c e, I c → I (apply_event c e).

Lemma preserves_bind {A B} (d : Driver A) (k : A → Driver B) :
  preserves I d → (∀ a, preserves I (k a)) → preserves I (d ≫= k).
Proof.
  intros Hd Hk w Hw. specialize (Hd w Hw).
  unfold mbind, driver_bind. destruct (d w) as [[a|v|e] w']; simpl in *; auto.
  by apply Hk.
Qed.

Lemma preserves_pure {A} (d : Driver A) :
  (∀ w, coord (d w).2 = coord w) → preserves I d.
Proof. intros H w Hw. by rewrite H. Qed.

Lemma preserves_mret {A} (a : A) : preserves I (mret a).
Proof. by apply preserves_pure. Qed.

Lemma preserves_return {A} v : preserves I (@return_ A v).
Proof. by apply preserves_pure. Qed.

Lemma preserves_raise {A} e : preserves I (@raise A e).
Proof. by apply preserves_pure. Qed.

Lemma preserves_get_self : preserves I get_self.
Proof. by apply preserves_pure. Qed.

Lemma preserves_time_time : preserves I time_time.
Proof. by apply preserves_pure. Qed.

Lemma preserves_log_send pid m : preserves I (log_send pid m).
Proof. by apply preserves_pure. Qed.

Lemma preserves_get_tx tid : preserves I (get_tx tid).
Proof.
  apply preserves_pure. intros w. unfold get_tx.
  by destruct (PyDict.get tid (transactions (coord w))).
Qed.

Lemma preserves_modify f : (∀ c, I c → I (f c)) → preserves I (modify f).
Proof. intros H w Hw. by apply H. Qed.

Lemma preserves_modify_tx tid f :
  (∀ c, I c → I (update_tx tid f c)) → preserves I (modify_tx tid f).
Proof.
  intros H. apply preserves_bind; [apply preserves_get_tx|].
  intros _. by apply preserves_modify.
Qed.

Lemma I_events es c : I c → I (apply_events es c).
Proof.
  unfold apply_events. revert c.
  induction es as [|e es IH]; intros c Hc; simpl; auto.
Qed.

Lemma preserves_suspend : preserves I suspend.
Proof.
  intros w Hw. unfold suspend. destruct (env w); simpl; [done|].
  by apply I_events.
Qed.

Lemma preserves_sleep : preserves I sleep.
Proof.
  apply preserves_bind; [apply preserves_suspend|].
  intros _. apply preserves_mret.
Qed.

Lemma preserves_send_message pid m force :
  preserves I (_send_message pid m force).
Proof.
  unfold _send_message.
  apply preserves_bind; [apply preserves_get_self|]. intros c.
  destruct (negb _); [apply preserves_raise|].
  destruct (_ && _); [apply preserves_mret|].
  apply preserves_bind; [apply preserves_log_send|]. intros _.
  apply preserves_bind; [apply preserves_suspend|]. intros t.
  apply preserves_mret.
Qed.

Lemma preserves_call (d : Driver unit) : preserves I d → preserves I (call d).
Proof.
  intros Hd w Hw. specialize (Hd w Hw). unfold call.
  by destruct (d w) as [[a|v|e] w'].
Qed.

Lemma preserves_wait_acks ticks tid target :
  preserves I (wait_acks ticks tid target).
Proof.
  induction ticks as [|ticks IH]; simpl; [apply preserves_mret|].
  apply preserves_bind; [apply preserves_get_self|]. intros c.
  destruct (crashed c); [apply preserves_return|].
  apply preserves_bind; [apply preserves_get_tx|]. intros tx.
  destruct (Nat.eqb _ _); [apply preserves_mret|].
  apply preserves_bind; [apply preserves_sleep|]. by intros _.
Qed.

Lemma preserves_wait_votes field ticks tid plist :
  preserves I (wait_votes field ticks tid plist).
Proof.
  induction ticks as [|ticks IH]; simpl; [apply preserves_mret|].
  apply preserves_bind; [apply preserves_get_self|]. intros c.
  destruct (crashed c); [apply preserves_return|].
  apply preserves_bind; [apply preserves_get_tx|]. intros tx.
  destruct (Nat.eqb _ _); [apply preserves_mret|].
  apply preserves_bind; [apply preserves_sleep|]. by intros _.
Qed.

Lemma preserves_ack_sends cc m expect size0 keys acks :
  preserves I (ack_sends cc m expect size0 keys acks).
Proof.
  revert acks. induction keys as [|k keys IH]; intros acks; simpl.
  - apply preserves_bind; [apply preserves_get_self|]. intros c.
    destruct (negb _); [apply preserves_raise|apply preserves_mret].
  - apply preserves_bind; [apply preserves_get_self|]. intros c.
    destruct (negb _); [apply preserves_raise|].
    destruct (_ && _); [apply preserves_return|].
    apply preserves_bind; [apply preserves_send_message|]. intros r.
    apply IH.
Qed.

Lemma preserves_append_history tid s d :
  (∀ c h, I c → I (set_history h c)) →
  preserves I (append_history tid s d).
Proof.
  intros H. unfold append_history.
  apply preserves_bind; [apply preserves_time_time|]. intros t.
  apply preserves_modify. intros c Hc. by apply H.
Qed.

Lemma preserves_query_participant_state pid tid :
  preserves I (_query_participant_state pid tid).
Proof.
  intros w Hw. unfold _query_participant_state.
  pose proof (preserves_send_message pid
    {| msg_type := QUERY_STATE; transaction_id := tid; data := PDict [] |}
    true w Hw) as H.
  destruct (_send_message _ _ _ w) as [[[r|]|v|e] w']; simpl in *; try done.
  by destruct (bool_decide _).
Qed.

Lemma preserves_query_states tid pids states :
  preserves I (query_states tid pids states).
Proof.
  revert states. induction pids as [|p pids IH]; intros states; simpl.
  - apply preserves_mret.
  - apply preserves_bind; [apply preserves_get_self|]. intros c.
    destruct (negb _); [apply IH|].
    apply preserves_bind; [apply preserves_query_participant_state|].
    intros st. destruct (get_status st); [apply IH|apply preserves_raise].
Qed.

End Preservation.


Lemma core_update_tx_keep tid tid' f c :
  (∀ tx, tx_core (f tx) = tx_core tx) →
  core_of tid (update_tx tid' f c) = core_of tid c.
Proof.
  intros Hf. unfold core_of.
  destruct (decide (tid' = tid)) as [->|Hne].
  - destruct (PyDict.get tid (transactions c)) as [tx|] eqn:E.
    + rewrite (get_update_tx_eq _ _ _ _ E). simpl. by rewrite Hf.
    + unfold update_tx. rewrite E. simpl. by rewrite E.
  - by rewrite get_update_tx_ne.
Qed.

Lemma core_update_tx_ne tid tid' f c :
  tid' ≠ tid → core_of tid (update_tx tid' f c) = core_of tid c.
Proof. intros Hne. unfold core_of. by rewrite get_update_tx_ne. Qed.

Lemma core_handler tid f c :
  core_of tid (_handle_participant_connection f c).1 = core_of tid c.
Proof.
  unfold _handle_participant_connection.
  destruct (crashed c && refused_when_crashed f); [done|].
  destruct f as [pid h p|pid m|pid m|pid|]; simpl; try done.
  - destruct (PyDict.get (transaction_id m) (transactions c)); [|done].
    simpl. apply core_update_tx_keep. by destruct (msg_type m).
  - destruct (PyDict.get (transaction_id m) (transactions c)); [|done].
    simpl. by apply core_update_tx_keep.
Qed.

Lemma core_crash tid c : core_of tid (_handle_crash c) = core_of tid c.
Proof. unfold _handle_crash. by destruct (crashed c). Qed.

Lemma core_event tid c e : core_of tid (apply_event c e) = core_of tid c.
Proof. destruct e; [apply core_handler|apply core_crash]. Qed.

Lemma unfinished_txs_spec c tid :
  NoDup (PyDict.keys (transactions c)) →
  tid ∈ unfinished_txs c →
  ∃ tx, PyDict.get tid (transactions c) = Some tx ∧ unfinished tx = true.
Proof.
  intros Hnd Hin. unfold unfinished_txs, PyDict.keys in Hin.
  apply list_elem_of_fmap in Hin as [[tid' tx] [-> Hin]].
  apply list_elem_of_filter in Hin as [Hu Hin]. simpl in *.
  exists tx. split; [|done]. by apply elem_of_get_NoDup.
Qed.

Lemma keys_update_tx tid f c :
  PyDict.keys (transactions (update_tx tid f c)) = PyDict.keys (transactions c).
Proof.
  unfold update_tx. destruct (PyDict.get tid (transactions c)) eqn:E; [|done].
  simpl. apply keys_set_present. by rewrite E.
Qed.

Lemma keys_set_absent {V} k (v : V) d :
  PyDict.get k d = None → PyDict.keys (PyDict.set k v d) = PyDict.keys d ++ [k].
Proof.
  unfold PyDict.keys. induction d as [|[k0 v0] d IH]; simpl; [done|].
  destruct (String.eqb_spec k k0) as [->|Hk]; [done|].
  intros H. simpl. by rewrite IH.
Qed.

Lemma NoDup_keys_set {V} k (v : V) d :
  NoDup (PyDict.keys d) → NoDup (PyDict.keys (PyDict.set k v d)).
Proof.
  intros Hnd. destruct (PyDict.get k d) eqn:E.
  - rewrite keys_set_present by (by rewrite E). done.
  - rewrite keys_set_absent by done.
    apply NoDup_app. split; [done|]. split; [|apply NoDup_singleton].
    intros x Hx ->%list_elem_of_singleton.
    apply get_is_Some_keys in Hx. rewrite E in Hx. by destruct Hx.
Qed.

Lemma keys_handler f c :
  PyDict.keys (transactions (_handle_participant_connection f c).1) =
  PyDict.keys (transactions c).
Proof.
  unfold _handle_participant_connection.
  destruct (crashed c && refused_when_crashed f); [done|].
  destruct f as [pid h p|pid m|pid m|pid|]; simpl; try done.
  - destruct (PyDict.get (transaction_id m) (transactions c)); [|done].
    simpl. apply keys_update_tx.
  - destruct (PyDict.get (transaction_id m) (transactions c)); [|done].
    simpl. apply keys_update_tx.
Qed.

Lemma keys_event c e :
  PyDict.keys (transactions (apply_event c e)) = PyDict.keys (transactions c).
Proof.
  destruct e; [apply keys_handler|].
  unfold apply_event, _handle_crash. by destruct (crashed c).
Qed.

(** What every method of the coordinator keeps true, for a property [I]
    of the object that the listener, the history and the crash flag do not
    touch and that only writes to the record [tid] can break. *)
Section Untouched.
Variables (tid : string) (I : State → Prop).
Hypothesis I_event : ∀ c e, I c → I (apply_event c e).
Hypothesis I_set_history : ∀ c h, I c → I (set_history h c).
Hypothesis I_set_crashed : ∀ c b, I c → I (set_crashed b c).
Hypothesis I_update : ∀ tid' f c, tid' ≠ tid → I c → I (update_tx tid' f c).
Hypothesis I_new : ∀ tid' tx c,
  tid' ≠ tid → I c →
  I (set_transactions (PyDict.set tid' tx (transactions c)) c).
Hypothesis I_unfinished : ∀ c, I c → tid ∉ unfinished_txs c.

Ltac pres :=
  repeat first
    [ apply preserves_mret | apply preserves_return | apply preserves_raise
    | apply preserves_get_self | apply preserves_get_tx
    | apply preserves_wait_acks; [by auto]
    | apply preserves_wait_votes; [by auto]
    | apply preserves_ack_sends; [by auto]
    | apply preserves_send_message; [by auto]
    | apply preserves_query_states; [by auto]
    | apply preserves_modify_tx; [by auto]
    | apply preserves_append_history; [by auto]
    | apply preserves_bind; [|intros ?] ].

Lemma untouched_complete_commit tid' :
  tid' ≠ tid → preserves I (_complete_commit tid').
Proof.
  intros Hne. unfold _complete_commit. pres.
  destruct (Nat.ltb _ _); pres.
Qed.

Lemma untouched_complete_abort tid' :
  tid' ≠ tid → preserves I (_complete_abort tid').
Proof. intros Hne. unfold _complete_abort. pres. Qed.

Lemma untouched_recovery_decision tid' states :
  tid' ≠ tid → preserves I (recovery_decision tid' states).
Proof.
  intros Hne. unfold recovery_decision. cbv zeta.
  apply preserves_bind; [apply preserves_get_tx|]. intros tx.
  destruct (tx_status tx); repeat case_match;
    first [by apply preserves_call, untouched_complete_commit
          |by apply preserves_call, untouched_complete_abort].
Qed.

Lemma untouched_recover_transaction tid' :
  tid' ≠ tid → preserves I (recover_transaction tid').
Proof.
  intros Hne. unfold recover_transaction.
  apply preserves_bind; [apply preserves_get_tx|]. intros tx.
  apply preserves_bind; [by apply preserves_query_states; auto|].
  intros states. by apply untouched_recovery_decision.
Qed.

Lemma untouched_recover_transactions tids :
  tid ∉ tids → preserves I (recover_transactions tids).
Proof.
  induction tids as [|t tids IH]; intros Hnotin; simpl;
    [apply preserves_mret|].
  apply not_elem_of_cons in Hnotin as [Hne Hnotin].
  apply preserves_bind; [by apply untouched_recover_transaction|].
  intros _. by apply IH.
Qed.

Lemma untouched_recover_coordinator : preserves I _recover_coordinator.
Proof.
  intros w Hw. pose proof (I_unfinished _ Hw) as Hnotin.
  unfold _recover_coordinator.
  unfold mbind at 1, driver_bind at 1. unfold get_self at 1.
  destruct (unfinished_txs (coord w)) as [|t tids] eqn:E.
  - by apply I_set_crashed.
  - revert Hw. generalize w. change (preserves I
      (modify (set_crashed false) ;; recover_transactions (t :: tids) ;;
       modify (set_crashed false))).
    apply preserves_bind; [by apply preserves_modify; auto|]. intros _.
    apply preserves_bind; [by apply untouched_recover_transactions|].
    intros _. by apply preserves_modify; auto.
Qed.

Lemma untouched_handle_recover : preserves I _handle_recover.
Proof.
  intros w Hw. unfold _handle_recover.
  unfold mbind, driver_bind, get_self.
  destruct (negb (crashed (coord w))); [done|].
  by apply untouched_recover_coordinator.
Qed.

Lemma untouched_cancommit_sends m plist votes votep :
  preserves I (cancommit_sends m plist votes votep).
Proof.
  revert votes votep. induction plist as [|p plist IH]; intros votes votep;
    simpl; [apply preserves_mret|].
  apply preserves_bind; [by apply preserves_send_message|]. intros r.
  destruct (fold_vote p r votes votep). apply IH.
Qed.

Lemma untouched_precommit_sends tid' m plist votep :
  tid' ≠ tid → preserves I (precommit_sends tid' m plist votep).
Proof.
  intros Hne. revert votep. induction plist as [|p plist IH]; intros votep;
    simpl; [apply preserves_mret|].
  apply preserves_bind; [by apply preserves_send_message|]. intros r.
  destruct r as [r|]; [|apply IH].
  destruct (msg_type r); try apply IH;
    (apply preserves_bind; [by apply preserves_modify_tx; auto|]);
    intros _; apply IH.
Qed.

Lemma untouched_docommit_phase tid' plist d :
  tid' ≠ tid → preserves I (docommit_phase tid' plist d).
Proof.
  intros Hne. unfold docommit_phase, docommit_tally. pres.
  destruct (Nat.ltb _ _); pres.
Qed.

Lemma untouched_abort_phase t tid' plist d :
  tid' ≠ tid → preserves I (abort_phase t tid' plist d).
Proof. intros Hne. unfold abort_phase. pres. Qed.

Lemma untouched_precommit_phase tid' plist d votep :
  tid' ≠ tid → preserves I (precommit_phase tid' plist d votep).
Proof.
  intros Hne. unfold precommit_phase, precommit_tally.
  apply preserves_bind; [by apply preserves_modify_tx; auto|]. intros _.
  apply preserves_bind; [by apply untouched_precommit_sends|]. intros vp.
  pres. destruct (crashed _); [apply preserves_return|].
  case_match;
    [by apply untouched_docommit_phase|by apply untouched_abort_phase].
Qed.

Lemma untouched_execute_transaction tid' d :
  tid' ≠ tid → preserves I (execute_transaction tid' d).
Proof.
  intros Hne. unfold execute_transaction.
  apply preserves_bind; [apply preserves_get_self|]. intros c.
  destruct (crashed c); [apply preserves_return|].
  destruct (participants c); [apply preserves_return|].
  apply preserves_bind; [by apply preserves_modify; auto|]. intros _.
  apply preserves_bind; [apply preserves_get_self|]. intros c'.
  cbv zeta.
  apply preserves_bind; [by apply preserves_modify_tx; auto|]. intros _.
  apply preserves_bind; [apply untouched_cancommit_sends|].
  intros [votes votep].
  apply preserves_bind; [by apply preserves_modify_tx; auto|]. intros _.
  apply preserves_bind; [by apply preserves_wait_votes|]. intros _.
  unfold after_cancommit_wait, cancommit_tally. pres.
  case_match;
    [by apply untouched_precommit_phase|by apply untouched_abort_phase].
Qed.

End Untouched.

(** A record that the filter of the recovery leaves out keeps its status,
    data and participants through every method but the driver of its own
    transaction. *)
Lemma skipped_record_keeps_core tid k :
  bool_decide (k.1.1 ∈ [WAITING; WAITED; PREPARING; PREPARED]) = false →
  (∀ f c, frozen tid k c → frozen tid k (_handle_participant_connection f c).1)
  ∧ (∀ c, frozen tid k c → frozen tid k (_handle_crash c))
  ∧ (∀ w, frozen tid k (coord w) → frozen tid k (coord (_handle_recover w).2))
  ∧ (∀ w tid' d, tid' ≠ tid → frozen tid k (coord w) →
       frozen tid k (coord (execute_transaction tid' d w).2)).
Proof.
  intros Hskip.
  assert (Hev : ∀ c e, frozen tid k c → frozen tid k (apply_event c e)).
  { intros c e [Hnd Hcore]. split; [by rewrite keys_event|].
    by rewrite core_event. }
  assert (Hup : ∀ tid' f c, tid' ≠ tid → frozen tid k c →
                frozen tid k (update_tx tid' f c)).
  { intros tid' f c Hne [Hnd Hcore]. split; [by rewrite keys_update_tx|].
    by rewrite core_update_tx_ne. }
  assert (Hnew : ∀ tid' tx c, tid' ≠ tid → frozen tid k c →
     frozen tid k (set_transactions (PyDict.set tid' tx (transactions c)) c)).
  { intros tid' tx c Hne [Hnd Hcore]. split; simpl.
    - by apply NoDup_keys_set.
    - unfold core_of. simpl. by rewrite get_set_ne. }
  assert (Hunf : ∀ c, frozen tid k c → tid ∉ unfinished_txs c).
  { intros c [Hnd Hcore] (tx & Hget & Hu)%unfinished_txs_spec; [|done].
    unfold core_of in Hcore. rewrite Hget in Hcore. simpl in Hcore.
    injection Hcore as <-. unfold tx_core, unfinished in *. simpl in Hskip.
    congruence. }
  split; [|split; [|split]].
  - intros f c. apply (Hev c (EvFrame f)).
  - intros c. apply (Hev c EvCrash).
  - intros w. by apply (untouched_handle_recover tid).
  - intros w tid' d Hne. by apply (untouched_execute_transaction tid).
Qed.

(** C9, with a proviso. Once a record is COMMITTED or ABORTED, its status, data
    and participant list are kept by every inbound frame (delayed votes and
    ACKs included), by the crash command, by a recovery that starts then
    and by the driver of every transaction with another id. Two things are
    not in this statement, because the code does them: delayed frames
    still write the vote and ACK dictionaries of the record, and a driver
    of the record's own transaction that is still running writes its
    status again. *)
Theorem terminal_record_keeps_core tid k :
  terminal k.1.1 = true →
  (∀ f c, frozen tid k c → frozen tid k (_handle_participant_connection f c).1)
  ∧ (∀ c, frozen tid k c → frozen tid k (_handle_crash c))
  ∧ (∀ w, frozen tid k (coord w) → frozen tid k (coord (_handle_recover w).2))
  ∧ (∀ w tid' d, tid' ≠ tid → frozen tid k (coord w) →
       frozen tid k (coord (execute_transaction tid' d w).2)).
Proof.
  intros Hterm. apply skipped_record_keeps_core.
  by destruct k as [[[] ?] ?].
Qed.

Lemma calm_refl c : calm c c.
Proof. by repeat split. Qed.

Lemma calm_trans c1 c2 c3 : calm c1 c2 → calm c2 c3 → calm c1 c3.
Proof.
  intros (Ha1&Hb1&Hc1&Hd1) (Ha2&Hb2&Hc2&Hd2).
  repeat split; try congruence.
Qed.

Lemma calm_update_tx tid f c :
  (∀ tx, tx_core (f tx) = tx_core tx) → calm c (update_tx tid f c).
Proof.
  intros Hf. split; [apply update_tx_crashed|].
  split; [by rewrite update_tx_participants|].
  split; [apply update_tx_history|].
  intros tid'. by apply core_update_tx_keep.
Qed.

Lemma calm_event K c e :
  crashed c = false → PyDict.keys (participants c) = K →
  quiet_event K e = true → calm c (apply_event c e).
Proof.
  intros Hc HK Hq. destruct e as [f|]; [|done]. simpl.
  unfold _handle_participant_connection. rewrite Hc. simpl.
  destruct f as [pid h p|pid m|pid m|pid|]; simpl in *;
    try apply calm_refl.
  - apply bool_decide_eq_true in Hq. repeat split; simpl.
    apply keys_set_present. apply get_is_Some_keys. by rewrite HK.
  - destruct (PyDict.get (transaction_id m) (transactions c));
      [|apply calm_refl].
    simpl. apply calm_update_tx. by destruct (msg_type m).
  - destruct (PyDict.get (transaction_id m) (transactions c));
      [|apply calm_refl].
    simpl. by apply calm_update_tx.
Qed.

Lemma calm_events K es c :
  crashed c = false → PyDict.keys (participants c) = K →
  forallb (quiet_event K) es = true → calm c (apply_events es c).
Proof.
  unfold apply_events. revert c.
  induction es as [|e es IH]; intros c Hc HK Hq; simpl; [apply calm_refl|].
  apply andb_true_iff in Hq as [Hq Hqs].
  pose proof (calm_event K c e Hc HK Hq) as Hcalm.
  eapply calm_trans; [done|].
  destruct Hcalm as (Hc' & HK' & _).
  apply IH; [congruence|congruence|done].
Qed.

Lemma progress_refl K w : settled K w → progress K w w [].
Proof.
  intros H. split; [apply calm_refl|]. split; [done|].
  by rewrite app_nil_r.
Qed.

Lemma progress_trans K w1 w2 w3 s1 s2 :
  progress K w1 w2 s1 → progress K w2 w3 s2 → progress K w1 w3 (s1 ++ s2).
Proof.
  intros (Hc1 & _ & Ho1 & Hn1) (Hc2 & Hs & Ho2 & Hn2).
  split; [by eapply calm_trans|]. split; [done|].
  split; [|congruence]. by rewrite Ho2, Ho1, app_assoc.
Qed.

Lemma suspend_settled K w :
  settled K w →
  ∃ t w', suspend w = (Continue t, w') ∧ progress K w w' [].
Proof.
  intros Hs. pose proof Hs as (Hc & HK & Hq). unfold suspend.
  destruct (env w) as [|t rest] eqn:E.
  - exists idle, w. split; [done|]. by apply progress_refl.
  - simpl in Hq. apply andb_true_iff in Hq as [Hqt Hqr].
    eexists _, _. split; [reflexivity|].
    pose proof (calm_events K (events t) (coord w) Hc HK Hqt) as Hcalm.
    split; [done|]. destruct Hcalm as (Hc' & HK' & _).
    split; [|by rewrite app_nil_r].
    repeat split; simpl; congruence.
Qed.

Lemma sleep_settled K w :
  settled K w → ∃ w', sleep w = (Continue tt, w') ∧ progress K w w' [].
Proof.
  intros (t & w' & Hs & Hp)%suspend_settled. exists w'. split; [|done].
  unfold sleep. by rewrite (bind_Continue _ _ _ _ _ Hs).
Qed.

Lemma send_message_settled K pid m w :
  settled K w → pid ∈ K →
  ∃ r w', _send_message pid m false w = (Continue r, w') ∧
          progress K w w' [(pid, m)].
Proof.
  intros Hs Hin. pose proof Hs as (Hc & HK & Hq).
  unfold _send_message.
  erewrite bind_Continue by reflexivity.
  assert (PyDict.mem pid (participants (coord w)) = true) as ->.
  { apply mem_true. by rewrite HK. }
  rewrite Hc. simpl.
  erewrite bind_Continue by reflexivity.
  set (w1 := {| coord := coord w; env := env w;
                outbox := outbox w ++ [(pid, m)]; now := now w |}).
  assert (Hs1 : settled K w1) by done.
  destruct (suspend_settled K w1 Hs1) as (t & w' & Hsus & Hp).
  erewrite bind_Continue by exact Hsus.
  eexists _, w'. split; [reflexivity|].
  destruct Hp as (Hcalm & Hs' & Ho & Hn).
  split; [done|]. split; [done|]. split; [|done].
  by rewrite Ho, app_nil_r.
Qed.

Lemma ack_sends_settled K cc m expect keys acks w :
  settled K w → (∀ k, k ∈ keys → k ∈ K) →
  ∃ acks' w',
    ack_sends cc m expect (length K) keys acks w = (Continue acks', w') ∧
    progress K w w' (map (λ k, (k, m)) keys).
Proof.
  revert acks w. induction keys as [|k keys IH]; intros acks w Hs Hsub.
  - pose proof Hs as (Hc & HK & Hq). simpl.
    erewrite bind_Continue by reflexivity.
    rewrite <- length_keys, HK, Nat.eqb_refl. simpl.
    eexists _, w. split; [reflexivity|]. by apply progress_refl.
  - pose proof Hs as (Hc & HK & Hq). simpl.
    erewrite bind_Continue by reflexivity.
    rewrite <- length_keys, HK, Nat.eqb_refl. simpl.
    rewrite Hc, andb_false_r.
    destruct (send_message_settled K k m w Hs) as (r & w1 & Hsend & Hp1).
    { apply Hsub. left. }
    erewrite bind_Continue by exact Hsend.
    destruct (IH (match r with
                  | Some m0 => if bool_decide (msg_type m0 = expect)
                               then <[k:=value expect]> acks else acks
                  | None => acks end) w1) as (acks' & w' & Hrun & Hp2).
    { by destruct Hp1 as (_ & ? & _). }
    { intros k' Hk'. apply Hsub. by right. }
    exists acks', w'. split; [done|].
    by apply (progress_trans K w w1 w' [(k, m)]).
Qed.

Lemma calm_get tid c c' tx :
  calm c c' → PyDict.get tid (transactions c) = Some tx →
  ∃ tx', PyDict.get tid (transactions c') = Some tx' ∧ tx_core tx' = tx_core tx.
Proof.
  intros (_ & _ & _ & Hcore) Hget. specialize (Hcore tid).
  unfold core_of in Hcore. rewrite Hget in Hcore. simpl in Hcore.
  destruct (PyDict.get tid (transactions c')) as [tx'|]; [|done].
  exists tx'. split; [done|]. simpl in Hcore. congruence.
Qed.

Lemma wait_acks_settled K ticks tid target w tx :
  settled K w → PyDict.get tid (transactions (coord w)) = Some tx →
  ∃ w', wait_acks ticks tid target w = (Continue tt, w') ∧ progress K w w' [].
Proof.
  revert w tx. induction ticks as [|ticks IH]; intros w tx Hs Hget; simpl.
  - exists w. split; [done|]. by apply progress_refl.
  - pose proof Hs as (Hc & HK & Hq).
    erewrite bind_Continue by reflexivity. rewrite Hc.
    erewrite bind_Continue by (by eapply get_tx_run).
    destruct (Nat.eqb _ _).
    + exists w. split; [done|]. by apply progress_refl.
    + destruct (sleep_settled K w Hs) as (w1 & Hsl & Hp1).
      erewrite bind_Continue by exact Hsl.
      destruct Hp1 as (Hcalm & Hs1 & Ho1 & Hn1).
      destruct (calm_get tid _ _ tx Hcalm Hget) as (tx1 & Hget1 & _).
      destruct (IH w1 tx1 Hs1 Hget1) as (w' & Hrun & Hp2).
      exists w'. split; [done|].
      by apply (progress_trans K w w1 w' [] []).
Qed.


Lemma modify_tx_settled K tid f w tx :
  settled K w → PyDict.get tid (transactions (coord w)) = Some tx →
  ∃ w', modify_tx tid f w = (Continue tt, w') ∧ settled K w' ∧
        PyDict.get tid (transactions (coord w')) = Some (f tx) ∧
        transaction_history (coord w') = transaction_history (coord w) ∧
        outbox w' = outbox w ∧ now w' = now w.
Proof.
  intros (Hc & HK & Hq) Hget. eexists. split; [by eapply modify_tx_run|].
  simpl. split.
  { repeat split; simpl; [by rewrite update_tx_crashed
                         |by rewrite update_tx_participants|done]. }
  split; [by apply get_update_tx_eq|].
  split; [apply update_tx_history|done].
Qed.

Lemma progress_get K tid w w' sent tx :
  progress K w w' sent → PyDict.get tid (transactions (coord w)) = Some tx →
  ∃ tx', PyDict.get tid (transactions (coord w')) = Some tx' ∧
         tx_core tx' = tx_core tx.
Proof. intros (Hcalm & _) Hget. by eapply calm_get. Qed.

Lemma settled_length K w : settled K w → length (participants (coord w)) = length K.
Proof. intros (_ & HK & _). by rewrite <- length_keys, HK. Qed.

(** The abort branch of the driver, when nothing disturbs it. *)
Lemma abort_phase_settled K t tid plist d w tx :
  settled K w → PyDict.get tid (transactions (coord w)) = Some tx →
  ∃ w' tx',
    abort_phase t tid plist d w = (Return (Some false), w') ∧
    outbox w' = outbox w ++ map (λ k, (k, message t tid d)) K ∧
    transaction_history (coord w') =
      transaction_history (coord w) ++
      [{| h_transaction_id := tid; h_status := ABORTED; h_data := d;
          h_timestamp := now w |}] ∧
    PyDict.get tid (transactions (coord w')) = Some tx' ∧
    tx_core tx' = (ABORTED, tx_data tx, tx_participants tx).
Proof.
  intros Hs Hget. unfold abort_phase.
  destruct (modify_tx_settled K tid (with_status ABORTING) w tx Hs Hget)
    as (w1 & Hrun1 & Hs1 & Hget1 & Hh1 & Ho1 & Hn1).
  erewrite bind_Continue by exact Hrun1.
  erewrite bind_Continue by reflexivity.
  rewrite (settled_length K w1 Hs1).
  replace (PyDict.keys (participants (coord w1))) with K
    by (by destruct Hs1 as (_ & -> & _)).
  destruct (ack_sends_settled K true (message t tid d) ACK_ABORT K ∅ w1 Hs1)
    as (acks & w2 & Hrun2 & Hp2); [done|].
  erewrite bind_Continue by exact Hrun2.
  destruct (progress_get K tid w1 w2 _ _ Hp2 Hget1) as (tx2 & Hget2 & Hcore2).
  destruct Hp2 as ((_ & _ & Hh2 & _) & Hs2 & Ho2 & Hn2).
  destruct (modify_tx_settled K tid (with_acks (λ _, acks)) w2 tx2 Hs2 Hget2)
    as (w3 & Hrun3 & Hs3 & Hget3 & Hh3 & Ho3 & Hn3).
  erewrite bind_Continue by exact Hrun3.
  destruct (wait_acks_settled K 60 tid (λ _, length plist) w3 _ Hs3 Hget3)
    as (w4 & Hrun4 & Hp4).
  erewrite bind_Continue by exact Hrun4.
  destruct (progress_get K tid w3 w4 _ _ Hp4 Hget3) as (tx4 & Hget4 & Hcore4).
  destruct Hp4 as ((_ & _ & Hh4 & _) & Hs4 & Ho4 & Hn4).
  destruct (modify_tx_settled K tid
              (with_acks (fill_missing "TIMEOUT" plist)) w4 tx4 Hs4 Hget4)
    as (w5 & Hrun5 & Hs5 & Hget5 & Hh5 & Ho5 & Hn5).
  erewrite bind_Continue by exact Hrun5.
  destruct (modify_tx_settled K tid (with_status ABORTED) w5 _ Hs5 Hget5)
    as (w6 & Hrun6 & Hs6 & Hget6 & Hh6 & Ho6 & Hn6).
  erewrite bind_Continue by exact Hrun6.
  erewrite bind_Continue by apply append_history_run.
  eexists _, _. split; [reflexivity|]. simpl.
  split. { rewrite Ho6, Ho5, Ho4, Ho3, Ho2, Ho1. by rewrite app_nil_r. }
  split. { rewrite Hh6, Hh5, Hh4, Hh3, Hh2, Hh1. do 3 f_equal. congruence. }
  split; [exact Hget6|].
  unfold tx_core in *. simpl in *. congruence.
Qed.

(** [_complete_abort] in a recovery that nothing disturbs. *)
Lemma complete_abort_settled K tid w tx :
  settled K w → PyDict.get tid (transactions (coord w)) = Some tx →
  ∃ w' tx',
    _complete_abort tid w = (Return (Some false), w') ∧
    outbox w' = outbox w ++ map (λ k, (k, message ABORT tid (tx_data tx))) K ∧
    transaction_history (coord w') =
      transaction_history (coord w) ++
      [{| h_transaction_id := tid; h_status := ABORTED;
          h_data := tx_data tx; h_timestamp := now w |}] ∧
    PyDict.get tid (transactions (coord w')) = Some tx' ∧
    tx_core tx' = (ABORTED, tx_data tx, tx_participants tx).
Proof.
  intros Hs Hget. unfold _complete_abort.
  erewrite bind_Continue by (by eapply get_tx_run).
  destruct (modify_tx_settled K tid (with_status ABORTING) w tx Hs Hget)
    as (w1 & Hrun1 & Hs1 & Hget1 & Hh1 & Ho1 & Hn1).
  erewrite bind_Continue by exact Hrun1.
  erewrite bind_Continue by reflexivity.
  rewrite (settled_length K w1 Hs1).
  replace (PyDict.keys (participants (coord w1))) with K
    by (by destruct Hs1 as (_ & -> & _)).
  destruct (ack_sends_settled K false (message ABORT tid (tx_data tx))
              ACK_ABORT K ∅ w1 Hs1)
    as (acks & w2 & Hrun2 & Hp2); [done|].
  erewrite bind_Continue by exact Hrun2.
  destruct (progress_get K tid w1 w2 _ _ Hp2 Hget1) as (tx2 & Hget2 & Hcore2).
  destruct Hp2 as ((_ & _ & Hh2 & _) & Hs2 & Ho2 & Hn2).
  destruct (modify_tx_settled K tid (with_acks (λ _, acks)) w2 tx2 Hs2 Hget2)
    as (w3 & Hrun3 & Hs3 & Hget3 & Hh3 & Ho3 & Hn3).
  erewrite bind_Continue by exact Hrun3.
  destruct (wait_acks_settled K 60 tid (λ c, length (participants c)) w3 _
              Hs3 Hget3) as (w4 & Hrun4 & Hp4).
  erewrite bind_Continue by exact Hrun4.
  destruct (progress_get K tid w3 w4 _ _ Hp4 Hget3) as (tx4 & Hget4 & Hcore4).
  destruct Hp4 as ((_ & _ & Hh4 & _) & Hs4 & Ho4 & Hn4).
  erewrite bind_Continue by reflexivity.
  destruct (modify_tx_settled K tid
              (with_acks (fill_missing "TIMEOUT"
                            (PyDict.keys (participants (coord w4)))))
              w4 tx4 Hs4 Hget4)
    as (w5 & Hrun5 & Hs5 & Hget5 & Hh5 & Ho5 & Hn5).
  erewrite bind_Continue by exact Hrun5.
  destruct (modify_tx_settled K tid (with_status ABORTED) w5 _ Hs5 Hget5)
    as (w6 & Hrun6 & Hs6 & Hget6 & Hh6 & Ho6 & Hn6).
  erewrite bind_Continue by exact Hrun6.
  erewrite bind_Continue by (by eapply get_tx_run).
  erewrite bind_Continue by apply append_history_run.
  eexists _, _. split; [reflexivity|]. simpl.
  split. { rewrite Ho6, Ho5, Ho4, Ho3, Ho2, Ho1. by rewrite app_nil_r. }
  split.
  { rewrite Hh6, Hh5, Hh4, Hh3, Hh2, Hh1. do 2 f_equal.
    unfold tx_core in *. simpl in *. f_equal; congruence. }
  split; [exact Hget6|].
  unfold tx_core in *. simpl in *. congruence.
Qed.


(** When no vote is recorded for a stranger, the size test of the
    recovery is the coverage of the snapshot. *)
Lemma size_covers {V} (m : gmap string V) plist :
  NoDup plist → (∀ p, p ∈ dom m → p ∈ plist) →
  size m = length plist ↔ ∀ p, p ∈ plist → is_Some (m !! p).
Proof.
  intros Hnd Hsub.
  assert (Hsubset : dom m ⊆ (list_to_set plist : gset string)).
  { intros p Hp. apply elem_of_list_to_set. auto. }
  split.
  - intros Hsize p Hp. apply elem_of_dom.
    assert (dom m = list_to_set plist) as ->.
    { apply set_subseteq_size_eq; [done|].
      rewrite size_dom, Hsize, size_list_to_set by done. lia. }
    by apply elem_of_list_to_set.
  - intros Hcov. apply size_covering; [done|].
    apply set_eq. intros p. rewrite elem_of_list_to_set. split; [auto|].
    intros Hp. by apply elem_of_dom, Hcov.
Qed.

(** C6, with a proviso. After the CanCommit wait every snapshot participant
    without a recorded vote is recorded as NO, and when the resulting votes
    are not all yes the driver goes to the abort branch. Provided that the
    registry is still the snapshot [plist] (no participant has registered
    since the transaction started) and that, from there on, the
    coordinator is not crashed and no new participant registers, it sends
    CANCOMMIT_ABORT to every participant of the snapshot in the order of
    the snapshot, appends exactly one ABORTED history entry, sets the
    status to ABORTED and returns false. *)
Theorem cancommit_not_all_yes_aborts tid plist d votep w tx :
  PyDict.get tid (transactions (coord w)) = Some tx →
  crashed (coord w) = false →
  PyDict.keys (participants (coord w)) = plist →
  quiet plist (env w) = true →
  let votes := fill_missing false plist (tx_votes tx) in
  all_values votes = false →
  (∀ p, p ∈ plist → tx_votes tx !! p = None → votes !! p = Some false) ∧
  (∃ w1, cancommit_tally tid plist w = (Continue false, w1) ∧
         PyDict.get tid (transactions (coord w1)) =
           Some (with_status WAITED (with_votes (λ _, votes) tx))) ∧
  ∃ w' tx',
    after_cancommit_wait tid plist d votep w = (Return (Some false), w') ∧
    outbox w' =
      outbox w ++ map (λ k, (k, message CANCOMMIT_ABORT tid d)) plist ∧
    transaction_history (coord w') =
      transaction_history (coord w) ++
      [{| h_transaction_id := tid; h_status := ABORTED; h_data := d;
          h_timestamp := now w |}] ∧
    PyDict.get tid (transactions (coord w')) = Some tx' ∧
    tx_status tx' = ABORTED.
Proof.
  intros Hget Hc HK Hq votes Hno.
  assert (Hs : settled plist w) by done.
  split.
  { intros p Hp Hnone. unfold votes. rewrite fill_missing_lookup, Hnone.
    by rewrite decide_True. }
  destruct (modify_tx_settled plist tid (with_votes (fill_missing false plist))
              w tx Hs Hget)
    as (w1 & Hrun1 & Hs1 & Hget1 & Hh1 & Ho1 & Hn1).
  destruct (modify_tx_settled plist tid (with_status WAITED) w1 _ Hs1 Hget1)
    as (w2 & Hrun2 & Hs2 & Hget2 & Hh2 & Ho2 & Hn2).
  assert (Htally : cancommit_tally tid plist w = (Continue false, w2)).
  { unfold cancommit_tally.
    erewrite bind_Continue by exact Hrun1.
    erewrite bind_Continue by (by eapply get_tx_run).
    cbv zeta. erewrite bind_Continue by exact Hrun2.
    simpl. fold votes. by rewrite Hno. }
  split; [by exists w2|].
  destruct (abort_phase_settled plist CANCOMMIT_ABORT tid plist d w2 _ Hs2 Hget2)
    as (w' & tx' & Hrun & Ho & Hh & Hget' & Hcore).
  exists w', tx'. unfold after_cancommit_wait.
  erewrite bind_Continue by exact Htally.
  split; [done|]. split; [congruence|]. split; [congruence|].
  split; [done|]. unfold tx_core in Hcore. congruence.
Qed.

(** C5, with a proviso. For a transaction that the recovery finds PREPARING or
    PREPARED, and whose CanCommit votes name snapshot participants only:
    the recovery runs [_complete_commit] if the votes cover the snapshot and
    are all yes, and [_complete_abort] otherwise; [_complete_abort], when no
    new participant registers meanwhile, appends an ABORTED history entry
    and sets the status to ABORTED. *)
Theorem recovery_of_prepared tid states w tx :
  PyDict.get tid (transactions (coord w)) = Some tx →
  tx_status tx = PREPARING ∨ tx_status tx = PREPARED →
  NoDup (tx_participants tx) →
  (∀ p, p ∈ dom (tx_votes tx) → p ∈ tx_participants tx) →
  crashed (coord w) = false →
  quiet (PyDict.keys (participants (coord w))) (env w) = true →
  let covered := ∀ p, p ∈ tx_participants tx → is_Some (tx_votes tx !! p) in
  let all_yes := ∀ p b, tx_votes tx !! p = Some b → b = true in
  (covered ∧ all_yes →
     recovery_decision tid states w = call (_complete_commit tid) w) ∧
  (¬ (covered ∧ all_yes) →
     recovery_decision tid states w = call (_complete_abort tid) w ∧
     ∃ w' tx',
       call (_complete_abort tid) w = (Continue tt, w') ∧
       transaction_history (coord w') =
         transaction_history (coord w) ++
         [{| h_transaction_id := tid; h_status := ABORTED;
             h_data := tx_data tx; h_timestamp := now w |}] ∧
       PyDict.get tid (transactions (coord w')) = Some tx' ∧
       tx_status tx' = ABORTED).
Proof.
  intros Hget Hst Hnd Hsub Hc Hq covered all_yes. unfold covered, all_yes.
  pose proof (size_covers (tx_votes tx) (tx_participants tx) Hnd Hsub) as Hsz.
  pose proof (all_values_spec (tx_votes tx)) as Hall.
  assert (Hdec : recovery_decision tid states w =
    (if Nat.eqb (size (tx_votes tx)) (length (tx_participants tx))
        && all_values (tx_votes tx)
     then call (_complete_commit tid) else call (_complete_abort tid)) w).
  { unfold recovery_decision. cbv zeta.
    erewrite bind_Continue by (by eapply get_tx_run).
    by destruct Hst as [-> | ->]. }
  split.
  - intros [Hcov Hyes]. rewrite Hdec.
    apply Hsz in Hcov. apply Hall in Hyes.
    by rewrite Hcov, Nat.eqb_refl, Hyes.
  - intros Hnot. rewrite Hdec.
    destruct (Nat.eqb_spec (size (tx_votes tx)) (length (tx_participants tx)))
      as [Heq|Hne]; simpl.
    + destruct (all_values (tx_votes tx)) eqn:Hv.
      * exfalso. apply Hnot. split; [by apply Hsz|by apply Hall].
      * split; [done|]. clear Hdec.
        destruct (complete_abort_settled
                    (PyDict.keys (participants (coord w))) tid w tx)
          as (w' & tx' & Hrun & _ & Hh & Hget' & Hcore); [done|done|].
        exists w', tx'. unfold call. rewrite Hrun.
        split; [done|]. split; [done|]. split; [done|].
        unfold tx_core in Hcore. congruence.
    + split; [done|]. clear Hdec.
      destruct (complete_abort_settled
                  (PyDict.keys (participants (coord w))) tid w tx)
        as (w' & tx' & Hrun & _ & Hh & Hget' & Hcore); [done|done|].
      exists w', tx'. unfold call. rewrite Hrun.
      split; [done|]. split; [done|]. split; [done|].
      unfold tx_core in Hcore. congruence.
Qed.

(** The CanCommit loop goes through the snapshot: when nothing disturbs
    it, CANCOMMIT is sent to the participants of the list it is given, in
    the order of the list. *)
Lemma cancommit_sends_settled K m plist votes votep w :
  settled K w → (∀ p, p ∈ plist → p ∈ K) →
  ∃ r w', cancommit_sends m plist votes votep w = (Continue r, w') ∧
          progress K w w' (map (λ p, (p, m)) plist).
Proof.
  revert votes votep w.
  induction plist as [|p plist IH]; intros votes votep w Hs Hsub; simpl.
  - eexists _, w. split; [reflexivity|]. by apply progress_refl.
  - destruct (send_message_settled K p m w Hs) as (r & w1 & Hsend & Hp1).
    { apply Hsub. left. }
    erewrite bind_Continue by exact Hsend.
    destruct (fold_vote p r votes votep) as [votes' votep'].
    destruct (IH votes' votep' w1) as (r' & w' & Hrun & Hp2).
    { by destruct Hp1 as (_ & ? & _). }
    { intros q Hq. apply Hsub. by right. }
    exists r', w'. split; [done|].
    by apply (progress_trans K w w1 w' [(p, m)]).
Qed.

(** The registry stays a well-formed dictionary, so a snapshot of its keys
    has no duplicates. *)
Lemma registry_keys_NoDup f c :
  NoDup (PyDict.keys (participants c)) →
  NoDup (PyDict.keys (participants (_handle_participant_connection f c).1)).
Proof.
  intros Hnd. unfold _handle_participant_connection.
  destruct (crashed c && refused_when_crashed f); [done|].
  destruct f as [pid h p|pid m|pid m|pid|]; simpl; try done.
  - by apply NoDup_keys_set.
  - destruct (PyDict.get (transaction_id m) (transactions c)); [|done].
    simpl. by rewrite update_tx_participants.
  - destruct (PyDict.get (transaction_id m) (transactions c)); [|done].
    simpl. by rewrite update_tx_participants.
Qed.

(** A delayed ACK or vote is written into the record it names, whatever the
    status of the record. *)
Lemma late_frame_is_recorded c tid tx pid t d :
  crashed c = false →
  PyDict.get tid (transactions c) = Some tx →
  let m := {| msg_type := t; transaction_id := tid; data := d |} in
  PyDict.get tid
    (transactions (_handle_participant_connection (ACK_RESPONSE pid m) c).1)
    = Some (with_acks (insert pid (value t)) tx) ∧
  (t = CANCOMMIT_VOTE_NO →
   PyDict.get tid
     (transactions (_handle_participant_connection (VOTE_RESPONSE pid m) c).1)
     = Some (with_votes (insert pid false) tx)).
Proof.
  intros Hc Hget m. unfold _handle_participant_connection. rewrite Hc.
  simpl. rewrite Hget. simpl. split.
  - by apply get_update_tx_eq.
  - intros ->. by apply get_update_tx_eq.
Qed.

(** ** The concrete situations *)
Import Scenario.


(** C1 as it is written fails: P2 never acknowledged and is recorded as
    TIMEOUT, yet the two ACK_COMMIT entries, one of them under an id that is
    not in the snapshot, make the driver commit. *)
Lemma docommit_counts_foreign_ack :
  let r := docommit_tally "t1" ["P1"; "P2"] kv committing_foreign_ack in
  r.1 = Return (Some true) ∧
  transaction_history (coord r.2) = [entry COMMITTED] ∧
  (tx_status <$> PyDict.get "t1" (transactions (coord r.2))) = Some COMMITTED ∧
  ((λ tx, tx_acks tx !! "P2") <$> PyDict.get "t1" (transactions (coord r.2)))
    = Some (Some "TIMEOUT").
Proof. vm_compute. done. Qed.

(** The same outcome at the end of a whole run of the driver. *)
Example foreign_ack_run_commits :
  let r := execute_transaction "t1" kv foreign_ack_run in
  r.1 = Return (Some true) ∧
  transaction_history (coord r.2) = [entry COMMITTED] ∧
  ((λ tx, (tx_participants tx, tx_acks tx !! "P2"))
     <$> PyDict.get "t1" (transactions (coord r.2)))
    = Some (["P1"; "P2"], Some "TIMEOUT").
Proof. vm_compute. done. Qed.

Lemma docommit_tally_snapshot_witness :
  PyDict.get "t1" (transactions (coord committing_one_ack))
    = Some one_ack_record ∧
  NoDup ["P1"; "P2"] ∧
  (∀ p, p ∈ dom (tx_acks one_ack_record) → p ∈ ["P1"; "P2"]) ∧
  let filled := fill_missing "TIMEOUT" ["P1"; "P2"] (tx_acks one_ack_record) in
  ∃ (b : bool) w',
    docommit_tally "t1" ["P1"; "P2"] kv committing_one_ack
      = (Return (Some b), w') ∧
    (b = true ↔ ∀ p, p ∈ ["P1"; "P2"] → filled !! p = Some "ACK_COMMIT") ∧
    PyDict.get "t1" (transactions (coord w')) =
      Some (with_status (if b then COMMITTED else ABORTED)
              (with_acks (λ _, filled) one_ack_record)) ∧
    transaction_history (coord w') =
      transaction_history (coord committing_one_ack) ++
      [{| h_transaction_id := "t1";
          h_status := if b then COMMITTED else ABORTED;
          h_data := kv; h_timestamp := now committing_one_ack |}] ∧
    outbox w' = outbox committing_one_ack.
Proof.
  assert (H1 : PyDict.get "t1" (transactions (coord committing_one_ack))
               = Some one_ack_record) by reflexivity.
  assert (H2 : NoDup ["P1"; "P2"])
    by (apply (bool_decide_unpack _); vm_compute; exact I).
  assert (H3 : ∀ p, p ∈ dom (tx_acks one_ack_record) → p ∈ ["P1"; "P2"]).
  { intros p Hp. cbn in Hp. rewrite dom_singleton in Hp.
    apply elem_of_singleton in Hp as ->. left. }
  split; [exact H1|]. split; [exact H2|]. split; [exact H3|].
  exact (docommit_tally_snapshot "t1" ["P1"; "P2"] kv committing_one_ack
           one_ack_record H1 H2 H3).
Defined.

(** The filter of the recovery leaves out the statuses COMMITTING and
    ABORTING, whatever else is in the table. *)
Lemma unfinished_leaves_out_last_phase tx :
  tx_status tx = COMMITTING ∨ tx_status tx = ABORTING → unfinished tx = false.
Proof. unfold unfinished. by intros [-> | ->]. Qed.

(** Whatever happens during the recovery, a transaction that was COMMITTING
    or ABORTING when it started is in the same status when it ends. *)
Lemma recovery_never_finishes_last_phase tid st d pl w :
  st = COMMITTING ∨ st = ABORTING →
  frozen tid (st, d, pl) (coord w) →
  frozen tid (st, d, pl) (coord (_handle_recover w).2).
Proof.
  intros Hst. apply (skipped_record_keeps_core tid (st, d, pl)).
  by destruct Hst as [-> | ->].
Qed.

(** C2. The operator types [crash] while COMMIT is being sent: the driver
    returns false and leaves t1 COMMITTING. The recover command then finds
    no unfinished transaction: it attempts no exchange, leaves t1 COMMITTING
    and appends nothing to the history. *)
Theorem recovery_skips_last_phase :
  let r := execute_transaction "t1" kv crash_while_committing in
  let r' := _handle_recover r.2 in
  r.1 = Return (Some false) ∧
  crashed (coord r.2) = true ∧
  (tx_status <$> PyDict.get "t1" (transactions (coord r.2)))
    = Some COMMITTING ∧
  r'.1 = Return None ∧
  crashed (coord r'.2) = false ∧
  (tx_status <$> PyDict.get "t1" (transactions (coord r'.2)))
    = Some COMMITTING ∧
  transaction_history (coord r'.2) = [] ∧
  outbox r'.2 = outbox r.2.
Proof. vm_compute. done. Qed.

(** The same for a table that holds both statuses. *)
Example recovery_skips_both_statuses :
  let r := _handle_recover crashed_in_last_phase in
  r.1 = Return None ∧
  map (λ kv, (kv.1, tx_status kv.2)) (transactions (coord r.2))
    = [("t1", COMMITTING); ("t2", ABORTING)] ∧
  transaction_history (coord r.2) = [] ∧
  outbox r.2 = [] ∧
  crashed (coord r.2) = false.
Proof. vm_compute. done. Qed.

(** C4. P2 registers after the snapshot of t1 was taken and before the
    abort branch: the snapshot is P1 alone, CANCOMMIT goes to P1 alone, and
    CANCOMMIT_ABORT goes to P1 and to P2. *)
Theorem abort_sent_to_late_registrant :
  let r := execute_transaction "t1" kv late_registration in
  r.1 = Return (Some false) ∧
  (tx_participants <$> PyDict.get "t1" (transactions (coord r.2)))
    = Some ["P1"] ∧
  map (λ x, (x.1, msg_type x.2)) (outbox r.2)
    = [("P1", CANCOMMIT); ("P1", CANCOMMIT_ABORT); ("P2", CANCOMMIT_ABORT)].
Proof. vm_compute. done. Qed.

(** C5 as it is written fails: the votes cover the snapshot and are all
    yes, but a vote under an id outside the snapshot makes the sizes differ,
    and the recovery aborts. *)
Lemma recovery_aborts_on_foreign_vote :
  (∀ p, p ∈ tx_participants foreign_vote_record →
        is_Some (tx_votes foreign_vote_record !! p)) ∧
  (∀ p b, tx_votes foreign_vote_record !! p = Some b → b = true) ∧
  recovery_decision "t1" ∅ prepared_foreign_vote
    = call (_complete_abort "t1") prepared_foreign_vote ∧
  let r := recovery_decision "t1" ∅ prepared_foreign_vote in
  map (λ x, (x.1, msg_type x.2)) (outbox r.2) = [("P1", ABORT)] ∧
  transaction_history (coord r.2) = [entry ABORTED].
Proof.
  split.
  { intros p Hp. apply list_elem_of_singleton in Hp as ->. by eexists. }
  split.
  { apply all_values_spec. vm_compute. done. }
  vm_compute. done.
Qed.

(** The same at the end of the whole recover command. *)
Example recover_foreign_vote_aborts :
  let r := _handle_recover recover_foreign_vote in
  map (λ x, (x.1, msg_type x.2)) (outbox r.2)
    = [("P1", QUERY_STATE); ("P1", ABORT)] ∧
  transaction_history (coord r.2) = [entry ABORTED] ∧
  (tx_status <$> PyDict.get "t1" (transactions (coord r.2))) = Some ABORTED.
Proof. vm_compute. done. Qed.

Lemma recovery_of_prepared_witness :
  PyDict.get "t1" (transactions (coord prepared_voted_no))
    = Some voted_no_record ∧
  (tx_status voted_no_record = PREPARING ∨ tx_status voted_no_record = PREPARED) ∧
  NoDup (tx_participants voted_no_record) ∧
  (∀ p, p ∈ dom (tx_votes voted_no_record) →
        p ∈ tx_participants voted_no_record) ∧
  crashed (coord prepared_voted_no) = false ∧
  quiet (PyDict.keys (participants (coord prepared_voted_no)))
        (env prepared_voted_no) = true ∧
  let covered := ∀ p, p ∈ tx_participants voted_no_record →
                      is_Some (tx_votes voted_no_record !! p) in
  let all_yes := ∀ p b, tx_votes voted_no_record !! p = Some b → b = true in
  (covered ∧ all_yes →
     recovery_decision "t1" ∅ prepared_voted_no
       = call (_complete_commit "t1") prepared_voted_no) ∧
  (¬ (covered ∧ all_yes) →
     recovery_decision "t1" ∅ prepared_voted_no
       = call (_complete_abort "t1") prepared_voted_no ∧
     ∃ w' tx',
       call (_complete_abort "t1") prepared_voted_no = (Continue tt, w') ∧
       transaction_history (coord w') =
         transaction_history (coord prepared_voted_no) ++
         [{| h_transaction_id := "t1"; h_status := ABORTED;
             h_data := tx_data voted_no_record;
             h_timestamp := now prepared_voted_no |}] ∧
       PyDict.get "t1" (transactions (coord w')) = Some tx' ∧
       tx_status tx' = ABORTED).
Proof.
  assert (H1 : PyDict.get "t1" (transactions (coord prepared_voted_no))
               = Some voted_no_record) by reflexivity.
  assert (H2 : tx_status voted_no_record = PREPARING
               ∨ tx_status voted_no_record = PREPARED)
    by (right; reflexivity).
  assert (H3 : NoDup (tx_participants voted_no_record))
    by (apply (bool_decide_unpack _); vm_compute; exact I).
  assert (H4 : ∀ p, p ∈ dom (tx_votes voted_no_record) →
                    p ∈ tx_participants voted_no_record).
  { intros p Hp. cbn in Hp. rewrite dom_singleton in Hp.
    apply elem_of_singleton in Hp as ->. left. }
  assert (H5 : crashed (coord prepared_voted_no) = false) by reflexivity.
  assert (H6 : quiet (PyDict.keys (participants (coord prepared_voted_no)))
                 (env prepared_voted_no) = true) by reflexivity.
  split; [exact H1|]. split; [exact H2|]. split; [exact H3|].
  split; [exact H4|]. split; [exact H5|]. split; [exact H6|].
  exact (recovery_of_prepared "t1" ∅ prepared_voted_no voted_no_record
           H1 H2 H3 H4 H5 H6).
Defined.

(** C6 as it is written fails: the crash command arrives during the first
    exchange of the abort branch; the driver returns false with the status
    left at ABORTING and no history entry. *)
Lemma crash_interrupts_abort_branch :
  all_values (fill_missing false ["P1"; "P2"] (tx_votes split_vote_record))
    = false ∧
  let r := after_cancommit_wait "t1" ["P1"; "P2"] kv ∅ crash_in_abort_branch in
  r.1 = Return (Some false) ∧
  transaction_history (coord r.2) = [] ∧
  (tx_status <$> PyDict.get "t1" (transactions (coord r.2))) = Some ABORTING ∧
  map (λ x, (x.1, msg_type x.2)) (outbox r.2) = [("P1", CANCOMMIT_ABORT)].
Proof. vm_compute. done. Qed.

(** The same at the end of a whole run of the driver. *)
Example crash_in_abort_run_leaves_aborting :
  let r := execute_transaction "t1" kv crash_in_abort_run in
  r.1 = Return (Some false) ∧
  transaction_history (coord r.2) = [] ∧
  (tx_status <$> PyDict.get "t1" (transactions (coord r.2))) = Some ABORTING.
Proof. vm_compute. done. Qed.

Lemma cancommit_not_all_yes_aborts_witness :
  PyDict.get "t1" (transactions (coord quiet_abort_branch))
    = Some missing_vote_record ∧
  crashed (coord quiet_abort_branch) = false ∧
  PyDict.keys (participants (coord quiet_abort_branch)) = ["P1"; "P2"] ∧
  quiet ["P1"; "P2"] (env quiet_abort_branch) = true ∧
  let votes := fill_missing false ["P1"; "P2"] (tx_votes missing_vote_record) in
  all_values votes = false ∧
  (∀ p, p ∈ ["P1"; "P2"] → tx_votes missing_vote_record !! p = None →
        votes !! p = Some false) ∧
  (∃ w1, cancommit_tally "t1" ["P1"; "P2"] quiet_abort_branch
           = (Continue false, w1) ∧
         PyDict.get "t1" (transactions (coord w1)) =
           Some (with_status WAITED
                   (with_votes (λ _, votes) missing_vote_record))) ∧
  ∃ w' tx',
    after_cancommit_wait "t1" ["P1"; "P2"] kv ∅ quiet_abort_branch
      = (Return (Some false), w') ∧
    outbox w' =
      outbox quiet_abort_branch ++
      map (λ k, (k, message CANCOMMIT_ABORT "t1" kv)) ["P1"; "P2"] ∧
    transaction_history (coord w') =
      transaction_history (coord quiet_abort_branch) ++
      [{| h_transaction_id := "t1"; h_status := ABORTED; h_data := kv;
          h_timestamp := now quiet_abort_branch |}] ∧
    PyDict.get "t1" (transactions (coord w')) = Some tx' ∧
    tx_status tx' = ABORTED.
Proof.
  assert (H1 : PyDict.get "t1" (transactions (coord quiet_abort_branch))
               = Some missing_vote_record) by reflexivity.
  assert (H2 : crashed (coord quiet_abort_branch) = false) by reflexivity.
  assert (HK : PyDict.keys (participants (coord quiet_abort_branch))
               = ["P1"; "P2"]) by reflexivity.
  assert (H3 : quiet ["P1"; "P2"] (env quiet_abort_branch) = true)
    by (vm_compute; reflexivity).
  assert (H4 : all_values (fill_missing false ["P1"; "P2"]
                             (tx_votes missing_vote_record)) = false)
    by (vm_compute; reflexivity).
  split; [exact H1|]. split; [exact H2|]. split; [exact HK|].
  split; [exact H3|].
  intros votes. split; [exact H4|].
  exact (cancommit_not_all_yes_aborts "t1" ["P1"; "P2"] kv ∅
           quiet_abort_branch missing_vote_record H1 H2 HK H3 H4).
Defined.


Lemma execute_transaction_no_participants_witness :
  participants (coord empty_registry) = [] ∧
  execute_transaction "t1" kv empty_registry
    = (Return (Some false), empty_registry).
Proof.
  split; [reflexivity|].
  apply (execute_transaction_no_participants "t1" kv empty_registry).
  reflexivity.
Defined.

(** C9 as it is written fails, in two ways. An ACK that arrives after the
    record became ABORTED is written into its ACK dictionary. And the
    driver of a transaction goes on with a record that the recovery has
    made ABORTED: the driver of t1 is asleep in the first round of its
    CanCommit wait when the operator types [crash] and then [recover]; the
    recovery sets t1 to ABORTED and appends its history entry; the driver
    wakes up, finds the coordinator up, and after its wait it sends
    CANCOMMIT_ABORT and appends a second ABORTED entry for t1; if the
    operator types [crash] again during that exchange, it leaves the
    record ABORTING. *)
Theorem terminal_record_is_rewritten :
  let status w := tx_status <$> PyDict.get "t1" (transactions (coord w)) in
  let history w := transaction_history (coord w) in
  (* a late ACK *)
  ((tx_status <$> PyDict.get "t1" (transactions aborted_record))
     = Some ABORTED ∧
   let c' := (_handle_participant_connection
                (ACK_RESPONSE "P1" (about_t1 ACK_ABORT)) aborted_record).1 in
   ((λ tx, tx_acks tx !! "P1") <$>
      PyDict.get "t1" (transactions aborted_record))
     = Some (Some "TIMEOUT") ∧
   ((λ tx, tx_acks tx !! "P1") <$> PyDict.get "t1" (transactions c'))
     = Some (Some "ACK_ABORT")) ∧
  (* the driver of t1 goes to sleep, and goes on from where it wakes up *)
  (∀ t E,
     execute_transaction "t1" kv
       (world (coordinator one_participant [] false) (idle :: t :: E)) =
     Overlap.resumed (Overlap.woken t E)) ∧
  (* the crash and the recovery meanwhile *)
  crashed (coord (Overlap.crash_and_recover [])) = false ∧
  status (Overlap.crash_and_recover []) = Some ABORTED ∧
  history (Overlap.crash_and_recover []) = [entry ABORTED] ∧
  (* the driver wakes up after them *)
  (Overlap.resumed (Overlap.crash_and_recover [])).1 = Return (Some false) ∧
  history (Overlap.resumed (Overlap.crash_and_recover [])).2 =
    [entry ABORTED; entry ABORTED] ∧
  env (Overlap.crash_and_recover Overlap.second_crash) =
    Overlap.second_crash ∧
  status
    (Overlap.resumed (Overlap.crash_and_recover Overlap.second_crash)).2 =
    Some ABORTING.
Proof.
  intros status history. split; [by vm_compute|].
  split; [reflexivity|].
  vm_compute. done.
Qed.

Lemma terminal_record_keeps_core_witness :
  terminal (ABORTED, kv, ["P1"]).1.1 = true ∧
  frozen "t1" (ABORTED, kv, ["P1"]) aborted_record ∧
  (∀ f c, frozen "t1" (ABORTED, kv, ["P1"]) c →
          frozen "t1" (ABORTED, kv, ["P1"])
            (_handle_participant_connection f c).1)
  ∧ (∀ c, frozen "t1" (ABORTED, kv, ["P1"]) c →
          frozen "t1" (ABORTED, kv, ["P1"]) (_handle_crash c))
  ∧ (∀ w, frozen "t1" (ABORTED, kv, ["P1"]) (coord w) →
          frozen "t1" (ABORTED, kv, ["P1"]) (coord (_handle_recover w).2))
  ∧ (∀ w tid' d, tid' ≠ "t1" → frozen "t1" (ABORTED, kv, ["P1"]) (coord w) →
       frozen "t1" (ABORTED, kv, ["P1"])
         (coord (execute_transaction tid' d w).2)).
Proof.
  split; [reflexivity|].
  split.
  { split; [|reflexivity].
    apply (bool_decide_unpack _). vm_compute. exact I. }
  apply (terminal_record_keeps_core "t1" (ABORTED, kv, ["P1"])).
  reflexivity.
Defined.

End CoordinatorProofs.

Module ParticipantProofs.
Import Participant.

(** C7, with a proviso. A participant that is not crashed and receives COMMIT
    for a transaction that is not in its prepared set changes nothing in its
    state and arms no timeout; it answers ACK_ABORT at once, unless the
    simulated failure of the message entry fires, in which case it answers
    nothing. *)
Theorem commit_for_unprepared p m draw1 draw2 :
  crashed p = false →
  msg_type m = COMMIT →
  transaction_id m ∉ prepared_transactions p →
  _handle_request m draw1 draw2 p =
    (p, if simulated_failure p draw1 then []
        else [Respond (bare ACK_ABORT (transaction_id m))]).
Proof.
  intros Hc Hm Hnot. unfold _handle_request, _process_message. rewrite Hc, Hm.
  destruct (simulated_failure p draw1); [done|].
  unfold _handle_commit. by rewrite bool_decide_eq_false_2.
Qed.

Lemma replay_pending_vote history p :
  pending_vote (fold_left replay history p) = pending_vote p.
Proof.
  revert p. induction history as [|r history IH]; intros p; simpl; [done|].
  rewrite IH. unfold replay. by destruct (h_status r).
Qed.

Lemma holds_false_ne (slot : option (string * Payload)) tid tid' d :
  holds slot tid = false → slot = Some (tid', d) → tid' ≠ tid.
Proof. intros H -> ->. simpl in H. by rewrite bool_decide_eq_true_2 in H. Qed.

Lemma votes_on_ne tid tid' t pid :
  tid' ≠ tid →
  votes_on tid (Send (VOTE_RESPONSE pid (bare t tid'))) = false ∧
  votes_on tid (Respond (bare t tid')) = false.
Proof.
  intros Hne. simpl. rewrite bool_decide_eq_false_2 by done.
  by rewrite andb_false_r.
Qed.

Lemma step_silent tid p o :
  holds (pending_vote p) tid = false →
  delivers tid o = false →
  holds (pending_vote (step p o).1) tid = false ∧ silent_on tid (step p o).2.
Proof.
  intros Hslot Hdel. unfold silent_on.
  destruct o as [m d1 d2|t tid' net|v net|v net|a net| |reg r|rate]; simpl.
  - (* an inbound message *)
    unfold _handle_request. destruct (crashed p); [by simpl|].
    unfold _process_message. simpl in Hdel.
    destruct (simulated_failure p d1).
    { case_bool_decide as Hm; [|done]. simpl.
      simpl in Hdel. by rewrite Hdel. }
    destruct (msg_type m) eqn:Hm; try done; simpl in Hdel.
    + unfold _handle_cancommit.
      destruct (simulated_failure p d2); simpl; by rewrite Hdel.
    + unfold _handle_precommit.
      destruct (simulated_failure p d2); simpl; by rewrite Hdel.
    + unfold _handle_commit. by case_bool_decide.
  - (* a timeout thread *)
    destruct t; simpl.
    + unfold _wait_for_cancommit_vote.
      destruct (holds (pending_vote p) tid') eqn:Hh; [|done].
      unfold _send_cancommit_vote_to_coordinator.
      destruct net; simpl; [|done].
      destruct (decide (tid' = tid)) as [->|Hne]; [congruence|].
      by rewrite bool_decide_eq_false_2.
    + unfold _wait_for_precommit_vote.
      destruct (holds (pending_vote p) tid') eqn:Hh; [|done].
      unfold _send_precommit_vote_to_coordinator.
      destruct net; simpl; [|done].
      destruct (decide (tid' = tid)) as [->|Hne]; [congruence|].
      by rewrite bool_decide_eq_false_2.
    + unfold _wait_for_ack_commit.
      destruct (pending_commit p) as [[t0 d0]|]; [|done].
      case_bool_decide; [|done]. simpl.
      unfold do_commit. split; [by case_bool_decide|].
      unfold _send_ack_to_coordinator. by destruct net.
    + unfold _wait_for_ack_abort.
      destruct (holds (pending_abort p) tid'); [|done]. simpl.
      split; [done|]. unfold _send_ack_to_coordinator. by destruct net.
  - (* cancommit vote yes|no *)
    unfold _handle_cancommit_vote_command.
    destruct v as [v|]; [|done].
    destruct (pending_vote p) as [[t0 d0]|] eqn:Hp; [|by simpl; rewrite Hp].
    pose proof (holds_false_ne _ _ _ _ Hslot eq_refl) as Hne.
    unfold _send_cancommit_vote_to_coordinator.
    destruct net; simpl; [|done].
    destruct v; simpl; by rewrite bool_decide_eq_false_2.
  - (* precommit vote yes|no *)
    unfold _handle_precommit_vote_command.
    destruct v as [v|]; [|done].
    destruct (pending_vote p) as [[t0 d0]|] eqn:Hp; [|by simpl; rewrite Hp].
    pose proof (holds_false_ne _ _ _ _ Hslot eq_refl) as Hne.
    unfold _send_precommit_vote_to_coordinator.
    destruct net; simpl; [|done].
    destruct v; simpl; by rewrite bool_decide_eq_false_2.
  - (* ack commit|abort *)
    unfold _handle_ack_command, _send_ack_to_coordinator, do_commit, do_abort.
    destruct a as [[|]|]; [| |done].
    + destruct (pending_commit p) as [[t0 d0]|]; [|done]. simpl.
      split; [by case_bool_decide|by destruct net].
    + destruct (pending_commit p) as [[t0 d0]|].
      { simpl. split; [done|by destruct net]. }
      destruct (pending_abort p) as [[t0 d0]|]; [|done].
      simpl. split; [done|by destruct net].
  - (* crash *)
    unfold _handle_crash. by destruct (crashed p).
  - (* recover *)
    unfold _handle_recover. destruct (negb (crashed p)); [done|].
    destruct (negb reg); [done|].
    unfold _request_history_from_coordinator.
    destruct r as [r|]; [|done].
    case_bool_decide; [|done].
    destruct (data r); try done. simpl. by rewrite replay_pending_vote.
  - (* fail *)
    unfold _set_failure_rate. by destruct (_ && _).
Qed.

Lemma run_silent tid ops p :
  holds (pending_vote p) tid = false →
  forallb (λ o, negb (delivers tid o)) ops = true →
  holds (pending_vote (run p ops).1) tid = false ∧ silent_on tid (run p ops).2.
Proof.
  revert p. induction ops as [|o ops IH]; intros p Hslot Hops; simpl; [done|].
  apply andb_true_iff in Hops as [Ho Hops]. apply negb_true_iff in Ho.
  destruct (step_silent tid p o Hslot Ho) as [Hslot' Hout].
  destruct (step p o) as [p' out]. simpl in *.
  destruct (IH p' Hslot' Hops) as [Hslot'' Hout'].
  destruct (run p' ops) as [p'' out']. simpl in *.
  split; [done|]. unfold silent_on in *. rewrite forallb_app.
  by rewrite Hout, Hout'.
Qed.

(** When one of the two simulated failures fires, a CANCOMMIT or PRECOMMIT
    leaves the participant as it was. *)
Lemma simulated_failure_keeps_state p m draw1 draw2 :
  msg_type m = CANCOMMIT ∨ msg_type m = PRECOMMIT →
  simulated_failure p draw1 = true ∨ simulated_failure p draw2 = true →
  (_handle_request m draw1 draw2 p).1 = p.
Proof.
  intros Hm Hf. unfold _handle_request, _process_message.
  destruct (crashed p); [done|].
  destruct (simulated_failure p draw1) eqn:H1.
  { by case_bool_decide. }
  destruct Hf as [Hf|Hf]; [done|].
  destruct Hm as [-> | ->]; unfold _handle_cancommit, _handle_precommit;
    by rewrite Hf.
Qed.

(** C10, with a proviso. A participant that is not crashed handles a
    CANCOMMIT or PRECOMMIT. When one of the two simulated failures fires,
    its state is left as it was. When neither fires, the transaction of
    the message is stored in the pending vote slot whatever the slot held
    (nothing, the same transaction or another one), and nothing else of the
    state changes. A different transaction that was pending is then
    dropped: the handling sends no vote on it, its timeout threads find
    another id in the slot and do nothing, and no later operation sends a
    vote on it, as long as no new CANCOMMIT or PRECOMMIT for it arrives. *)
Theorem pending_vote_overwritten p m draw1 draw2 :
  crashed p = false →
  msg_type m = CANCOMMIT ∨ msg_type m = PRECOMMIT →
  let p' := (_handle_request m draw1 draw2 p).1 in
  (simulated_failure p draw1 = true ∨ simulated_failure p draw2 = true →
   p' = p) ∧
  (simulated_failure p draw1 = false → simulated_failure p draw2 = false →
   pending_vote p' = Some (transaction_id m, data m) ∧
   p' = set_pending_vote (Some (transaction_id m, data m)) p ∧
   ∀ tid1 d1, pending_vote p = Some (tid1, d1) → transaction_id m ≠ tid1 →
     silent_on tid1 (_handle_request m draw1 draw2 p).2 ∧
     (∀ net, _wait_for_cancommit_vote tid1 net p' = (p', [])) ∧
     (∀ net, _wait_for_precommit_vote tid1 net p' = (p', [])) ∧
     ∀ ops, forallb (λ o, negb (delivers tid1 o)) ops = true →
            silent_on tid1 (run p' ops).2).
Proof.
  intros Hc Hm p'. split.
  { intros Hf. by apply simulated_failure_keeps_state. }
  intros Hf1 Hf2.
  assert (Hrun : _handle_request m draw1 draw2 p =
    (set_pending_vote (Some (transaction_id m, data m)) p,
     [Arm (if bool_decide (msg_type m = CANCOMMIT)
           then wait_for_cancommit_vote else wait_for_precommit_vote)
          (transaction_id m)])).
  { unfold _handle_request, _process_message. rewrite Hc, Hf1.
    destruct Hm as [Hm|Hm]; rewrite Hm; simpl;
      unfold _handle_cancommit, _handle_precommit; by rewrite Hf2. }
  unfold p'. rewrite Hrun. simpl.
  split; [done|]. split; [done|].
  intros tid1 d1 Hp Hne.
  assert (Hslot : holds (Some (transaction_id m, data m)) tid1 = false).
  { simpl. by rewrite bool_decide_eq_false_2. }
  split; [done|].
  split.
  { intros net. unfold _wait_for_cancommit_vote. simpl.
    by rewrite bool_decide_eq_false_2. }
  split.
  { intros net. unfold _wait_for_precommit_vote. simpl.
    by rewrite bool_decide_eq_false_2. }
  intros ops Hops. by apply run_silent.
Qed.

(** Confirming an abort moves the transaction to the aborted set and
    takes it out of the prepared set, not out of the waited set. *)
Lemma ack_abort_keeps_waited p tid d net :
  pending_commit p = None →
  pending_abort p = Some (tid, d) →
  tid ∈ waited_transactions p →
  let p' := (_handle_ack_command (Some false) net p).1 in
  tid ∈ waited_transactions p' ∧ tid ∈ aborted_transactions p'.
Proof.
  intros Hc Ha Hw. unfold _handle_ack_command. rewrite Hc, Ha. simpl.
  split; [done|]. set_solver.
Qed.

(** ** The concrete situations *)
Import Scenario.


(** C3. P1 votes yes on CanCommit, receives CANCOMMIT_ABORT and its
    operator confirms: t1 is now both in the waited set and in the aborted
    set, and a state query reports it as WAITED. *)
Theorem waited_and_aborted_overlap :
  let p := (run (init "P1") yes_then_abort).1 in
  "t1" ∈ waited_transactions p ∧ "t1" ∈ aborted_transactions p ∧
  (_handle_query_state (to_p1 QUERY_STATE "t1") p).2
    = [Respond {| msg_type := STATE_RESPONSE; transaction_id := "t1";
                  data := PState "WAITED" (PDict []) |}].
Proof.
  split; [|split].
  - apply (bool_decide_unpack _). vm_compute. exact I.
  - apply (bool_decide_unpack _). vm_compute. exact I.
  - vm_compute. reflexivity.
Qed.

(** C7 as it is written fails: with a failure rate of 1 the participant
    answers nothing to the COMMIT. *)
Lemma failing_participant_does_not_answer :
  crashed always_failing = false ∧
  ("t1" ∉ prepared_transactions always_failing) ∧
  _handle_request (to_p1 COMMIT "t1") 0 0 always_failing = (always_failing, []).
Proof.
  split; [reflexivity|]. split; [apply not_elem_of_empty|].
  vm_compute. reflexivity.
Qed.

Lemma commit_for_unprepared_witness :
  crashed (init "P1") = false ∧
  msg_type (to_p1 COMMIT "t1") = COMMIT ∧
  (transaction_id (to_p1 COMMIT "t1") ∉ prepared_transactions (init "P1")) ∧
  _handle_request (to_p1 COMMIT "t1") 0 0 (init "P1") =
    (init "P1",
     if simulated_failure (init "P1") 0 then []
     else [Respond (bare ACK_ABORT (transaction_id (to_p1 COMMIT "t1")))]).
Proof.
  split; [reflexivity|]. split; [reflexivity|].
  split; [apply not_elem_of_empty|].
  apply (commit_for_unprepared (init "P1") (to_p1 COMMIT "t1") 0 0).
  - reflexivity.
  - reflexivity.
  - apply not_elem_of_empty.
Defined.

(** C10 as it is written fails: with a failure rate of 1 the slot keeps
    the transaction it held. *)
Lemma failing_participant_keeps_slot :
  crashed (set_failure_rate 1 voting_on_t1) = false ∧
  pending_vote (set_failure_rate 1 voting_on_t1) = Some ("t1", PDict kv) ∧
  _handle_request (to_p1 CANCOMMIT "t2") 0 0 (set_failure_rate 1 voting_on_t1)
    = (set_failure_rate 1 voting_on_t1,
       [Respond (bare CANCOMMIT_VOTE_NO "t2")]).
Proof. vm_compute. done. Qed.

Lemma pending_vote_overwritten_witness :
  crashed voting_on_t1 = false ∧
  (msg_type (to_p1 CANCOMMIT "t2") = CANCOMMIT
   ∨ msg_type (to_p1 CANCOMMIT "t2") = PRECOMMIT) ∧
  simulated_failure voting_on_t1 0 = false ∧
  pending_vote voting_on_t1 = Some ("t1", PDict kv) ∧
  transaction_id (to_p1 CANCOMMIT "t2") ≠ "t1" ∧
  let p' := (_handle_request (to_p1 CANCOMMIT "t2") 0 0 voting_on_t1).1 in
  pending_vote p' =
    Some (transaction_id (to_p1 CANCOMMIT "t2"), data (to_p1 CANCOMMIT "t2")) ∧
  silent_on "t1" (_handle_request (to_p1 CANCOMMIT "t2") 0 0 voting_on_t1).2 ∧
  (∀ net, _wait_for_cancommit_vote "t1" net p' = (p', [])) ∧
  (∀ net, _wait_for_precommit_vote "t1" net p' = (p', [])) ∧
  ∀ ops, forallb (λ o, negb (delivers "t1" o)) ops = true →
         silent_on "t1" (run p' ops).2.
Proof.
  assert (H1 : crashed voting_on_t1 = false) by reflexivity.
  assert (H2 : msg_type (to_p1 CANCOMMIT "t2") = CANCOMMIT
               ∨ msg_type (to_p1 CANCOMMIT "t2") = PRECOMMIT)
    by (left; reflexivity).
  assert (H3 : simulated_failure voting_on_t1 0 = false) by reflexivity.
  assert (H4 : pending_vote voting_on_t1 = Some ("t1", PDict kv))
    by reflexivity.
  assert (H5 : transaction_id (to_p1 CANCOMMIT "t2") ≠ "t1") by discriminate.
  split; [exact H1|]. split; [exact H2|]. split; [exact H3|].
  split; [exact H4|]. split; [exact H5|].
  destruct (pending_vote_overwritten voting_on_t1 (to_p1 CANCOMMIT "t2") 0 0
              H1 H2) as [_ Hset].
  destruct (Hset H3 H3) as (Hslot & _ & Hdrop).
  intros p'. split; [exact Hslot|].
  exact (Hdrop "t1" (PDict kv) H4 H5).
Defined.

End ParticipantProofs.

(** * The blocking methods under any schedule *)
Module DriverLogic.
Import PyDictFacts Coordinator CoordinatorProofs Hoare.

Lemma triple_bind {A B} P (d : Driver A) Q (k : A → Driver B) R X :
  triple P d Q X → (∀ a, triple (Q a) (k a) R X) → triple P (d ≫= k) R X.
Proof.
  intros Hd Hk w Hw. specialize (Hd w Hw). unfold mbind, driver_bind.
  destruct (d w) as [[a|v|e] w']; [by apply Hk|done|done].
Qed.

Lemma triple_weaken {A} (P P' : World → Prop) (d : Driver A)
    (Q Q' : A → World → Prop) (X X' : Exit → World → Prop) :
  (∀ w, P' w → P w) → (∀ a w, Q a w → Q' a w) → (∀ x w, X x w → X' x w) →
  triple P d Q X → triple P' d Q' X'.
Proof.
  intros HP HQ HX Hd w Hw. specialize (Hd w (HP w Hw)).
  destruct (d w) as [[a|v|e] w']; auto.
Qed.

Lemma triple_pre {A} (P P' : World → Prop) (d : Driver A) Q X :
  (∀ w, P' w → P w) → triple P d Q X → triple P' d Q X.
Proof. intros HP. by apply triple_weaken. Qed.

Lemma triple_post {A} (P : World → Prop) (d : Driver A)
    (Q Q' : A → World → Prop) X :
  (∀ a w, Q a w → Q' a w) → triple P d Q X → triple P d Q' X.
Proof. intros HQ. by apply triple_weaken. Qed.

Lemma triple_mret {A} (P : World → Prop) (a : A) X :
  triple P (mret a) (λ a' w, P w ∧ a' = a) X.
Proof. by intros w Hw. Qed.

Lemma triple_get_self P X :
  triple P get_self (λ c w, P w ∧ c = coord w) X.
Proof. by intros w Hw. Qed.

Lemma known_keys tid w :
  known tid w ↔ tid ∈ PyDict.keys (transactions (coord w)).
Proof. apply get_is_Some_keys. Qed.

Lemma registry_handler K f c :
  K `prefix_of` PyDict.keys (participants c) →
  K `prefix_of`
    PyDict.keys (participants (_handle_participant_connection f c).1).
Proof.
  intros HK. unfold _handle_participant_connection.
  destruct (crashed c && refused_when_crashed f); [done|].
  destruct f as [pid h p|pid m|pid m|pid|]; simpl; try done.
  - destruct (PyDict.get pid (participants c)) eqn:E.
    + rewrite keys_set_present by (by rewrite E). done.
    + rewrite keys_set_absent by done. by apply prefix_app_r.
  - destruct (PyDict.get (transaction_id m) (transactions c)); [|done].
    simpl. by rewrite update_tx_participants.
  - destruct (PyDict.get (transaction_id m) (transactions c)); [|done].
    simpl. by rewrite update_tx_participants.
Qed.

Lemma registry_event K c e :
  K `prefix_of` PyDict.keys (participants c) →
  K `prefix_of` PyDict.keys (participants (apply_event c e)).
Proof.
  destruct e; [apply registry_handler|].
  simpl. unfold _handle_crash. by destruct (crashed c).
Qed.

Lemma registry_events K es c :
  K `prefix_of` PyDict.keys (participants c) →
  K `prefix_of` PyDict.keys (participants (apply_events es c)).
Proof.
  unfold apply_events. revert c.
  induction es as [|e es IH]; intros c HK; simpl; [done|].
  by apply IH, registry_event.
Qed.

Lemma keys_events es c :
  PyDict.keys (transactions (apply_events es c)) =
  PyDict.keys (transactions c).
Proof.
  unfold apply_events. revert c.
  induction es as [|e es IH]; intros c; simpl; [done|].
  by rewrite IH, keys_event.
Qed.

Lemma get_core_eq tid c c' tx' :
  core_of tid c' = core_of tid c →
  PyDict.get tid (transactions c') = Some tx' →
  ∃ tx, PyDict.get tid (transactions c) = Some tx ∧ tx_core tx = tx_core tx'.
Proof.
  unfold core_of. intros Hcore Hget. rewrite Hget in Hcore. simpl in Hcore.
  destruct (PyDict.get tid (transactions c)) as [tx|]; [|done].
  exists tx. split; [done|]. simpl in Hcore. congruence.
Qed.

Lemma known_same_keys tid c c' :
  PyDict.keys (transactions c') = PyDict.keys (transactions c) →
  is_Some (PyDict.get tid (transactions c)) →
  is_Some (PyDict.get tid (transactions c')).
Proof. rewrite !get_is_Some_keys. by intros ->. Qed.

(** ** The steps of a method *)
Section Steps.
Variable I : World → Prop.
Variable ok : string → Message → Prop.
Variable X : Exit → World → Prop.
Hypothesis I_ticked :
  ∀ w t rest, env w = t :: rest → I w → I (ticked t rest w).
Hypothesis I_logged :
  ∀ w pid m, ok pid m → pid ∈ registry w → I w → I (logged pid m w).
Hypothesis I_written :
  ∀ w tid f, keeps f → known tid w → I w → I (written tid f w).
Hypothesis X_false : ∀ w, I w → X (Returned (Some false)) w.
Hypothesis X_runtime : ∀ w, I w → X (Raised RuntimeError) w.

Lemma inv_ticked K T w t rest :
  env w = t :: rest → inv I K T w → inv I K T (ticked t rest w).
Proof.
  intros Henv (HI & HK & HT). split; [by apply I_ticked|].
  split; [by apply registry_events|].
  eapply Forall_impl; [exact HT|]. intros tid.
  rewrite !known_keys. simpl. by rewrite keys_events.
Qed.

Lemma inv_logged K T w pid m :
  ok pid m → pid ∈ registry w → inv I K T w → inv I K T (logged pid m w).
Proof. intros Hok Hin (HI & HK & HT). split; [by apply I_logged|done]. Qed.

Lemma inv_written K T w tid f :
  keeps f → known tid w → inv I K T w → inv I K T (written tid f w).
Proof.
  intros Hf Hk (HI & HK & HT). split; [by apply I_written|].
  split; [unfold registry; simpl; by rewrite update_tx_participants|].
  eapply Forall_impl; [exact HT|]. intros tid'.
  rewrite !known_keys. simpl. by rewrite keys_update_tx.
Qed.

Lemma inv_known K T w tid : inv I K T w → tid ∈ T → known tid w.
Proof. intros (_ & _ & HT) Hin. by eapply Forall_forall in HT. Qed.

Lemma inv_registered K T w pid : inv I K T w → pid ∈ K → pid ∈ registry w.
Proof.
  intros (_ & HK & _) Hin. destruct HK as [k ->]. apply elem_of_app. by left.
Qed.

Lemma triple_get_tx K T tid :
  tid ∈ T →
  triple (inv I K T) (get_tx tid)
    (λ tx w, inv I K T w ∧ PyDict.get tid (transactions (coord w)) = Some tx)
    X.
Proof.
  intros Hin w Hw. destruct (inv_known K T w tid Hw Hin) as [tx Htx].
  unfold get_tx. by rewrite Htx.
Qed.

Lemma triple_modify_tx K T tid f :
  tid ∈ T → keeps f →
  triple (inv I K T) (modify_tx tid f) (λ _, inv I K T) X.
Proof.
  intros Hin Hf w Hw. pose proof (inv_known K T w tid Hw Hin) as Hk.
  destruct Hk as [tx Htx]. rewrite (modify_tx_run _ _ _ _ Htx).
  apply inv_written; [done| |done]. by exists tx.
Qed.

Lemma triple_suspend K T :
  triple (inv I K T) suspend (λ _, inv I K T) X.
Proof.
  intros w Hw. unfold suspend. destruct (env w) as [|t rest] eqn:E; [done|].
  by apply (inv_ticked K T w t rest).
Qed.

Lemma triple_sleep K T : triple (inv I K T) sleep (λ _, inv I K T) X.
Proof.
  unfold sleep. eapply triple_bind; [apply triple_suspend|].
  intros _ w Hw. done.
Qed.

Lemma triple_send_registered K T pid m force :
  ok pid m →
  triple (λ w, inv I K T w ∧ pid ∈ registry w) (_send_message pid m force)
    (λ _, inv I K T) X.
Proof.
  intros Hok w [Hw Hreg].
  unfold _send_message. erewrite bind_Continue by reflexivity.
  assert (PyDict.mem pid (participants (coord w)) = true) as ->
    by (by apply mem_true).
  simpl. destruct (crashed (coord w) && negb force); [exact Hw|].
  erewrite bind_Continue by reflexivity.
  pose proof (inv_logged K T w pid m Hok Hreg Hw) as Hw1.
  pose proof (triple_suspend K T _ Hw1) as Hs.
  revert Hs. unfold mbind, driver_bind, logged.
  destruct (suspend _) as [[t|v|e] w']; done.
Qed.

Lemma triple_send_message K T pid m force :
  pid ∈ K → ok pid m →
  triple (inv I K T) (_send_message pid m force) (λ _, inv I K T) X.
Proof.
  intros Hin Hok. eapply triple_pre; [|by apply triple_send_registered].
  intros w Hw. split; [done|]. by eapply inv_registered.
Qed.

Lemma triple_wait_votes K T field ticks tid plist :
  tid ∈ T →
  triple (inv I K T) (wait_votes field ticks tid plist) (λ _, inv I K T) X.
Proof.
  intros Hin. induction ticks as [|ticks IH]; simpl; [by intros w Hw|].
  eapply triple_bind; [apply triple_get_self|]. intros c.
  destruct (crashed c).
  { intros w [Hw _]. apply X_false, Hw. }
  eapply triple_bind.
  { eapply triple_pre; [|apply (triple_get_tx K T tid Hin)].
    by intros w [Hw _]. }
  intros tx. destruct (Nat.eqb _ _); [by intros w [Hw _]|].
  eapply triple_bind.
  { eapply triple_pre; [|apply (triple_sleep K T)]. by intros w [Hw _]. }
  intros ?. exact IH.
Qed.

Lemma triple_wait_acks K T ticks tid target :
  tid ∈ T →
  triple (inv I K T) (wait_acks ticks tid target) (λ _, inv I K T) X.
Proof.
  intros Hin. induction ticks as [|ticks IH]; simpl; [by intros w Hw|].
  eapply triple_bind; [apply triple_get_self|]. intros c.
  destruct (crashed c).
  { intros w [Hw _]. apply X_false, Hw. }
  eapply triple_bind.
  { eapply triple_pre; [|apply (triple_get_tx K T tid Hin)].
    by intros w [Hw _]. }
  intros tx. destruct (Nat.eqb _ _); [by intros w [Hw _]|].
  eapply triple_bind.
  { eapply triple_pre; [|apply (triple_sleep K T)]. by intros w [Hw _]. }
  intros ?. exact IH.
Qed.

Lemma triple_cancommit_sends K T m plist votes votep :
  (∀ p, p ∈ plist → p ∈ K ∧ ok p m) →
  triple (inv I K T) (cancommit_sends m plist votes votep)
    (λ _, inv I K T) X.
Proof.
  revert votes votep. induction plist as [|p plist IH];
    intros votes votep Hsub; simpl; [by intros w Hw|].
  destruct (Hsub p) as [HpK Hpok]; [left|].
  eapply triple_bind; [by apply triple_send_message|]. intros r.
  destruct (fold_vote p r votes votep). apply IH.
  intros q Hq. apply Hsub. by right.
Qed.

Lemma triple_precommit_sends K T tid m plist votep :
  tid ∈ T → (∀ p, p ∈ plist → p ∈ K ∧ ok p m) →
  triple (inv I K T) (precommit_sends tid m plist votep)
    (λ _, inv I K T) X.
Proof.
  intros Hin. revert votep. induction plist as [|p plist IH];
    intros votep Hsub; simpl; [by intros w Hw|].
  destruct (Hsub p) as [HpK Hpok]; [left|].
  assert (Hrest : ∀ q, q ∈ plist → q ∈ K ∧ ok q m).
  { intros q Hq. apply Hsub. by right. }
  eapply triple_bind; [by apply triple_send_message|]. intros r.
  destruct r as [r|]; [|by apply IH].
  destruct (msg_type r); try (by apply IH);
    (eapply triple_bind; [by apply triple_modify_tx|]);
    intros ?; by apply IH.
Qed.

(** The loop over the live registry: at each turn the registry has the
    size, hence the keys, it had when the loop began. *)
Lemma triple_ack_sends K0 T cc m expect ks acks :
  (∀ k, k ∈ ks → k ∈ K0 ∧ ok k m) →
  triple (inv I K0 T) (ack_sends cc m expect (length K0) ks acks)
    (λ _, inv I K0 T) X.
Proof.
  revert acks. induction ks as [|k ks IH]; intros acks Hsub; simpl.
  - eapply triple_bind; [apply triple_get_self|]. intros c.
    destruct (negb _); intros w [Hw _]; [apply X_runtime, Hw|done].
  - eapply triple_bind; [apply triple_get_self|]. intros c.
    destruct (negb _); [intros w [Hw _]; apply X_runtime, Hw|].
    destruct (cc && crashed c); [intros w [Hw _]; apply X_false, Hw|].
    destruct (Hsub k) as [HkK Hkok]; [left|].
    eapply triple_bind.
    { eapply triple_pre;
        [|apply (triple_send_message K0 T k m false HkK Hkok)].
      by intros w [Hw _]. }
    intros r. apply IH. intros q Hq. apply Hsub. by right.
Qed.

(** ** [execute_transaction] *)
Variables (tid : string) (d : Data).
Hypothesis ok_message : ∀ pid t,
  t ∈ [CANCOMMIT; PRECOMMIT; COMMIT; CANCOMMIT_ABORT; PRECOMMIT_ABORT] →
  ok pid (message t tid d).
Hypothesis X_finish :
  ∀ w b, I w → known tid w → X (Returned (Some b)) (finished tid b d w).

Lemma triple_finish K T (b : bool) s :
  tid ∈ T → s = final_status b →
  triple (inv I K T)
    (modify_tx tid (with_status s) ;; append_history tid s d ;;
     return_ (Some b))
    (λ (_ : unit) _, False) X.
Proof.
  intros Hin -> w Hw. pose proof (inv_known K T w tid Hw Hin) as Hk.
  destruct Hk as [tx Htx].
  erewrite bind_Continue by (by eapply modify_tx_run).
  erewrite bind_Continue by apply append_history_run.
  apply (X_finish w b); [apply Hw|by exists tx].
Qed.

Lemma triple_docommit_tally K T plist :
  tid ∈ T →
  triple (inv I K T) (docommit_tally tid plist d) (λ _ _, False) X.
Proof.
  intros Hin. unfold docommit_tally.
  eapply triple_bind; [by apply triple_modify_tx|]. intros ?.
  eapply triple_bind; [by apply triple_get_tx|]. intros tx. cbv zeta.
  eapply triple_pre; [by intros w [Hw _]|].
  destruct (Nat.ltb _ _).
  - by apply (triple_finish K T false).
  - by apply (triple_finish K T true).
Qed.

Lemma triple_ack_loop K T cc m expect acks c :
  (∀ k, ok k m) →
  triple (λ w, inv I K T w ∧ c = coord w)
    (ack_sends cc m expect (length (participants c))
       (PyDict.keys (participants c)) acks)
    (λ _, inv I K T) X.
Proof.
  intros Hok w [Hw ->].
  pose proof (triple_ack_sends (registry w) T cc m expect
                (registry w) acks) as H.
  assert (Hw0 : inv I (registry w) T w).
  { destruct Hw as (HI & HK & HT). by repeat split. }
  specialize (H ltac:(intros k Hk; split; [done|apply Hok]) w Hw0).
  unfold registry in H. rewrite length_keys in H.
  destruct (ack_sends _ _ _ _ _ _ w) as [[a|v|e] w']; try done.
  destruct H as (HI & HK' & HT). destruct Hw as (_ & HK & _).
  repeat split; [done| |done]. by etrans.
Qed.

Lemma triple_abort_phase K T t plist :
  tid ∈ T → t ∈ [CANCOMMIT_ABORT; PRECOMMIT_ABORT] →
  triple (inv I K T) (abort_phase t tid plist d) (λ _ _, False) X.
Proof.
  intros Hin Ht. unfold abort_phase.
  eapply triple_bind; [by apply triple_modify_tx|]. intros ?.
  eapply triple_bind; [apply triple_get_self|]. intros c.
  eapply triple_bind.
  { apply triple_ack_loop. intros k. apply ok_message. set_solver. }
  intros acks.
  eapply triple_bind; [by apply triple_modify_tx|]. intros ?.
  eapply triple_bind; [by apply triple_wait_acks|]. intros ?.
  eapply triple_bind; [by apply triple_modify_tx|]. intros ?.
  by apply (triple_finish K T false).
Qed.

Lemma triple_docommit_phase K T plist :
  tid ∈ T →
  triple (inv I K T) (docommit_phase tid plist d) (λ _ _, False) X.
Proof.
  intros Hin. unfold docommit_phase.
  eapply triple_bind; [by apply triple_modify_tx|]. intros ?.
  eapply triple_bind; [apply triple_get_self|]. intros c.
  eapply triple_bind.
  { apply triple_ack_loop. intros k. apply ok_message. set_solver. }
  intros acks.
  eapply triple_bind; [by apply triple_modify_tx|]. intros ?.
  eapply triple_bind; [by apply triple_wait_acks|]. intros ?.
  by apply triple_docommit_tally.
Qed.

Lemma triple_cancommit_tally K T plist :
  tid ∈ T →
  triple (inv I K T) (cancommit_tally tid plist) (λ _, inv I K T) X.
Proof.
  intros Hin. unfold cancommit_tally.
  eapply triple_bind; [by apply triple_modify_tx|]. intros ?.
  eapply triple_bind; [by apply triple_get_tx|]. intros tx. cbv zeta.
  eapply triple_pre; [by intros w [Hw _]|].
  eapply triple_bind; [by apply triple_modify_tx|]. intros ?.
  intros w Hw. exact Hw.
Qed.

Lemma triple_precommit_tally K T plist :
  tid ∈ T →
  triple (inv I K T) (precommit_tally tid plist) (λ _, inv I K T) X.
Proof.
  intros Hin. unfold precommit_tally.
  eapply triple_bind; [by apply triple_modify_tx|]. intros ?.
  eapply triple_bind; [by apply triple_get_tx|]. intros tx. cbv zeta.
  eapply triple_pre; [by intros w [Hw _]|].
  eapply triple_bind; [by apply triple_modify_tx|]. intros ?.
  intros w Hw. exact Hw.
Qed.

Lemma triple_precommit_phase K T votep :
  tid ∈ T →
  triple (inv I K T) (precommit_phase tid K d votep) (λ _ _, False) X.
Proof.
  intros Hin. unfold precommit_phase.
  eapply triple_bind; [by apply triple_modify_tx|]. intros ?.
  eapply triple_bind.
  { apply triple_precommit_sends; [done|].
    intros p Hp. split; [done|]. apply ok_message. set_solver. }
  intros votep'.
  eapply triple_bind; [by apply triple_modify_tx|]. intros ?.
  eapply triple_bind; [by apply triple_wait_votes|]. intros ?.
  eapply triple_bind; [by apply triple_precommit_tally|].
  intros all_yes.
  eapply triple_bind; [apply triple_get_self|]. intros c.
  eapply triple_pre; [by intros w [Hw _]|].
  destruct (crashed c); [intros w Hw; apply X_false, Hw|].
  destruct all_yes.
  - by apply triple_docommit_phase.
  - apply triple_abort_phase; [done|set_solver].
Qed.

Lemma triple_after_cancommit_wait K T votep :
  tid ∈ T →
  triple (inv I K T) (after_cancommit_wait tid K d votep) (λ _ _, False) X.
Proof.
  intros Hin. unfold after_cancommit_wait.
  eapply triple_bind; [by apply triple_cancommit_tally|].
  intros all_yes. destruct all_yes.
  - by apply triple_precommit_phase.
  - apply triple_abort_phase; [done|set_solver].
Qed.

(** The whole driver, from a world where [P0] holds: it does not fall
    through. *)
Variable P0 : World → Prop.
Hypothesis P0_false :
  ∀ w, P0 w → crashed (coord w) = true ∨ participants (coord w) = [] →
       X (Returned (Some false)) w.
Hypothesis P0_created :
  ∀ w, P0 w → crashed (coord w) = false → participants (coord w) ≠ [] →
       I (created tid d w).

Lemma triple_execute_transaction :
  triple P0 (execute_transaction tid d) (λ _ _, False) X.
Proof.
  intros w Hw. unfold execute_transaction.
  erewrite bind_Continue by reflexivity.
  destruct (crashed (coord w)) eqn:Hc; [apply P0_false; auto|].
  destruct (participants (coord w)) as [|kv reg] eqn:Hreg;
    [apply P0_false; auto|].
  erewrite bind_Continue by reflexivity.
  erewrite bind_Continue by reflexivity.
  cbv zeta.
  assert (HI : I (created tid d w)).
  { apply P0_created; [done|done|]. by rewrite Hreg. }
  set (w1 := set_coord _ w).
  assert (Hw1 : w1 = created tid d w).
  { unfold w1, created, registry. by rewrite Hreg. }
  assert (Hinv : inv I (registry w) [tid] w1).
  { rewrite Hw1. split; [done|]. split; [done|].
    apply Forall_singleton. unfold known, created. simpl.
    rewrite get_set_eq. by eexists. }
  replace (PyDict.keys (participants (coord w1))) with (registry w)
    by (by rewrite Hw1).
  revert Hinv. generalize w1. clear w1 Hw1 HI.
  change (triple (inv I (registry w) [tid])
    (modify_tx tid (with_status WAITING) ;;
     '(votes, votep) ←
       cancommit_sends (message CANCOMMIT tid d) (registry w) ∅ ∅;
     modify_tx tid (with_votes (λ _, votes)) ;;
     wait_votes tx_votes 60 tid (registry w) ;;
     after_cancommit_wait tid (registry w) d votep)
    (λ _ _, False) X).
  assert (Hin : tid ∈ [tid]) by set_solver.
  eapply triple_bind; [by apply triple_modify_tx|]. intros ?.
  eapply triple_bind.
  { apply triple_cancommit_sends.
    intros p Hp. split; [done|]. apply ok_message. set_solver. }
  intros [votes votep].
  eapply triple_bind; [by apply triple_modify_tx|]. intros ?.
  eapply triple_bind; [by apply triple_wait_votes|]. intros ?.
  by apply triple_after_cancommit_wait.
Qed.

End Steps.

Lemma triple_call (P : World → Prop) (d : Driver unit)
    (Q : World → Prop) (X0 X : Exit → World → Prop) :
  triple P d (λ _, Q) X0 →
  (∀ v w, X0 (Returned v) w → Q w) →
  (∀ e w, X0 (Raised e) w → X (Raised e) w) →
  triple P (call d) (λ _, Q) X.
Proof.
  intros Hd Hret Hraise w Hw. specialize (Hd w Hw). unfold call.
  destruct (d w) as [[a|v|e] w']; eauto.
Qed.

(** ** The recovery *)
Section Recover.
Variable I : World → Prop.
Variable ok : string → Message → Prop.
Variables K T : list string.
Hypothesis I_ticked :
  ∀ w t rest, env w = t :: rest → I w → I (ticked t rest w).
Hypothesis I_logged :
  ∀ w pid m, ok pid m → pid ∈ registry w → I w → I (logged pid m w).
Hypothesis I_written :
  ∀ w tid f, keeps f → known tid w → I w → I (written tid f w).
Hypothesis I_appended :
  ∀ w tid tx b,
    tid ∈ T → PyDict.get tid (transactions (coord w)) = Some tx →
    tx_status tx = final_status b → I w →
    I (appended (final_entry tid b (tx_data tx) (now w)) w).
Hypothesis I_uncrashed :
  ∀ w, I w → I (set_coord (set_crashed false (coord w)) w).
Hypothesis ok_query : ∀ pid tid,
  ok pid {| msg_type := QUERY_STATE; transaction_id := tid;
            data := PDict [] |}.
Hypothesis ok_final : ∀ pid t tid tx,
  t ∈ [COMMIT; ABORT] → tid ∈ T → ok pid (message t tid (tx_data tx)).

Local Abbreviation J := (inv I K T).
Local Abbreviation X0 := (helper_exit (inv I K T)).
Local Abbreviation XR := (recovery_exit (inv I K T)).

Lemma J_ticked w t rest : env w = t :: rest → J w → J (ticked t rest w).
Proof. by apply inv_ticked. Qed.

Lemma J_logged w pid m :
  ok pid m → pid ∈ registry w → J w → J (logged pid m w).
Proof. by apply inv_logged. Qed.

Lemma J_written w tid f : keeps f → known tid w → J w → J (written tid f w).
Proof. by apply inv_written. Qed.

Lemma X0_false w : J w → X0 (Returned (Some false)) w.
Proof. done. Qed.

Lemma X0_runtime w : J w → X0 (Raised RuntimeError) w.
Proof. intros Hw. split; [set_solver|done]. Qed.

Lemma JJ w : J w → inv J K T w.
Proof. intros Hw. split; [done|]. by destruct Hw as (_ & ? & ?). Qed.

Lemma J_appended w tid tx b :
  tid ∈ T → PyDict.get tid (transactions (coord w)) = Some tx →
  tx_status tx = final_status b → J w →
  J (appended (final_entry tid b (tx_data tx) (now w)) w).
Proof.
  intros Hin Hget Hst (HI & HK & HT). split; [by apply I_appended|done].
Qed.

Ltac given :=
  first [ exact J_ticked | exact J_logged | exact J_written
        | exact X0_false | exact X0_runtime | idtac ].

(** The last statements of a helper: the status is written, the entry is
    appended with the data of the record. *)
Lemma J_recovered w tid tx (b : bool) :
  tid ∈ T → PyDict.get tid (transactions (coord w)) = Some tx → J w →
  J (appended (final_entry tid b (tx_data tx) (now w))
       (written tid (with_status (final_status b)) w)).
Proof.
  intros Hin Hget Hw.
  apply (J_appended (written tid (with_status (final_status b)) w) tid
           (with_status (final_status b) tx) b); [done| |done|].
  - simpl. by apply get_update_tx_eq.
  - apply J_written; [done|by eexists|done].
Qed.

Lemma triple_complete_abort tid :
  tid ∈ T → triple (inv J K T) (_complete_abort tid) (λ _ _, False) X0.
Proof.
  intros Hin. unfold _complete_abort.
  eapply triple_bind; [eapply triple_get_tx; given; done|]. intros tx_info.
  eapply triple_pre; [by intros w [Hw _]|].
  eapply triple_bind; [eapply triple_modify_tx; given; done|]. intros ?.
  eapply triple_bind; [apply triple_get_self|]. intros c.
  eapply triple_bind.
  { eapply triple_ack_loop; given. intros k. apply ok_final; [set_solver|done]. }
  intros acks.
  eapply triple_bind; [eapply triple_modify_tx; given; done|]. intros ?.
  eapply triple_bind; [eapply triple_wait_acks; given; done|]. intros ?.
  eapply triple_bind; [apply triple_get_self|]. intros c'.
  eapply triple_pre; [by intros w [Hw _]|].
  eapply triple_bind; [eapply triple_modify_tx; given; done|]. intros ?.
  intros w [Hw _].
  assert (known tid w) as [tx Htx].
  { destruct Hw as (_ & _ & HT). by eapply Forall_forall in HT. }
  erewrite bind_Continue by (by eapply modify_tx_run).
  erewrite bind_Continue.
  2:{ eapply get_tx_run. simpl. by apply get_update_tx_eq. }
  erewrite bind_Continue by apply append_history_run. simpl.
  by apply (J_recovered w tid tx false).
Qed.

Lemma triple_complete_commit tid :
  tid ∈ T → triple (inv J K T) (_complete_commit tid) (λ _, J) X0.
Proof.
  intros Hin. unfold _complete_commit.
  eapply triple_bind; [eapply triple_get_tx; given; done|]. intros tx_info.
  eapply triple_pre; [by intros w [Hw _]|].
  eapply triple_bind; [apply triple_get_self|]. intros c.
  eapply triple_bind.
  { eapply triple_ack_loop; given. intros k. apply ok_final; [set_solver|done]. }
  intros acks.
  eapply triple_bind; [eapply triple_modify_tx; given; done|]. intros ?.
  eapply triple_bind; [eapply triple_wait_acks; given; done|]. intros ?.
  eapply triple_bind; [apply triple_get_self|]. intros c'.
  eapply triple_pre; [by intros w [Hw _]|].
  eapply triple_bind; [eapply triple_modify_tx; given; done|]. intros ?.
  eapply triple_bind; [eapply triple_get_tx; given; done|]. intros tx.
  cbv zeta. intros w [[Hw _] Hget].
  destruct (Nat.ltb _ _).
  - erewrite bind_Continue by (by eapply modify_tx_run).
    erewrite bind_Continue by apply append_history_run. simpl.
    by apply (J_recovered w tid tx false).
  - erewrite bind_Continue by (by eapply modify_tx_run).
    rewrite append_history_run.
    by apply (J_recovered w tid tx true).
Qed.

Lemma J_registered w pid :
  J w → PyDict.mem pid (participants (coord w)) = true → pid ∈ registry w.
Proof. intros _ Hmem. by apply mem_true. Qed.

Lemma triple_query_participant_state pid tid X :
  triple (λ w, inv J K T w ∧ pid ∈ registry w)
    (_query_participant_state pid tid) (λ _, inv J K T) X.
Proof.
  intros w Hw. unfold _query_participant_state.
  pose proof (triple_send_registered J ok (λ _ _, False) J_ticked J_logged
    K T pid
    {| msg_type := QUERY_STATE; transaction_id := tid; data := PDict [] |}
    true (ok_query pid tid) w Hw) as H.
  destruct (_send_message _ _ _ w) as [[[r|]|v|e] w']; simpl in *;
    try done.
  by destruct (bool_decide _).
Qed.

Lemma triple_query_states tid pids states :
  triple (inv J K T) (query_states tid pids states) (λ _, inv J K T) XR.
Proof.
  revert states. induction pids as [|p pids IH]; intros states; simpl.
  - intros w Hw. exact Hw.
  - eapply triple_bind; [apply triple_get_self|]. intros c.
    destruct (PyDict.mem p (participants c)) eqn:Hmem; simpl.
    + eapply triple_bind.
      { eapply triple_pre; [|apply triple_query_participant_state].
        intros w [Hw Hc]. subst c. split; [done|]. by apply mem_true. }
      intros st. destruct (get_status st); [apply IH|].
      intros w Hw. split; [set_solver|]. by destruct Hw.
    + eapply triple_pre; [|apply IH]. by intros w [Hw _].
Qed.

Lemma triple_recovery_decision tid states :
  tid ∈ T →
  triple (inv J K T) (recovery_decision tid states) (λ _, inv J K T) XR.
Proof.
  intros Hin. unfold recovery_decision. cbv zeta.
  eapply triple_bind; [eapply triple_get_tx; given; done|]. intros tx_info.
  eapply triple_pre; [by intros w [Hw _]|].
  assert (Hc : triple (inv J K T) (call (_complete_commit tid))
                 (λ _, inv J K T) XR).
  { eapply triple_post; [intros a w Hw; apply JJ, Hw|].
    eapply triple_call; [by apply triple_complete_commit| |].
    - intros v w Hw. exact Hw.
    - intros e w Hw. exact Hw. }
  assert (Ha : triple (inv J K T) (call (_complete_abort tid))
                 (λ _, inv J K T) XR).
  { eapply triple_post; [intros a w Hw; apply JJ, Hw|].
    eapply triple_call.
    - eapply triple_post; [|by apply triple_complete_abort]. by intros ? ? [].
    - intros v w Hw. exact Hw.
    - intros e w Hw. exact Hw. }
  destruct (tx_status tx_info); repeat case_match; done.
Qed.

Lemma triple_recover_transaction tid :
  tid ∈ T →
  triple (inv J K T) (recover_transaction tid) (λ _, inv J K T) XR.
Proof.
  intros Hin. unfold recover_transaction.
  eapply triple_bind; [eapply triple_get_tx; given; done|]. intros tx_info.
  eapply triple_pre; [by intros w [Hw _]|].
  eapply triple_bind; [apply triple_query_states|]. intros states.
  by apply triple_recovery_decision.
Qed.

Lemma triple_recover_transactions tids :
  (∀ t, t ∈ tids → t ∈ T) →
  triple (inv J K T) (recover_transactions tids) (λ _, inv J K T) XR.
Proof.
  induction tids as [|t tids IH]; intros Hsub; simpl.
  - intros w Hw. exact Hw.
  - eapply triple_bind; [apply triple_recover_transaction, Hsub; left|].
    intros ?. apply IH. intros q Hq. apply Hsub. by right.
Qed.

Lemma J_uncrashed w : J w → J (set_coord (set_crashed false (coord w)) w).
Proof. intros (HI & HK & HT). split; [by apply I_uncrashed|done]. Qed.

Lemma triple_handle_recover :
  triple (λ w, J w ∧ ∀ t, t ∈ unfinished_txs (coord w) → t ∈ T)
    _handle_recover (λ _, J) XR.
Proof.
  intros w [Hw Hsub]. unfold _handle_recover.
  erewrite bind_Continue by reflexivity.
  destruct (crashed (coord w)); simpl; [|exact Hw].
  unfold _recover_coordinator. erewrite bind_Continue by reflexivity.
  destruct (unfinished_txs (coord w)) as [|t tids] eqn:E.
  { erewrite bind_Continue by reflexivity. simpl. by apply J_uncrashed. }
  erewrite bind_Continue by reflexivity.
  pose proof (triple_recover_transactions (t :: tids) Hsub _
                (JJ _ (J_uncrashed w Hw))) as H.
  unfold mbind at 1, driver_bind at 1.
  destruct (recover_transactions (t :: tids) _) as [[[]|v|e] w']; try done.
  simpl. apply J_uncrashed. by destruct H.
Qed.

End Recover.

Lemma history_handler f c :
  transaction_history (_handle_participant_connection f c).1 =
  transaction_history c.
Proof.
  unfold _handle_participant_connection.
  destruct (crashed c && refused_when_crashed f); [done|].
  destruct f as [pid h p|pid m|pid m|pid|]; simpl; try done.
  - destruct (PyDict.get (transaction_id m) (transactions c)); [|done].
    simpl. apply update_tx_history.
  - destruct (PyDict.get (transaction_id m) (transactions c)); [|done].
    simpl. apply update_tx_history.
Qed.

Lemma history_event c e :
  transaction_history (apply_event c e) = transaction_history c.
Proof.
  destruct e; [apply history_handler|].
  simpl. unfold _handle_crash. by destruct (crashed c).
Qed.

Lemma history_events es c :
  transaction_history (apply_events es c) = transaction_history c.
Proof.
  unfold apply_events. revert c.
  induction es as [|e es IH]; intros c; simpl; [done|].
  by rewrite IH, history_event.
Qed.

(** X1. What [execute_transaction] can end with, and what it has then done to
    the history: it returns true only after appending the COMMITTED entry
    of its transaction; when it returns false it has appended nothing or
    the ABORTED entry of its transaction; the only exception that leaves it
    is the one raised when the registry changes size while it is iterated,
    and nothing is appended then. *)
Theorem execute_transaction_outcome tid d w :
  let status_of w' :=
    tx_status <$> PyDict.get tid (transactions (coord w')) in
  let history w' := transaction_history (coord w') in
  match execute_transaction tid d w with
  | (Return (Some true), w') =>
      history w' = history w ++ [final_entry tid true d (now w)] ∧
      status_of w' = Some COMMITTED
  | (Return (Some false), w') =>
      history w' = history w ∨
      (history w' = history w ++ [final_entry tid false d (now w)] ∧
       status_of w' = Some ABORTED)
  | (Raise RuntimeError, w') => history w' = history w
  | _ => False
  end.
Proof.
  intros status_of history.
  set (I := λ w', history w' = history w ∧ now w' = now w).
  set (X := λ x w',
    match x with
    | Returned (Some b) =>
        (b = false ∧ history w' = history w) ∨
        (history w' = history w ++ [final_entry tid b d (now w)] ∧
         status_of w' = Some (final_status b))
    | Raised RuntimeError => history w' = history w
    | _ => False
    end).
  pose proof (triple_execute_transaction I (λ _ _, True) X) as H.
  assert (Hexec : triple I (execute_transaction tid d) (λ _ _, False) X).
  { apply H; clear H; unfold I, X, history, status_of.
    - intros w0 t rest _ [Hh Hn]. simpl. by rewrite history_events.
    - by intros w0 pid m _ _ [Hh Hn].
    - intros w0 tid' f _ _ [Hh Hn]. simpl. by rewrite update_tx_history.
    - intros w0 [Hh Hn]. by left.
    - by intros w0 [Hh Hn].
    - done.
    - intros w0 b [Hh Hn] [tx Htx]. right. simpl.
      rewrite update_tx_history, (get_update_tx_eq _ _ _ _ Htx).
      by rewrite Hh, Hn.
    - intros w0 [Hh Hn] _. by left.
    - by intros w0 [Hh Hn] _ _. }
  specialize (Hexec w ltac:(done)). unfold X in Hexec.
  destruct (execute_transaction tid d w) as [[a|[[|]|]|e] w']; try done.
  - destruct Hexec as [[? _]|?]; done.
  - destruct Hexec as [[_ ?]|?]; [by left|by right].
Qed.

Lemma core_events tid es c :
  core_of tid (apply_events es c) = core_of tid c.
Proof.
  unfold apply_events. revert c.
  induction es as [|e es IH]; intros c; simpl; [done|].
  by rewrite IH, core_event.
Qed.

Lemma execute_transaction_unregistered tid d w :
  participants (coord w) = [] →
  execute_transaction tid d w = (Return (Some false), w).
Proof.
  intros H. unfold execute_transaction.
  erewrite bind_Continue by reflexivity.
  destruct (crashed (coord w)); [done|]. by rewrite H.
Qed.

Lemma registered_events pid es c :
  pid ∈ PyDict.keys (participants c) →
  pid ∈ PyDict.keys (participants (apply_events es c)).
Proof.
  intros Hin.
  destruct (registry_events (PyDict.keys (participants c)) es c) as [k ->];
    [done|].
  apply elem_of_app. by left.
Qed.

(** X2. What [execute_transaction] sends, whatever happens meanwhile: only
    CANCOMMIT, PRECOMMIT, COMMIT, CANCOMMIT_ABORT and PRECOMMIT_ABORT
    messages that carry its own transaction id and data, and only to
    registered participants. *)
Theorem execute_transaction_messages tid d w :
  let w' := (execute_transaction tid d w).2 in
  ∃ sent,
    outbox w' = outbox w ++ sent ∧
    Forall (λ pm,
      pm.1 ∈ PyDict.keys (participants (coord w')) ∧
      transaction_id pm.2 = tid ∧ data pm.2 = PDict d ∧
      msg_type pm.2 ∈
        [CANCOMMIT; PRECOMMIT; COMMIT; CANCOMMIT_ABORT; PRECOMMIT_ABORT])
      sent.
Proof.
  intros w'.
  set (shape := λ m : Message,
    transaction_id m = tid ∧ data m = PDict d ∧
    msg_type m ∈
      [CANCOMMIT; PRECOMMIT; COMMIT; CANCOMMIT_ABORT; PRECOMMIT_ABORT]).
  set (I := λ w0, ∃ sent,
    outbox w0 = outbox w ++ sent ∧
    Forall (λ pm, pm.1 ∈ registry w0 ∧ shape pm.2) sent).
  assert (Hexec : triple I (execute_transaction tid d) (λ _ _, False)
                    (λ _, I)).
  { apply (triple_execute_transaction I (λ _ m, shape m)); unfold I.
    - intros w0 t rest _ (sent & Ho & Hs). exists sent. split; [done|].
      eapply Forall_impl; [exact Hs|]. intros pm [Hreg Hsh].
      split; [|done]. by apply registered_events.
    - intros w0 pid m Hsh Hreg (sent & Ho & Hs). exists (sent ++ [(pid, m)]).
      simpl. split; [by rewrite Ho, app_assoc|].
      apply Forall_app. split; [done|]. by apply Forall_singleton.
    - intros w0 tid' f _ _ (sent & Ho & Hs). exists sent. split; [done|].
      eapply Forall_impl; [exact Hs|]. intros pm [Hreg Hsh].
      split; [|done]. unfold registry. simpl.
      by rewrite update_tx_participants.
    - done.
    - done.
    - intros pid t Ht. by repeat split.
    - intros w0 b (sent & Ho & Hs) _. exists sent. split; [done|].
      eapply Forall_impl; [exact Hs|]. intros pm [Hreg Hsh].
      split; [|done]. unfold registry. simpl.
      by rewrite update_tx_participants.
    - by intros w0 H _.
    - intros w0 H _ _. exact H. }
  assert (Hw : I w).
  { exists []. by rewrite app_nil_r. }
  specialize (Hexec w Hw). unfold w'.
  destruct (execute_transaction tid d w) as [[a|v|e] w1]; done.
Qed.

Lemma unfinished_known c tid :
  tid ∈ unfinished_txs c → tid ∈ PyDict.keys (transactions c).
Proof.
  unfold unfinished_txs, PyDict.keys. intros Hin.
  apply list_elem_of_fmap in Hin as [kv [-> Hin]].
  apply list_elem_of_filter in Hin as [_ Hin].
  apply list_elem_of_fmap. by exists kv.
Qed.

Lemma recover_start I w :
  I w →
  inv I (registry w) (unfinished_txs (coord w)) w ∧
  ∀ t, t ∈ unfinished_txs (coord w) → t ∈ unfinished_txs (coord w).
Proof.
  intros HI. split; [|done]. split; [done|]. split; [done|].
  apply Forall_forall. intros t Ht. apply known_keys.
  by apply unfinished_known.
Qed.

(** X3. What the recovery can end with, and what it has then done to the
    history, whatever happens meanwhile: it ends normally or is left by
    one of two exceptions (the registry changed size while it was iterated,
    or a participant answered a probe without a payload); the history has
    only grown, and every new entry is the COMMITTED or ABORTED entry of a
    transaction that was unfinished when the recovery began. *)
Theorem recovery_outcome w :
  let grown w' := ∃ entries,
    transaction_history (coord w') =
      transaction_history (coord w) ++ entries ∧
    Forall (λ e, h_transaction_id e ∈ unfinished_txs (coord w) ∧
                 terminal (h_status e) = true) entries in
  match _handle_recover w with
  | (Continue _, w') | (Return None, w') => grown w'
  | (Raise e, w') => e ∈ [RuntimeError; AttributeError] ∧ grown w'
  | (Return (Some _), _) => False
  end.
Proof.
  intros grown.
  pose proof (triple_handle_recover grown (λ _ _, True) (registry w)
                (unfinished_txs (coord w))) as H.
  assert (Hw : grown w).
  { exists []. by rewrite app_nil_r. }
  specialize (H
    ltac:(intros w0 t rest _ (es & Hh & Hes); exists es; simpl;
          by rewrite history_events)
    ltac:(by intros w0 pid m _ _ ?)
    ltac:(intros w0 tid f _ _ (es & Hh & Hes); exists es; simpl;
          by rewrite update_tx_history)).
  specialize (H
    ltac:(intros w0 tid tx b Hin _ _ (es & Hh & Hes);
          exists (es ++ [final_entry tid b (tx_data tx) (now w0)]); simpl;
          split; [by rewrite Hh, app_assoc|];
          apply Forall_app; split; [done|]; apply Forall_singleton;
          split; [done|by destruct b])
    ltac:(by intros w0 ?) ltac:(done) ltac:(done)
    w (recover_start grown w Hw)).
  destruct (_handle_recover w) as [[a|[b|]|e] w']; simpl in H.
  - by destruct H.
  - done.
  - by destruct H.
  - by destruct H as [? [? _]].
Qed.

(** X4. What the recovery sends, whatever happens meanwhile: QUERY_STATE,
    COMMIT and ABORT messages only, and only to registered participants. *)
Theorem recovery_messages w :
  let w' := (_handle_recover w).2 in
  ∃ sent,
    outbox w' = outbox w ++ sent ∧
    Forall (λ pm,
      pm.1 ∈ PyDict.keys (participants (coord w')) ∧
      msg_type pm.2 ∈ [QUERY_STATE; COMMIT; ABORT]) sent.
Proof.
  intros w'.
  set (shape := λ m : Message, msg_type m ∈ [QUERY_STATE; COMMIT; ABORT]).
  set (I := λ w0, ∃ sent,
    outbox w0 = outbox w ++ sent ∧
    Forall (λ pm, pm.1 ∈ registry w0 ∧ shape pm.2) sent).
  pose proof (triple_handle_recover I (λ _ m, shape m) (registry w)
                (unfinished_txs (coord w))) as H.
  assert (Hw : I w).
  { exists []. by rewrite app_nil_r. }
  specialize (H
    ltac:(intros w0 t rest _ (sent & Ho & Hs); exists sent;
          split; [done|];
          eapply Forall_impl; [exact Hs|]; intros pm [Hreg Hsh];
          split; [|done]; by apply registered_events)
    ltac:(intros w0 pid m Hsh Hreg (sent & Ho & Hs);
          exists (sent ++ [(pid, m)]); simpl;
          split; [by rewrite Ho, app_assoc|];
          apply Forall_app; split; [done|]; by apply Forall_singleton)
    ltac:(intros w0 tid f _ _ (sent & Ho & Hs); exists sent;
          split; [done|];
          eapply Forall_impl; [exact Hs|]; intros pm [Hreg Hsh];
          split; [|done]; unfold registry; simpl;
          by rewrite update_tx_participants)).
  specialize (H
    ltac:(by intros w0 tid tx b _ _ _ ?)
    ltac:(by intros w0 ?)
    ltac:(intros pid tid; unfold shape; simpl; set_solver)
    ltac:(intros pid t tid tx Ht _; unfold shape; simpl; set_solver)
    w (recover_start I w Hw)).
  unfold w'.
  destruct (_handle_recover w) as [[a|[b|]|e] w1]; simpl in *.
  - by destruct H.
  - done.
  - by destruct H.
  - by destruct H as [? [? _]].
Qed.

(** X5. What [execute_transaction] does to the table and the registry,
    whatever happens meanwhile. Crashed, or with an empty registry, it
    returns false and changes nothing. Otherwise the table gains the record
    of the transaction and nothing else, the record has the data of the
    call and, as its snapshot, the registry as it was at the call, and the
    registry has only grown at its end. *)
Theorem execute_transaction_record tid d w :
  let '(o, w') := execute_transaction tid d w in
  if crashed (coord w) || bool_decide (participants (coord w) = [])
  then o = Return (Some false) ∧ w' = w
  else
    registry w `prefix_of` registry w' ∧
    PyDict.keys (transactions (coord w')) =
      PyDict.keys (PyDict.set tid (new_transaction d (registry w))
                     (transactions (coord w))) ∧
    ∃ tx, PyDict.get tid (transactions (coord w')) = Some tx ∧
          tx_data tx = d ∧ tx_participants tx = registry w.
Proof.
  destruct (crashed (coord w)) eqn:Hc; simpl.
  { unfold execute_transaction. erewrite bind_Continue by reflexivity.
    by rewrite Hc. }
  case_bool_decide as Hp.
  { by rewrite execute_transaction_unregistered. }
  set (I := λ w', registry w `prefix_of` registry w' ∧
    PyDict.keys (transactions (coord w')) =
      PyDict.keys (PyDict.set tid (new_transaction d (registry w))
                     (transactions (coord w))) ∧
    ∃ tx, PyDict.get tid (transactions (coord w')) = Some tx ∧
          tx_data tx = d ∧ tx_participants tx = registry w).
  pose proof (triple_execute_transaction I (λ _ _, True) (λ _, I)) as H.
  specialize (H
    ltac:(intros w0 t rest _ (Hreg & Hkeys & tx & Hget & Hd & Hs);
          split; [etrans; [exact Hreg|by apply registry_events]|];
          split; [simpl; by rewrite keys_events|];
          destruct (get_core_eq tid
                      (apply_events (events t) (coord w0)) (coord w0) tx)
            as (tx' & Hget' & Hcore);
            [symmetry; apply core_events|done|];
          exists tx'; split; [done|];
          unfold tx_core in Hcore; by injection Hcore as _ -> ->)
    ltac:(by intros w0 pid m _ _ ?)
    ltac:(intros w0 tid' f Hf _ (Hreg & Hkeys & tx & Hget & Hd & Hs);
          split; [unfold registry; simpl; by rewrite update_tx_participants|];
          split; [simpl; by rewrite keys_update_tx|];
          simpl; destruct (decide (tid' = tid)) as [->|Hne];
          [rewrite (get_update_tx_eq _ _ _ _ Hget); eexists; split; [done|];
           destruct (Hf tx) as [-> ->]; done
          |rewrite get_update_tx_ne by done; by exists tx])
    ltac:(done) ltac:(done) tid d ltac:(done)).
  specialize (H
    ltac:(intros w0 b (Hreg & Hkeys & tx & Hget & Hd & Hs) _;
          split; [unfold registry; simpl; by rewrite update_tx_participants|];
          split; [simpl; by rewrite keys_update_tx|];
          simpl; rewrite (get_update_tx_eq _ _ _ _ Hget);
          by eexists)
    (λ w0, w0 = w)
    ltac:(intros w0 -> [?|?]; congruence)
    ltac:(intros w0 -> _ _; split; [done|]; split; [done|];
          simpl; rewrite get_set_eq; by eexists)
    w eq_refl).
  by destruct (execute_transaction tid d w) as [[a|v|e] w'].
Qed.

(** ** Properties of the coordinator object alone *)

Lemma state_invariant_execute (Ic : State → Prop) tid d :
  (∀ c e, Ic c → Ic (apply_event c e)) →
  (∀ c tid' f, keeps f → is_Some (PyDict.get tid' (transactions c)) →
     Ic c → Ic (update_tx tid' f c)) →
  (∀ c, Ic c → crashed c = false → participants c ≠ [] →
     Ic (set_transactions
           (PyDict.set tid (new_transaction d (PyDict.keys (participants c)))
              (transactions c)) c)) →
  (∀ c b t, is_Some (PyDict.get tid (transactions c)) → Ic c →
     Ic (set_history (transaction_history c ++ [final_entry tid b d t]) c)) →
  ∀ w, Ic (coord w) → Ic (coord (execute_transaction tid d w).2).
Proof.
  intros Hev Hup Hnew Happ w Hw.
  pose proof (triple_execute_transaction (λ w, Ic (coord w)) (λ _ _, True)
                (λ _ w, Ic (coord w))) as H.
  specialize (H
    ltac:(intros w0 t rest _ H0; simpl; by apply I_events)
    ltac:(by intros w0 pid m _ _ ?)
    ltac:(intros w0 tid' f Hf Hk H0; simpl; by apply Hup)
    ltac:(done) ltac:(done) tid d ltac:(done)).
  specialize (H
    ltac:(intros w0 b H0 [tx Htx]; simpl; apply Happ;
          [rewrite (get_update_tx_eq _ _ _ _ Htx); by eexists
          |apply Hup; [done|by eexists|done]])
    (λ w, Ic (coord w)) ltac:(by intros w0 H0 _)
    ltac:(intros w0 H0 Hc Hp; simpl; by apply Hnew) w Hw).
  by destruct (execute_transaction tid d w) as [[a|v|e] w'].
Qed.

Lemma state_invariant_recover (Ic : State → Prop) :
  (∀ c e, Ic c → Ic (apply_event c e)) →
  (∀ c tid' f, keeps f → is_Some (PyDict.get tid' (transactions c)) →
     Ic c → Ic (update_tx tid' f c)) →
  (∀ c tid b tx t, PyDict.get tid (transactions c) = Some tx → Ic c →
     Ic (set_history
           (transaction_history c ++ [final_entry tid b (tx_data tx) t]) c)) →
  (∀ c, Ic c → Ic (set_crashed false c)) →
  ∀ w, Ic (coord w) → Ic (coord (_handle_recover w).2).
Proof.
  intros Hev Hup Happ Hcr w Hw.
  pose proof (triple_handle_recover (λ w, Ic (coord w)) (λ _ _, True)
                (registry w) (unfinished_txs (coord w))) as H.
  specialize (H
    ltac:(intros w0 t rest _ H0; simpl; by apply I_events)
    ltac:(by intros w0 pid m _ _ ?)
    ltac:(intros w0 tid' f Hf Hk H0; simpl; by apply Hup)
    ltac:(intros w0 tid tx b _ Hget _ H0; simpl; by eapply Happ)
    ltac:(intros w0 H0; simpl; by apply Hcr) ltac:(done) ltac:(done)
    w (recover_start _ w Hw)).
  destruct (_handle_recover w) as [[a|[b|]|e] w']; simpl in *.
  - by destruct H.
  - done.
  - by destruct H.
  - by destruct H as [? [? _]].
Qed.

End DriverLogic.

(** * The states a coordinator reaches *)
Module LifetimeProofs.
Import PyDictFacts Coordinator CoordinatorProofs Hoare DriverLogic Lifetime.

Lemma sound_event c e : sound c → sound (apply_event c e).
Proof.
  intros ([Hreg Htab] & Hsnap & Hhist). split; [|split].
  - split; [|by rewrite keys_event].
    destruct e as [f|]; [by apply registry_keys_NoDup|].
    simpl. unfold _handle_crash. by destruct (crashed c).
  - intros tid tx' Hget.
    destruct (get_core_eq tid c _ tx' (core_event tid c e) Hget)
      as (tx & Hget0 & Hcore).
    destruct (Hsnap tid tx Hget0) as (Hne & Hnd & Hpre).
    unfold tx_core in Hcore. injection Hcore as _ _ Hp. rewrite <- Hp.
    split; [done|]. split; [done|].
    etrans; [exact Hpre|]. by apply registry_event.
  - unfold history_terminal. rewrite history_event.
    eapply Forall_impl; [exact Hhist|]. intros h [Ht Hk]. split; [done|].
    eapply known_same_keys; [|done]. by rewrite keys_event.
Qed.

Lemma sound_update c tid f :
  keeps f → sound c → sound (update_tx tid f c).
Proof.
  intros Hf ([Hreg Htab] & Hsnap & Hhist). split; [|split].
  - split; [by rewrite update_tx_participants|by rewrite keys_update_tx].
  - intros tid0 tx' Hget. rewrite update_tx_participants.
    destruct (decide (tid = tid0)) as [->|Hne].
    + destruct (PyDict.get tid0 (transactions c)) as [tx|] eqn:E.
      * rewrite (get_update_tx_eq _ _ _ _ E) in Hget. injection Hget as <-.
        destruct (Hf tx) as [_ ->]. by apply (Hsnap tid0).
      * unfold update_tx in Hget. rewrite E in Hget. congruence.
    + rewrite get_update_tx_ne in Hget by done. by apply (Hsnap tid0).
  - unfold history_terminal. rewrite update_tx_history.
    eapply Forall_impl; [exact Hhist|]. intros h [Ht Hk]. split; [done|].
    eapply known_same_keys; [|done]. by rewrite keys_update_tx.
Qed.

Lemma sound_created c tid d :
  participants c ≠ [] → sound c →
  sound (set_transactions
           (PyDict.set tid (new_transaction d (PyDict.keys (participants c)))
              (transactions c)) c).
Proof.
  intros Hp ([Hreg Htab] & Hsnap & Hhist). split; [|split].
  - split; [done|]. simpl. by apply NoDup_keys_set.
  - intros tid0 tx' Hget. simpl in *.
    destruct (decide (tid = tid0)) as [->|Hne].
    + rewrite get_set_eq in Hget. injection Hget as <-. simpl.
      split; [|done]. destruct (participants c); [done|]. done.
    + rewrite get_set_ne in Hget by done. by apply (Hsnap tid0).
  - unfold history_terminal. simpl.
    eapply Forall_impl; [exact Hhist|]. intros h [Ht Hk]. split; [done|].
    destruct (decide (tid = h_transaction_id h)) as [->|Hne].
    + rewrite get_set_eq. by eexists.
    + by rewrite get_set_ne.
Qed.

Lemma sound_appended c e :
  terminal (h_status e) = true →
  is_Some (PyDict.get (h_transaction_id e) (transactions c)) →
  sound c → sound (set_history (transaction_history c ++ [e]) c).
Proof.
  intros Ht Hk (Hwf & Hsnap & Hhist). split; [done|]. split; [done|].
  unfold history_terminal. simpl. apply Forall_app. split; [done|].
  by apply Forall_singleton.
Qed.

Lemma reachable_sound c : Reachable c → sound c.
Proof.
  induction 1 as [|c e _ IH|w tid d _ IH|w _ IH].
  - split; [split; apply NoDup_nil_2|]. split; [by intros tid tx|].
    apply Forall_nil_2.
  - by apply sound_event.
  - revert IH. apply state_invariant_execute.
    + apply sound_event.
    + intros c tid' f Hf _. by apply sound_update.
    + intros c Hc _ Hp. by apply sound_created.
    + intros c b t Hk. apply sound_appended; [by destruct b|done].
  - revert IH. apply state_invariant_recover.
    + apply sound_event.
    + intros c tid' f Hf _. by apply sound_update.
    + intros c tid b tx t Hget. apply sound_appended; [by destruct b|].
      simpl. by rewrite Hget.
    + by intros c.
Qed.

(** X6. In every state the coordinator reaches, the snapshot of every
    transaction is not empty, has no duplicates and is the beginning of the
    registry: each participant of a snapshot is still registered, and the
    registry lists them in the order of the snapshot. *)
Theorem reachable_snapshots c : Reachable c → snapshots_registered c.
Proof. intros H. by destruct (reachable_sound c H) as (_ & ? & _). Qed.

(** X7. In every state the coordinator reaches, every history entry is the
    COMMITTED or ABORTED entry of a transaction that is in the table. *)
Theorem reachable_history c : Reachable c → history_terminal c.
Proof. intros H. by destruct (reachable_sound c H) as (_ & _ & ?). Qed.

Lemma reachable_snapshots_witness :
  Reachable Examples.after_commit ∧
  snapshots_registered Examples.after_commit.
Proof.
  assert (H : Reachable Examples.after_commit).
  { exact (reach_transaction Examples.p1_agrees "t1" Scenario.kv
             (reach_event init (EvFrame (REGISTER "P1" "localhost" 6001%Z))
                reach_init)). }
  split; [exact H|]. exact (reachable_snapshots Examples.after_commit H).
Defined.

Lemma reachable_history_witness :
  Reachable Examples.after_two ∧ history_terminal Examples.after_two.
Proof.
  assert (H1 : Reachable Examples.after_commit).
  { exact (reach_transaction Examples.p1_agrees "t1" Scenario.kv
             (reach_event init (EvFrame (REGISTER "P1" "localhost" 6001%Z))
                reach_init)). }
  assert (H : Reachable Examples.after_two).
  { exact (reach_transaction Examples.p1_agrees_again "t2" Scenario.kv H1). }
  split; [exact H|]. exact (reachable_history Examples.after_two H).
Defined.

End LifetimeProofs.

(** * A transaction on which every operator agrees *)
Module AgreementProofs.
Import PyDictFacts Coordinator CoordinatorProofs Hoare Schedules.

Lemma set_set {V} k (v1 v2 : V) d :
  PyDict.set k v2 (PyDict.set k v1 d) = PyDict.set k v2 d.
Proof.
  induction d as [|[k0 v0] d IH]; simpl.
  - by rewrite String.eqb_refl.
  - destruct (String.eqb k k0) eqn:E; simpl.
    + by rewrite String.eqb_refl.
    + by rewrite E, IH.
Qed.

Lemma match_nonempty {A B} (l : list A) (x y : B) :
  l ≠ [] → match l with [] => x | _ :: _ => y end = y.
Proof. by destruct l. Qed.

Lemma record_all_lookup {V} (v : V) L m p :
  record_all v L m !! p = if decide (p ∈ L) then Some v else m !! p.
Proof.
  unfold record_all. revert m. induction L as [|q L IH]; intros m;
    cbn [fold_left].
  - destruct (decide (p ∈ [])) as [Hin|]; [|done].
    by apply elem_of_nil in Hin.
  - rewrite IH.
    destruct (decide (p ∈ L)) as [Hin|Hnin],
             (decide (p ∈ q :: L)) as [Hin'|Hnin']; try done.
    + exfalso. apply Hnin'. by right.
    + apply elem_of_cons in Hin' as [->|?]; [|done].
      by rewrite lookup_insert_eq.
    + rewrite lookup_insert_ne; [done|]. intros <-. apply Hnin'. left.
Qed.

Lemma record_all_dom {V} (v : V) L :
  dom (record_all v L (∅ : gmap string V)) = list_to_set L.
Proof.
  apply set_eq. intros p.
  rewrite elem_of_dom, record_all_lookup, elem_of_list_to_set, lookup_empty.
  destruct (decide (p ∈ L)); split; intros H0; try done.
Qed.

Lemma record_all_size {V} (v : V) L :
  NoDup L → size (record_all v L (∅ : gmap string V)) = length L.
Proof. intros Hnd. apply size_covering; [done|apply record_all_dom]. Qed.

Lemma record_all_filled {V} (v v' : V) L :
  fill_missing v' L (record_all v L ∅) = record_all v L ∅.
Proof.
  apply map_eq. intros p. rewrite fill_missing_lookup, record_all_lookup.
  destruct (decide (p ∈ L)); [done|]. by rewrite lookup_empty.
Qed.

Lemma record_all_yes L : all_values (record_all true L ∅) = true.
Proof.
  apply all_values_spec. intros p b. rewrite record_all_lookup.
  destruct (decide (p ∈ L)); [congruence|]. by rewrite lookup_empty.
Qed.

Lemma record_all_count s L :
  NoDup L → count_values s (record_all s L ∅) = length L.
Proof.
  intros Hnd. rewrite <- (record_all_size s L Hnd).
  apply count_values_full. intros p x. rewrite record_all_lookup.
  destruct (decide (p ∈ L)); [congruence|]. by rewrite lookup_empty.
Qed.

Ltac norm :=
  cbv [with_status with_votes with_votep with_acks new_transaction];
  cbn [tx_data tx_participants tx_votes tx_votep tx_votec tx_acks tx_status].

Section Agreement.
Variable P : list (string * (string * Z)).
Variable T0 : list (string * Transaction).
Variable H : list HistoryEntry.
Variable N : Z.
Variable tid : string.
Hypothesis P_nonempty : P ≠ [].
Hypothesis P_NoDup : NoDup (PyDict.keys P).

Local Abbreviation at_ := (steady P T0 H N tid).

Lemma at_get tx E O : get_tx tid (at_ tx E O) = (Continue tx, at_ tx E O).
Proof. apply get_tx_run. simpl. apply get_set_eq. Qed.

Lemma at_modify f tx E O :
  modify_tx tid f (at_ tx E O) = (Continue tt, at_ (f tx) E O).
Proof.
  erewrite modify_tx_run by (simpl; apply get_set_eq).
  unfold steady, set_coord, update_tx. simpl. rewrite get_set_eq. simpl.
  by rewrite set_set.
Qed.

Lemma at_send p m tx E O :
  p ∈ PyDict.keys P →
  _send_message p m false (at_ tx (idle :: E) O) =
  (Continue None, at_ tx E (O ++ [(p, m)])).
Proof.
  intros Hp. unfold _send_message.
  erewrite bind_Continue by reflexivity. simpl.
  assert (PyDict.mem p P = true) as -> by (by apply mem_true).
  reflexivity.
Qed.

Lemma at_cancommit_sends m plist votes votep tx E O :
  (∀ p, p ∈ plist → p ∈ PyDict.keys P) →
  cancommit_sends m plist votes votep
    (at_ tx (silent (length plist) ++ E) O) =
  (Continue (votes, votep), at_ tx E (O ++ map (λ p, (p, m)) plist)).
Proof.
  revert O. induction plist as [|p plist IH]; intros O Hsub; simpl.
  - by rewrite app_nil_r.
  - erewrite bind_Continue by (apply at_send, Hsub; left).
    simpl. rewrite IH by (intros q Hq; apply Hsub; by right).
    by rewrite <- app_assoc.
Qed.

Lemma at_precommit_sends m plist votep tx E O :
  (∀ p, p ∈ plist → p ∈ PyDict.keys P) →
  precommit_sends tid m plist votep
    (at_ tx (silent (length plist) ++ E) O) =
  (Continue votep, at_ tx E (O ++ map (λ p, (p, m)) plist)).
Proof.
  revert O. induction plist as [|p plist IH]; intros O Hsub; simpl.
  - by rewrite app_nil_r.
  - erewrite bind_Continue by (apply at_send, Hsub; left).
    simpl. rewrite IH by (intros q Hq; apply Hsub; by right).
    by rewrite <- app_assoc.
Qed.

Lemma at_ack_sends cc m expect ks acks tx E O :
  (∀ p, p ∈ ks → p ∈ PyDict.keys P) →
  ack_sends cc m expect (length P) ks acks
    (at_ tx (silent (length ks) ++ E) O) =
  (Continue acks, at_ tx E (O ++ map (λ p, (p, m)) ks)).
Proof.
  revert O. induction ks as [|p ks IH]; intros O Hsub; simpl.
  - erewrite bind_Continue by reflexivity. simpl.
    by rewrite Nat.eqb_refl, app_nil_r.
  - erewrite bind_Continue by reflexivity. simpl.
    rewrite Nat.eqb_refl, andb_false_r. simpl.
    erewrite bind_Continue by (apply at_send, Hsub; left).
    rewrite IH by (intros q Hq; apply Hsub; by right).
    by rewrite <- app_assoc.
Qed.

Lemma at_votes L tx (b : bool) :
  apply_events
    (map (λ p, EvFrame (VOTE_RESPONSE p
       (Participant.bare (if b then CANCOMMIT_VOTE_YES else PRECOMMIT_VOTE_YES)
          tid))) L)
    (coord (at_ tx [] [])) =
  coord (at_ ((if b then with_votes (record_all true L)
               else with_votep (record_all true L)) tx) [] []).
Proof.
  unfold apply_events. revert tx. induction L as [|p L IH]; intros tx.
  - simpl. by destruct tx, b.
  - cbn [map fold_left]. 
    assert (apply_event (coord (at_ tx [] []))
              (EvFrame (VOTE_RESPONSE p (Participant.bare
                 (if b then CANCOMMIT_VOTE_YES else PRECOMMIT_VOTE_YES) tid)))
            = coord (at_ ((if b then with_votes (insert p true)
                           else with_votep (insert p true)) tx) [] [])) as ->.
    { simpl. unfold _handle_participant_connection. simpl.
      rewrite get_set_eq. unfold update_tx. simpl. rewrite get_set_eq.
      simpl. rewrite set_set. by destruct b. }
    rewrite IH. by destruct tx, b.
Qed.

Lemma at_acks L tx :
  apply_events
    (map (λ p, EvFrame (ACK_RESPONSE p (Participant.bare ACK_COMMIT tid))) L)
    (coord (at_ tx [] [])) =
  coord (at_ (with_acks (record_all "ACK_COMMIT" L) tx) [] []).
Proof.
  unfold apply_events. revert tx. induction L as [|p L IH]; intros tx.
  - simpl. by destruct tx.
  - cbn [map fold_left].
    assert (apply_event (coord (at_ tx [] []))
              (EvFrame (ACK_RESPONSE p (Participant.bare ACK_COMMIT tid)))
            = coord (at_ (with_acks (insert p "ACK_COMMIT") tx) [] [])) as ->.
    { simpl. unfold _handle_participant_connection. simpl.
      rewrite get_set_eq. unfold update_tx. simpl. rewrite get_set_eq.
      simpl. by rewrite set_set. }
    rewrite IH. by destruct tx.
Qed.

Lemma at_sleep t tx tx' E O :
  apply_events (events t) (coord (at_ tx [] [])) = coord (at_ tx' [] []) →
  sleep (at_ tx (t :: E) O) = (Continue tt, at_ tx' E O).
Proof.
  intros Hev. unfold sleep, suspend, mbind, driver_bind. simpl.
  unfold steady in *. simpl in *. by rewrite Hev.
Qed.

(** A wait that finds the answers missing, sleeps once and finds them
    all. *)
Lemma at_wait_votes field n plist t tx tx' E O :
  size (field tx) ≠ length plist → size (field tx') = length plist →
  apply_events (events t) (coord (at_ tx [] [])) = coord (at_ tx' [] []) →
  wait_votes field (S (S n)) tid plist (at_ tx (t :: E) O) =
  (Continue tt, at_ tx' E O).
Proof.
  intros Hne Heq Hev. cbn [wait_votes].
  erewrite bind_Continue by reflexivity. simpl.
  erewrite bind_Continue by apply at_get.
  apply Nat.eqb_neq in Hne. rewrite Hne.
  erewrite bind_Continue by (by apply at_sleep).
  erewrite bind_Continue by reflexivity. simpl.
  erewrite bind_Continue by apply at_get.
  by rewrite Heq, Nat.eqb_refl.
Qed.

Lemma at_wait_acks n target t tx tx' E O :
  size (tx_acks tx) ≠ target →
  size (tx_acks tx') = target →
  apply_events (events t) (coord (at_ tx [] [])) = coord (at_ tx' [] []) →
  wait_acks (S (S n)) tid (λ _, target) (at_ tx (t :: E) O) =
  (Continue tt, at_ tx' E O).
Proof.
  intros Hne Heq Hev. cbn [wait_acks].
  erewrite bind_Continue by reflexivity. simpl.
  erewrite bind_Continue by apply at_get.
  apply Nat.eqb_neq in Hne. rewrite Hne.
  erewrite bind_Continue by (by apply at_sleep).
  erewrite bind_Continue by reflexivity. simpl.
  erewrite bind_Continue by apply at_get.
  by rewrite Heq, Nat.eqb_refl.
Qed.

Lemma all_agree_app K E :
  all_agree tid K ++ E =
  silent (length K) ++ arrival (cancommit_yes tid) K ::
  silent (length K) ++ arrival (precommit_yes tid) K ::
  silent (length K) ++ arrival (commit_ack tid) K :: E.
Proof. unfold all_agree. by rewrite <- !app_assoc. Qed.

Lemma keys_nonempty : length (PyDict.keys P) ≠ 0.
Proof. rewrite length_keys. by destruct P. Qed.

Lemma agreement_run d E O :
  let K := PyDict.keys P in
  execute_transaction tid d
    {| coord := {| participants := P; transactions := T0;
                   transaction_history := H; crashed := false |};
       env := all_agree tid K ++ E; outbox := O; now := N |} =
  (Return (Some true),
   {| coord := {| participants := P;
                  transactions := PyDict.set tid (agreed K d) T0;
                  transaction_history := H ++ [final_entry tid true d N];
                  crashed := false |};
      env := E;
      outbox := O ++ to_all CANCOMMIT tid d K ++ to_all PRECOMMIT tid d K ++
                to_all COMMIT tid d K;
      now := N |}).
Proof.
  intros K. pose proof keys_nonempty as HK. fold K in HK.
  pose proof (record_all_size true K P_NoDup) as Hsize.
  pose proof (record_all_size "ACK_COMMIT" K P_NoDup) as Hsize'.
  rewrite all_agree_app. unfold execute_transaction.
  erewrite bind_Continue by reflexivity. cbn [coord crashed participants].
  rewrite (match_nonempty P _ _ P_nonempty).
  erewrite bind_Continue by reflexivity.
  erewrite bind_Continue by reflexivity. cbv zeta.
  change (PyDict.keys (participants (coord _))) with K.
  change (set_coord _ _) with
    (at_ (new_transaction d K)
       (silent (length K) ++ arrival (cancommit_yes tid) K ::
        silent (length K) ++ arrival (precommit_yes tid) K ::
        silent (length K) ++ arrival (commit_ack tid) K :: E) O).
  erewrite bind_Continue by apply at_modify.
  erewrite bind_Continue by (by apply at_cancommit_sends).
  norm.
  erewrite bind_Continue by apply at_modify.
  norm.
  erewrite bind_Continue.
  2:{ apply at_wait_votes with
        (tx' := with_votes (record_all true K)
                  {| tx_data := d; tx_participants := K; tx_votes := ∅;
                     tx_votep := ∅; tx_votec := ∅; tx_acks := ∅;
                     tx_status := WAITING |}).
      - simpl. rewrite map_size_empty. done.
      - done.
      - apply (at_votes K _ true). }
  unfold after_cancommit_wait, cancommit_tally.
  erewrite bind_Continue.
  2:{ erewrite bind_Continue by apply at_modify.
      erewrite bind_Continue by apply at_get. cbv zeta.
      erewrite bind_Continue by apply at_modify. reflexivity. }
  norm.
  rewrite record_all_filled, record_all_yes.
  unfold precommit_phase.
  erewrite bind_Continue by apply at_modify.
  erewrite bind_Continue by (by apply at_precommit_sends).
  erewrite bind_Continue by apply at_modify.
  norm.
  erewrite bind_Continue.
  2:{ apply at_wait_votes with
        (tx' := with_votep (record_all true K)
                  {| tx_data := d; tx_participants := K;
                     tx_votes := record_all true K ∅;
                     tx_votep := ∅; tx_votec := ∅; tx_acks := ∅;
                     tx_status := PREPARING |}).
      - simpl. rewrite map_size_empty. done.
      - done.
      - apply (at_votes K _ false). }
  unfold precommit_tally.
  erewrite bind_Continue.
  2:{ erewrite bind_Continue by apply at_modify.
      erewrite bind_Continue by apply at_get. cbv zeta.
      erewrite bind_Continue by apply at_modify. reflexivity. }
  norm.
  rewrite record_all_filled, record_all_yes.
  erewrite bind_Continue by reflexivity. cbn [coord crashed steady].
  unfold docommit_phase.
  erewrite bind_Continue by apply at_modify.
  erewrite bind_Continue by reflexivity.
  cbn [coord participants steady].
  erewrite bind_Continue by (by apply at_ack_sends).
  erewrite bind_Continue by apply at_modify.
  norm.
  erewrite bind_Continue.
  2:{ apply at_wait_acks with
        (tx' := with_acks (record_all "ACK_COMMIT" K)
                  {| tx_data := d; tx_participants := K;
                     tx_votes := record_all true K ∅;
                     tx_votep := record_all true K ∅;
                     tx_votec := ∅; tx_acks := ∅;
                     tx_status := COMMITTING |}).
      - simpl. rewrite map_size_empty. done.
      - done.
      - apply at_acks. }
  unfold docommit_tally.
  erewrite bind_Continue by apply at_modify.
  erewrite bind_Continue by apply at_get. cbv zeta.
  norm.
  rewrite record_all_filled, record_all_count by done.
  rewrite Nat.ltb_irrefl.
  erewrite bind_Continue by apply at_modify.
  erewrite bind_Continue by apply append_history_run.
  unfold return_, steady, set_coord, set_history, agreed, to_all. simpl.
  by rewrite <- !app_assoc.
Qed.

End Agreement.

(** X8. When the coordinator is up, has participants, and during each phase no
    participant answers at once but every operator has agreed by the end
    of the first second of the wait, [execute_transaction] returns [True]:
    the three requests went to every participant in the order of
    registration, the record holds a yes vote twice and an ACK_COMMIT for
    each of them with the status COMMITTED, and the history has one more
    entry, the COMMITTED one. *)
Theorem all_agree_commits tid d w E :
  crashed (coord w) = false →
  participants (coord w) ≠ [] →
  NoDup (registry w) →
  env w = all_agree tid (registry w) ++ E →
  execute_transaction tid d w =
  (Return (Some true),
   {| coord :=
        {| participants := participants (coord w);
           transactions :=
             PyDict.set tid (agreed (registry w) d) (transactions (coord w));
           transaction_history :=
             transaction_history (coord w) ++
             [final_entry tid true d (now w)];
           crashed := false |};
      env := E;
      outbox := outbox w ++ to_all CANCOMMIT tid d (registry w) ++
                to_all PRECOMMIT tid d (registry w) ++
                to_all COMMIT tid d (registry w);
      now := now w |}).
Proof.
  destruct w as [[P T0 H c] env0 O N]. unfold registry. simpl.
  intros -> HP HK ->. by apply agreement_run.
Qed.

Lemma all_agree_commits_witness :
  crashed (coord Examples.both_agree) = false ∧
  participants (coord Examples.both_agree) ≠ [] ∧
  NoDup (registry Examples.both_agree) ∧
  (execute_transaction "t1" Scenario.kv Examples.both_agree).1 =
    Return (Some true) ∧
  outbox (execute_transaction "t1" Scenario.kv Examples.both_agree).2 =
    to_all CANCOMMIT "t1" Scenario.kv ["P1"; "P2"] ++
    to_all PRECOMMIT "t1" Scenario.kv ["P1"; "P2"] ++
    to_all COMMIT "t1" Scenario.kv ["P1"; "P2"].
Proof.
  assert (H1 : crashed (coord Examples.both_agree) = false) by reflexivity.
  assert (H2 : participants (coord Examples.both_agree) ≠ [])
    by discriminate.
  assert (H3 : NoDup (registry Examples.both_agree)).
  { apply (bool_decide_unpack _). vm_compute. exact I. }
  split; [exact H1|]. split; [exact H2|]. split; [exact H3|].
  rewrite (all_agree_commits "t1" Scenario.kv Examples.both_agree
             [Scenario.tick [EvFrame (REGISTER "P1" "localhost" 6001%Z)]]
             H1 H2 H3 eq_refl).
  split; reflexivity.
Defined.

End AgreementProofs.

(** * Registration, crash and recovery of the coordinator *)
Module CoordinatorLaws.
Import PyDictFacts CoordinatorProofs.

(** X9. Registration, whether the coordinator is up or crashed: it is answered
    [OK], the registry holds the address under the id, a participant that
    registers again keeps its place in the order of the registry, a new one
    is put at its end, and no other address, no record and no history entry
    changes. *)
Theorem registration_keeps_order c pid h pt :
  let '(c', r) :=
    Coordinator._handle_participant_connection (REGISTER pid h pt) c in
  let K := PyDict.keys (Coordinator.participants c) in
  r = Some OK ∧
  PyDict.get pid (Coordinator.participants c') = Some (h, pt) ∧
  PyDict.keys (Coordinator.participants c') =
    (if bool_decide (pid ∈ K) then K else K ++ [pid]) ∧
  (∀ q, q ≠ pid →
     PyDict.get q (Coordinator.participants c') =
     PyDict.get q (Coordinator.participants c)) ∧
  Coordinator.transactions c' = Coordinator.transactions c ∧
  Coordinator.transaction_history c' = Coordinator.transaction_history c ∧
  Coordinator.crashed c' = Coordinator.crashed c.
Proof.
  unfold Coordinator._handle_participant_connection. simpl.
  rewrite andb_false_r. simpl.
  split; [done|]. split; [apply get_set_eq|]. split.
  - case_bool_decide as Hin.
    + by apply keys_set_present, get_is_Some_keys.
    + apply keys_set_absent.
      destruct (PyDict.get pid (Coordinator.participants c)) eqn:E; [|done].
      exfalso. apply Hin, get_is_Some_keys. by rewrite E.
  - split; [|done]. intros q Hq. by apply get_set_ne.
Qed.

(** X10. What the participants report to the QUERY_STATE of the recovery does
    not enter the decision: for any two sets of reports the recovery does
    the same to a transaction, that is what the status of its record and
    its CanCommit votes say. *)
Theorem recovery_ignores_reports tid reports reports' w :
  Coordinator.recovery_decision tid reports w =
  Coordinator.recovery_decision tid reports' w.
Proof.
  unfold Coordinator.recovery_decision, mbind, Coordinator.driver_bind.
  destruct (Coordinator.get_tx tid w) as [[tx|v|e] w']; [|done..].
  destruct (Coordinator.tx_status tx); try done; by repeat case_match.
Qed.

Lemma crashed_event c e :
  Coordinator.crashed c = true →
  let c' := Coordinator.apply_event c e in
  Coordinator.crashed c' = true ∧
  Coordinator.transactions c' = Coordinator.transactions c ∧
  Coordinator.transaction_history c' = Coordinator.transaction_history c.
Proof.
  intros Hc. destruct e as [f|]; simpl.
  - unfold Coordinator._handle_participant_connection. rewrite Hc.
    destruct f; simpl; done.
  - unfold Coordinator._handle_crash. by rewrite Hc.
Qed.

(** X11. While the coordinator is crashed, what arrives is lost: whatever
    frames the listener serves and whatever the operator types short of
    [recover], the coordinator stays crashed and no record and no history
    entry changes; a vote or an ACK gets no reply. *)
Theorem crashed_coordinator_drops_frames c es :
  Coordinator.crashed c = true →
  let c' := Coordinator.apply_events es c in
  Coordinator.crashed c' = true ∧
  Coordinator.transactions c' = Coordinator.transactions c ∧
  Coordinator.transaction_history c' = Coordinator.transaction_history c ∧
  ∀ pid m,
    Coordinator._handle_participant_connection (VOTE_RESPONSE pid m) c' =
      (c', None) ∧
    Coordinator._handle_participant_connection (ACK_RESPONSE pid m) c' =
      (c', None).
Proof.
  revert c. induction es as [|e es IH]; intros c Hc; simpl.
  - repeat split; try done;
      unfold Coordinator._handle_participant_connection; by rewrite Hc.
  - destruct (crashed_event c e Hc) as (Hc' & Ht & Hh).
    destruct (IH _ Hc') as (? & ? & ? & ?).
    repeat split; try congruence; apply H2.
Qed.

Lemma crashed_coordinator_drops_frames_witness :
  Coordinator.crashed Examples.started_then_crashed = true ∧
  Coordinator.transactions
    (Coordinator.apply_events Examples.while_down
       Examples.started_then_crashed) =
  Coordinator.transactions Examples.started_then_crashed.
Proof.
  assert (H : Coordinator.crashed Examples.started_then_crashed = true)
    by reflexivity.
  split; [exact H|].
  exact (proj1 (proj2 (crashed_coordinator_drops_frames
                         Examples.started_then_crashed Examples.while_down
                         H))).
Defined.

End CoordinatorLaws.

(** * The participant over any sequence of operations *)
Module ParticipantLaws.
Import Participant ParticipantProofs Observation.

Lemma run_cons p o ops :
  run p (o :: ops) =
  ((run (step p o).1 ops).1, (step p o).2 ++ (run (step p o).1 ops).2).
Proof.
  simpl. destruct (step p o) as [p' out]. simpl.
  by destruct (run p' ops) as [p'' out'].
Qed.

Lemma replay_committed history p :
  dom (committed_transactions p) ⊆
    dom (committed_transactions (fold_left replay history p)) ∧
  aborted_transactions p ⊆
    aborted_transactions (fold_left replay history p).
Proof.
  revert p. induction history as [|r history IH]; intros p; simpl; [done|].
  destruct (IH (replay p r)) as [Hc Ha].
  split.
  - etrans; [|exact Hc]. unfold replay.
    destruct (h_status r); simpl; try done. set_solver.
  - etrans; [|exact Ha]. unfold replay.
    destruct (h_status r); simpl; try done. set_solver.
Qed.

Lemma step_terminal_grow p o :
  dom (committed_transactions p) ⊆ dom (committed_transactions (step p o).1) ∧
  aborted_transactions p ⊆ aborted_transactions (step p o).1.
Proof.
  destruct o as [m d1 d2|t tid' net|v net|v net|a net| |reg r|rate]; simpl.
  - unfold _handle_request. destruct (crashed p); [done|].
    unfold _process_message.
    destruct (simulated_failure p d1); [by case_bool_decide|].
    destruct (msg_type m); try done; simpl.
    + unfold _handle_cancommit. by destruct (simulated_failure p d2).
    + unfold _handle_precommit. by destruct (simulated_failure p d2).
    + unfold _handle_commit. by case_bool_decide.
  - destruct t; simpl.
    + unfold _wait_for_cancommit_vote.
      destruct (holds (pending_vote p) tid'); [|done].
      unfold _send_cancommit_vote_to_coordinator. by destruct net.
    + unfold _wait_for_precommit_vote.
      destruct (holds (pending_vote p) tid'); [|done].
      unfold _send_precommit_vote_to_coordinator. by destruct net.
    + unfold _wait_for_ack_commit.
      destruct (pending_commit p) as [[t0 d0]|]; [|done].
      case_bool_decide; [|done]. simpl. unfold do_commit.
      case_bool_decide; simpl; [|done]. set_solver.
    + unfold _wait_for_ack_abort.
      destruct (holds (pending_abort p) tid'); [|done]. simpl. set_solver.
  - unfold _handle_cancommit_vote_command.
    destruct v as [v|]; [|done].
    destruct (pending_vote p) as [[t0 d0]|]; [|done].
    unfold _send_cancommit_vote_to_coordinator.
    destruct net; simpl; [|done]. by destruct v.
  - unfold _handle_precommit_vote_command.
    destruct v as [v|]; [|done].
    destruct (pending_vote p) as [[t0 d0]|]; [|done].
    unfold _send_precommit_vote_to_coordinator.
    destruct net; simpl; [|done]. by destruct v.
  - unfold _handle_ack_command, do_commit, do_abort.
    destruct a as [[|]|]; [| |done].
    + destruct (pending_commit p) as [[t0 d0]|]; [|done]. simpl.
      case_bool_decide; simpl; [|done]. set_solver.
    + destruct (pending_commit p) as [[t0 d0]|]; [simpl; set_solver|].
      destruct (pending_abort p) as [[t0 d0]|]; [|done].
      simpl. set_solver.
  - unfold _handle_crash. by destruct (crashed p).
  - unfold _handle_recover. destruct (negb (crashed p)); [done|].
    destruct (negb reg); [done|].
    unfold _request_history_from_coordinator.
    destruct r as [r|]; [|done].
    case_bool_decide; [|done].
    destruct (data r); try done. simpl. apply replay_committed.
  - unfold _set_failure_rate. by destruct (_ && _).
Qed.

(** X12. What a participant has committed or aborted stays so: no operation,
    crash and recovery included, takes a transaction out of the committed
    transactions or out of the aborted set; and a transaction that is
    committed is reported as COMMITTED to a state query, whatever other set
    it is in. *)
Theorem terminal_sets_grow p ops :
  let p' := (run p ops).1 in
  dom (committed_transactions p) ⊆ dom (committed_transactions p') ∧
  aborted_transactions p ⊆ aborted_transactions p' ∧
  ∀ tid, tid ∈ dom (committed_transactions p) →
    ∃ d, committed_transactions p' !! tid = Some d ∧
         _handle_query_state (bare QUERY_STATE tid) p' =
           (p', [Respond {| msg_type := STATE_RESPONSE;
                            transaction_id := tid;
                            data := PState "COMMITTED" d |}]).
Proof.
  assert (Hgrow : ∀ ops p,
    dom (committed_transactions p) ⊆
      dom (committed_transactions (run p ops).1) ∧
    aborted_transactions p ⊆ aborted_transactions (run p ops).1).
  { clear. intros ops. induction ops as [|o ops IH]; intros p; [done|].
    rewrite run_cons. simpl.
    destruct (step_terminal_grow p o) as [Hc Ha].
    destruct (IH (step p o).1) as [Hc' Ha'].
    split; by etrans. }
  intros p'. subst p'. destruct (Hgrow ops p) as [Hc Ha].
  split; [done|]. split; [done|].
  intros tid Hin. apply Hc in Hin. apply elem_of_dom in Hin as [d Hd].
  exists d. split; [done|].
  unfold _handle_query_state. simpl. by rewrite Hd.
Qed.

(** ** One vote for one delivery *)

Lemma votes_cast_app tid out out' :
  votes_cast tid (out ++ out') =
  (votes_cast tid out + votes_cast tid out')%nat.
Proof. unfold votes_cast. by rewrite List.filter_app, length_app. Qed.

Lemma silent_votes_cast tid out :
  silent_on tid out → votes_cast tid out = 0%nat.
Proof.
  unfold silent_on, votes_cast. induction out as [|o out IH]; [done|].
  simpl. intros [Ho Hout]%andb_true_iff. apply negb_true_iff in Ho.
  rewrite Ho. by apply IH.
Qed.

Lemma step_one_vote tid p o :
  delivers tid o = false →
  (votes_cast tid (step p o).2 ≤ 1)%nat ∧
  (holds (pending_vote (step p o).1) tid = true →
   holds (pending_vote p) tid = true ∧ votes_cast tid (step p o).2 = 0%nat).
Proof.
  intros Hdel. unfold votes_cast.
  destruct o as [m d1 d2|t tid' net|v net|v net|a net| |reg r|rate]; simpl.
  - unfold _handle_request. destruct (crashed p); [simpl; auto with lia|].
    unfold _process_message. simpl in Hdel.
    destruct (bool_decide (transaction_id m = tid)) eqn:Ht.
    + rewrite andb_true_r in Hdel. apply orb_false_iff in Hdel as [H1 H2].
      rewrite H1.
      destruct (simulated_failure p d1); [simpl; auto with lia|].
      apply bool_decide_eq_false in H1, H2.
      destruct (msg_type m) eqn:Hm; try done; simpl; auto with lia.
      unfold _handle_commit.
        destruct (bool_decide (_ ∈ prepared_transactions p)); simpl;
          auto with lia.
    + destruct (simulated_failure p d1).
      { case_bool_decide; simpl; rewrite ?Ht, ?andb_false_r; simpl;
          auto with lia. }
      destruct (msg_type m) eqn:Hm; simpl; auto with lia.
      * unfold _handle_cancommit.
        destruct (simulated_failure p d2); simpl;
          rewrite ?Ht, ?andb_false_r; simpl; auto with lia.
      * unfold _handle_precommit.
        destruct (simulated_failure p d2); simpl;
          rewrite ?Ht, ?andb_false_r; simpl; auto with lia.
      * unfold _handle_commit.
        destruct (bool_decide (_ ∈ prepared_transactions p)); simpl;
          auto with lia.
  - destruct t; simpl.
    + unfold _wait_for_cancommit_vote.
      destruct (holds (pending_vote p) tid') eqn:Hh; [|simpl; auto with lia].
      unfold _send_cancommit_vote_to_coordinator.
      destruct net; simpl; [|auto with lia].
      split; [|done]. destruct (bool_decide (tid' = tid)); simpl; lia.
    + unfold _wait_for_precommit_vote.
      destruct (holds (pending_vote p) tid') eqn:Hh; [|simpl; auto with lia].
      unfold _send_precommit_vote_to_coordinator.
      destruct net; simpl; [|auto with lia].
      split; [|done]. destruct (bool_decide (tid' = tid)); simpl; lia.
    + unfold _wait_for_ack_commit.
      destruct (pending_commit p) as [[t0 d0]|]; [|simpl; auto with lia].
      case_bool_decide; [|simpl; auto with lia]. simpl.
      unfold do_commit, _send_ack_to_coordinator.
      destruct net; simpl; case_bool_decide; simpl; auto with lia.
    + unfold _wait_for_ack_abort.
      destruct (holds (pending_abort p) tid'); [|simpl; auto with lia].
      simpl. unfold _send_ack_to_coordinator.
      destruct net; simpl; auto with lia.
  - unfold _handle_cancommit_vote_command.
    destruct v as [v|]; [|simpl; auto with lia].
    destruct (pending_vote p) as [[t0 d0]|] eqn:Hp;
      [|simpl; rewrite Hp; auto with lia].
    unfold _send_cancommit_vote_to_coordinator.
    destruct net; simpl; [|auto with lia].
    destruct v; simpl; (split; [|done]);
      destruct (bool_decide (t0 = tid)); simpl; lia.
  - unfold _handle_precommit_vote_command.
    destruct v as [v|]; [|simpl; auto with lia].
    destruct (pending_vote p) as [[t0 d0]|] eqn:Hp;
      [|simpl; rewrite Hp; auto with lia].
    unfold _send_precommit_vote_to_coordinator.
    destruct net; simpl; [|auto with lia].
    destruct v; simpl; (split; [|done]);
      destruct (bool_decide (t0 = tid)); simpl; lia.
  - unfold _handle_ack_command, _send_ack_to_coordinator, do_commit, do_abort.
    destruct a as [[|]|]; [| |simpl; auto with lia].
    + destruct (pending_commit p) as [[t0 d0]|]; [|simpl; auto with lia].
      simpl. destruct net; simpl; case_bool_decide; simpl; auto with lia.
    + destruct (pending_commit p) as [[t0 d0]|].
      { simpl. destruct net; simpl; auto with lia. }
      destruct (pending_abort p) as [[t0 d0]|]; [|simpl; auto with lia].
      simpl. destruct net; simpl; auto with lia.
  - unfold _handle_crash. destruct (crashed p); simpl; auto with lia.
  - unfold _handle_recover. destruct (negb (crashed p)); [simpl; auto with lia|].
    destruct (negb reg); [simpl; auto with lia|].
    unfold _request_history_from_coordinator.
    destruct r as [r|]; [|simpl; auto with lia].
    case_bool_decide; [|simpl; auto with lia].
    destruct (data r); try (simpl; auto with lia). simpl.
    rewrite replay_pending_vote. auto with lia.
  - unfold _set_failure_rate. destruct (_ && _); simpl; auto with lia.
Qed.

(** X13. For one delivery of a CANCOMMIT or PRECOMMIT the coordinator gets at
    most one vote: as long as the message is not delivered again, whatever
    the operator types and whichever timeout threads fire, in any order, at
    most one vote on the transaction leaves the participant. *)
Theorem one_vote_per_delivery tid p ops :
  forallb (λ o, negb (delivers tid o)) ops = true →
  (votes_cast tid (run p ops).2 ≤ 1)%nat.
Proof.
  revert p. induction ops as [|o ops IH]; intros p Hops;
    [unfold votes_cast; simpl; lia|].
  simpl in Hops. apply andb_true_iff in Hops as [Ho Hops].
  apply negb_true_iff in Ho.
  rewrite run_cons. simpl. rewrite votes_cast_app.
  destruct (step_one_vote tid p o Ho) as [Hle Hkeep].
  destruct (holds (pending_vote (step p o).1) tid) eqn:Hh.
  - destruct Hkeep as [_ ->]; [done|]. simpl. by apply IH.
  - destruct (run_silent tid ops (step p o).1 Hh Hops) as [_ Hsil].
    rewrite (silent_votes_cast _ _ Hsil). lia.
Qed.

(** ** No commit without agreement *)

Lemma replay_pending_commit history p :
  pending_commit (fold_left replay history p) = pending_commit p.
Proof.
  revert p. induction history as [|r history IH]; intros p; simpl; [done|].
  rewrite IH. unfold replay. by destruct (h_status r).
Qed.

Lemma replay_prepared history p :
  prepared_transactions (fold_left replay history p) ⊆ prepared_transactions p.
Proof.
  revert p. induction history as [|r history IH]; intros p; simpl; [done|].
  etrans; [apply IH|]. unfold replay.
  destruct (h_status r); simpl; set_solver.
Qed.

Lemma step_commits tid p o :
  tid ∉ dom (committed_transactions p) → recovers o = false →
  tid ∈ dom (committed_transactions (step p o).1) →
  tid ∈ prepared_transactions p ∧ holds (pending_commit p) tid = true.
Proof.
  intros Hnot Hrec.
  destruct o as [m d1 d2|t tid' net|v net|v net|a net| |reg r|rate];
    simpl; try done.
  - unfold _handle_request. destruct (crashed p); [done|].
    unfold _process_message.
    destruct (simulated_failure p d1); [by case_bool_decide|].
    destruct (msg_type m); try done; simpl.
    + unfold _handle_cancommit. by destruct (simulated_failure p d2).
    + unfold _handle_precommit. by destruct (simulated_failure p d2).
    + unfold _handle_commit. by case_bool_decide.
  - destruct t; simpl.
    + unfold _wait_for_cancommit_vote.
      destruct (holds (pending_vote p) tid'); [|done].
      unfold _send_cancommit_vote_to_coordinator. by destruct net.
    + unfold _wait_for_precommit_vote.
      destruct (holds (pending_vote p) tid'); [|done].
      unfold _send_precommit_vote_to_coordinator. by destruct net.
    + unfold _wait_for_ack_commit.
      destruct (pending_commit p) as [[t0 d0]|]; [|done].
      case_bool_decide as Ht; [|done]. subst t0. simpl. unfold do_commit.
      case_bool_decide as Hp; simpl; [|done].
      rewrite dom_insert, elem_of_union, elem_of_singleton.
      intros [->|?]; [|done]. split; [done|].
      by rewrite bool_decide_eq_true_2.
    + unfold _wait_for_ack_abort.
      by destruct (holds (pending_abort p) tid').
  - unfold _handle_cancommit_vote_command.
    destruct v as [v|]; [|done].
    destruct (pending_vote p) as [[t0 d0]|]; [|done].
    unfold _send_cancommit_vote_to_coordinator.
    destruct net; simpl; [|done]. by destruct v.
  - unfold _handle_precommit_vote_command.
    destruct v as [v|]; [|done].
    destruct (pending_vote p) as [[t0 d0]|]; [|done].
    unfold _send_precommit_vote_to_coordinator.
    destruct net; simpl; [|done]. by destruct v.
  - unfold _handle_ack_command, do_commit, do_abort.
    destruct a as [[|]|]; [| |done].
    + destruct (pending_commit p) as [[t0 d0]|]; [|done]. simpl.
      case_bool_decide as Hp; simpl; [|done].
      rewrite dom_insert, elem_of_union, elem_of_singleton.
      intros [->|?]; [|done]. split; [done|].
      by rewrite bool_decide_eq_true_2.
    + destruct (pending_commit p) as [[t0 d0]|]; [done|].
      by destruct (pending_abort p) as [[t0 d0]|].
  - unfold _handle_crash. by destruct (crashed p).
  - unfold _set_failure_rate. by destruct (_ && _).
Qed.

Lemma step_prepares tid p o :
  tid ∈ prepared_transactions (step p o).1 →
  tid ∈ prepared_transactions p ∨
  (prepares o = true ∧ holds (pending_vote p) tid = true).
Proof.
  destruct o as [m d1 d2|t tid' net|v net|v net|a net| |reg r|rate]; simpl.
  - unfold _handle_request. destruct (crashed p); [by left|].
    unfold _process_message.
    destruct (simulated_failure p d1); [case_bool_decide; by left|].
    destruct (msg_type m); try (by left); simpl.
    + unfold _handle_cancommit. destruct (simulated_failure p d2); by left.
    + unfold _handle_precommit. destruct (simulated_failure p d2); by left.
    + unfold _handle_commit. case_bool_decide; by left.
  - destruct t; simpl.
    + unfold _wait_for_cancommit_vote.
      destruct (holds (pending_vote p) tid'); [|by left].
      unfold _send_cancommit_vote_to_coordinator. destruct net; by left.
    + unfold _wait_for_precommit_vote.
      destruct (holds (pending_vote p) tid'); [|by left].
      unfold _send_precommit_vote_to_coordinator. destruct net; by left.
    + unfold _wait_for_ack_commit.
      destruct (pending_commit p) as [[t0 d0]|]; [|by left].
      case_bool_decide; [|by left]. simpl. unfold do_commit.
      case_bool_decide; simpl; [|by left]. left. set_solver.
    + unfold _wait_for_ack_abort.
      destruct (holds (pending_abort p) tid'); [|by left]. simpl.
      left. set_solver.
  - unfold _handle_cancommit_vote_command.
    destruct v as [v|]; [|by left].
    destruct (pending_vote p) as [[t0 d0]|]; [|by left].
    unfold _send_cancommit_vote_to_coordinator.
    destruct net; simpl; [|by left]. destruct v; by left.
  - unfold _handle_precommit_vote_command.
    destruct v as [v|]; [|by left].
    destruct (pending_vote p) as [[t0 d0]|] eqn:Hp; [|by left].
    unfold _send_precommit_vote_to_coordinator.
    destruct net; simpl; [|by left]. destruct v; simpl; [|by left].
    rewrite elem_of_union, elem_of_singleton. intros [->|?]; [|by left].
    right. split; [done|]. by rewrite bool_decide_eq_true_2.
  - unfold _handle_ack_command, do_commit, do_abort.
    destruct a as [[|]|]; [| |by left].
    + destruct (pending_commit p) as [[t0 d0]|]; [|by left]. simpl.
      case_bool_decide; simpl; [|by left]. left. set_solver.
    + destruct (pending_commit p) as [[t0 d0]|]; [simpl; left; set_solver|].
      destruct (pending_abort p) as [[t0 d0]|]; [|by left].
      simpl. left. set_solver.
  - unfold _handle_crash. destruct (crashed p); by left.
  - unfold _handle_recover. destruct (negb (crashed p)); [by left|].
    destruct (negb reg); [by left|].
    unfold _request_history_from_coordinator.
    destruct r as [r|]; [|by left].
    case_bool_decide; [|by left].
    destruct (data r); try (by left). simpl. intros Hin. left.
    by apply (replay_prepared _ _ _ Hin).
  - unfold _set_failure_rate. destruct (_ && _); by left.
Qed.

Lemma step_pending_vote tid p o :
  holds (pending_vote (step p o).1) tid = true →
  holds (pending_vote p) tid = true ∨ delivers tid o = true.
Proof.
  destruct (delivers tid o) eqn:Hdel; [by right|]. intros Hh. left.
  by destruct (step_one_vote tid p o Hdel) as [_ [? _]].
Qed.

Lemma step_pending_commit tid p o :
  holds (pending_commit (step p o).1) tid = true →
  holds (pending_commit p) tid = true ∨ asks_commit tid o = true.
Proof.
  destruct o as [m d1 d2|t tid' net|v net|v net|a net| |reg r|rate]; simpl.
  - unfold _handle_request. destruct (crashed p); [by left|].
    unfold _process_message.
    destruct (simulated_failure p d1); [case_bool_decide; by left|].
    destruct (msg_type m) eqn:Hm; try (by left); simpl.
    + unfold _handle_cancommit. destruct (simulated_failure p d2); by left.
    + unfold _handle_precommit. destruct (simulated_failure p d2); by left.
    + unfold _handle_commit. case_bool_decide; [|by left]. simpl.
      intros Ht. right. by rewrite Ht.
  - destruct t; simpl.
    + unfold _wait_for_cancommit_vote.
      destruct (holds (pending_vote p) tid'); [|by left].
      unfold _send_cancommit_vote_to_coordinator. destruct net; by left.
    + unfold _wait_for_precommit_vote.
      destruct (holds (pending_vote p) tid'); [|by left].
      unfold _send_precommit_vote_to_coordinator. destruct net; by left.
    + unfold _wait_for_ack_commit.
      destruct (pending_commit p) as [[t0 d0]|] eqn:Hpc;
        [|simpl; rewrite Hpc; by left].
      case_bool_decide; [done|]. simpl. rewrite Hpc. by left.
    + unfold _wait_for_ack_abort.
      destruct (holds (pending_abort p) tid'); by left.
  - unfold _handle_cancommit_vote_command.
    destruct v as [v|]; [|by left].
    destruct (pending_vote p) as [[t0 d0]|]; [|by left].
    unfold _send_cancommit_vote_to_coordinator.
    destruct net; simpl; [|by left]. destruct v; by left.
  - unfold _handle_precommit_vote_command.
    destruct v as [v|]; [|by left].
    destruct (pending_vote p) as [[t0 d0]|]; [|by left].
    unfold _send_precommit_vote_to_coordinator.
    destruct net; simpl; [|by left]. destruct v; by left.
  - unfold _handle_ack_command, do_commit, do_abort.
    destruct a as [[|]|]; [| |by left].
    + destruct (pending_commit p) as [[t0 d0]|] eqn:Hpc;
        [|simpl; rewrite Hpc; by left].
      simpl. by case_bool_decide.
    + destruct (pending_commit p) as [[t0 d0]|] eqn:Hpc; [done|].
      destruct (pending_abort p) as [[t0 d0]|]; simpl; rewrite Hpc; by left.
  - unfold _handle_crash. destruct (crashed p); by left.
  - unfold _handle_recover. destruct (negb (crashed p)); [by left|].
    destruct (negb reg); [by left|].
    unfold _request_history_from_coordinator.
    destruct r as [r|]; [|by left].
    case_bool_decide; [|by left].
    destruct (data r); try (by left). simpl.
    rewrite replay_pending_commit. by left.
  - unfold _set_failure_rate. destruct (_ && _); by left.
Qed.

Lemma run_commits tid ops p :
  tid ∉ dom (committed_transactions p) →
  forallb (λ o, negb (recovers o)) ops = true →
  tid ∈ dom (committed_transactions (run p ops).1) →
  (tid ∈ prepared_transactions p ∨
   (existsb prepares ops = true ∧
    (holds (pending_vote p) tid = true ∨
     existsb (delivers tid) ops = true))) ∧
  (holds (pending_commit p) tid = true ∨
   existsb (asks_commit tid) ops = true).
Proof.
  revert p. induction ops as [|o ops IH]; intros p Hnot Hops; [done|].
  simpl in Hops. apply andb_true_iff in Hops as [Ho Hops].
  apply negb_true_iff in Ho. rewrite run_cons. cbn [fst existsb].
  destruct (decide (tid ∈ dom (committed_transactions (step p o).1)))
    as [Hin|Hnin].
  { intros _. destruct (step_commits tid p o Hnot Ho Hin) as [? ?]. auto. }
  intros Hend. destruct (IH _ Hnin Hops Hend) as [Hprep Hask]. split.
  - destruct Hprep as [Hprep|[Hvote Hslot]].
    + destruct (step_prepares tid p o Hprep) as [?|[Hp Hh]]; [by left|].
      right. rewrite Hp. auto.
    + right. rewrite Hvote, orb_true_r. split; [done|].
      destruct Hslot as [Hslot|Hdel]; [|by rewrite Hdel, orb_true_r; right].
      destruct (step_pending_vote tid p o Hslot) as [?|Hd]; [by left|].
      right. by rewrite Hd.
  - destruct Hask as [Hslot|Hask]; [|by rewrite Hask, orb_true_r; right].
    destruct (step_pending_commit tid p o Hslot) as [?|Ha]; [by left|].
    right. by rewrite Ha.
Qed.

(** X14. A participant commits only what it was asked and agreed to: between
    two recoveries, a transaction that is in none of its sets and slots
    becomes committed only if a CANCOMMIT or PRECOMMIT for it arrived, the
    operator typed [precommit vote yes] while the coordinator was
    reachable, and a COMMIT for it arrived. *)
Theorem commit_needs_agreement tid p ops :
  tid ∉ dom (committed_transactions p) →
  tid ∉ prepared_transactions p →
  holds (pending_vote p) tid = false →
  holds (pending_commit p) tid = false →
  forallb (λ o, negb (recovers o)) ops = true →
  tid ∈ dom (committed_transactions (run p ops).1) →
  existsb (delivers tid) ops = true ∧
  existsb prepares ops = true ∧
  existsb (asks_commit tid) ops = true.
Proof.
  intros Hc Hp Hv Hpc Hops Hend.
  destruct (run_commits tid ops p Hc Hops Hend) as [Hprep Hask].
  destruct Hprep as [?|[Hvote [?|Hdel]]]; [done|congruence|].
  destruct Hask as [?|Hask]; [congruence|]. done.
Qed.

(** ** The outputs of a participant *)

Lemma replay_identity history p :
  participant_id (fold_left replay history p) = participant_id p ∧
  host (fold_left replay history p) = host p ∧
  port (fold_left replay history p) = port p.
Proof.
  revert p. induction history as [|r history IH]; intros p; simpl; [done|].
  destruct (IH (replay p r)) as (-> & -> & ->).
  unfold replay. by destruct (h_status r).
Qed.

Lemma step_own p o :
  participant_id (step p o).1 = participant_id p ∧
  host (step p o).1 = host p ∧ port (step p o).1 = port p ∧
  Forall (own p) (step p o).2.
Proof.
  destruct o as [m d1 d2|t tid' net|v net|v net|a net| |reg r|rate]; simpl.
  - unfold _handle_request. destruct (crashed p); [by repeat constructor|].
    unfold _process_message.
    destruct (simulated_failure p d1);
      [case_bool_decide; by repeat constructor|].
    destruct (msg_type m); try (by repeat constructor); simpl.
    + unfold _handle_cancommit.
      destruct (simulated_failure p d2); by repeat constructor.
    + unfold _handle_precommit.
      destruct (simulated_failure p d2); by repeat constructor.
    + unfold _handle_commit. case_bool_decide; by repeat constructor.
  - destruct t; simpl.
    + unfold _wait_for_cancommit_vote.
      destruct (holds (pending_vote p) tid'); [|by repeat constructor].
      unfold _send_cancommit_vote_to_coordinator.
      destruct net; by repeat constructor.
    + unfold _wait_for_precommit_vote.
      destruct (holds (pending_vote p) tid'); [|by repeat constructor].
      unfold _send_precommit_vote_to_coordinator.
      destruct net; by repeat constructor.
    + unfold _wait_for_ack_commit, _send_ack_to_coordinator, do_commit.
      destruct (pending_commit p) as [[t0 d0]|]; [|by repeat constructor].
      case_bool_decide; [|by repeat constructor].
      destruct net; case_bool_decide; by repeat constructor.
    + unfold _wait_for_ack_abort, _send_ack_to_coordinator.
      destruct (holds (pending_abort p) tid'); [|by repeat constructor].
      destruct net; by repeat constructor.
  - unfold _handle_cancommit_vote_command.
    destruct v as [v|]; [|by repeat constructor].
    destruct (pending_vote p) as [[t0 d0]|]; [|by repeat constructor].
    unfold _send_cancommit_vote_to_coordinator.
    destruct net; simpl; [|by repeat constructor].
    destruct v; by repeat constructor.
  - unfold _handle_precommit_vote_command.
    destruct v as [v|]; [|by repeat constructor].
    destruct (pending_vote p) as [[t0 d0]|]; [|by repeat constructor].
    unfold _send_precommit_vote_to_coordinator.
    destruct net; simpl; [|by repeat constructor].
    destruct v; by repeat constructor.
  - unfold _handle_ack_command, _send_ack_to_coordinator, do_commit, do_abort.
    destruct a as [[|]|]; [| |by repeat constructor].
    + destruct (pending_commit p) as [[t0 d0]|]; [|by repeat constructor].
      simpl. destruct net; case_bool_decide; by repeat constructor.
    + destruct (pending_commit p) as [[t0 d0]|].
      { simpl. destruct net; by repeat constructor. }
      destruct (pending_abort p) as [[t0 d0]|]; [|by repeat constructor].
      simpl. destruct net; by repeat constructor.
  - unfold _handle_crash. destruct (crashed p); by repeat constructor.
  - unfold _handle_recover.
    destruct (negb (crashed p)); [by repeat constructor|].
    destruct (negb reg); [by repeat constructor|].
    destruct (_request_history_from_coordinator r p) as [p' ok] eqn:E.
    simpl. assert (participant_id p' = participant_id p ∧
                   host p' = host p ∧ port p' = port p) as (-> & -> & ->).
    { unfold _request_history_from_coordinator in E.
      destruct r as [r|]; [|by injection E as <-].
      case_bool_decide; [|by injection E as <-].
      destruct (data r); try (by injection E as <-).
      injection E as <- _. apply replay_identity. }
    by repeat constructor.
  - unfold _set_failure_rate. destruct (_ && _); by repeat constructor.
Qed.

Lemma own_same p p' o :
  participant_id p' = participant_id p → host p' = host p →
  port p' = port p → own p' o → own p o.
Proof.
  intros Hi Hh Hp. destruct o as [m|f|t tid]; [done| |done].
  destruct f; simpl; congruence.
Qed.

(** X15. A participant keeps its id and its address, and speaks for itself:
    whatever the operations, every frame it sends to the coordinator
    carries its own id, and every registration its own address. *)
Theorem outputs_are_own p ops :
  participant_id (run p ops).1 = participant_id p ∧
  host (run p ops).1 = host p ∧ port (run p ops).1 = port p ∧
  Forall (own p) (run p ops).2.
Proof.
  revert p. induction ops as [|o ops IH]; intros p;
    [by repeat constructor|].
  rewrite run_cons. simpl.
  destruct (step_own p o) as (Hi & Hh & Hp & Hout).
  destruct (IH (step p o).1) as (Hi' & Hh' & Hp' & Hout').
  split; [congruence|]. split; [congruence|]. split; [congruence|].
  apply Forall_app. split; [done|].
  eapply Forall_impl; [exact Hout'|]. intros x. by apply own_same.
Qed.

(** ** One transaction, from CANCOMMIT to the commit *)

Lemma no_failure p draw :
  (failure_rate p == 0)%Q → simulated_failure p draw = false.
Proof.
  intros Hr. unfold simulated_failure, Qltb.
  assert (Qle_bool (failure_rate p) 0 = true) as ->; [|done].
  apply Qle_bool_iff. rewrite Hr. apply Qle_refl.
Qed.

(** X16. A participant that is up and simulates no failure, to which the three
    messages of a transaction are delivered and whose operator agrees each
    time: it sends its two yes votes and its ACK_COMMIT under its own id,
    ends with the transaction committed with the data of the COMMIT
    message, in no other of the sets that a state query looks at before the
    aborted one, and with its three slots as they were or empty. *)
Theorem agreeing_participant_commits p tid d :
  crashed p = false → (failure_rate p == 0)%Q →
  let pid := participant_id p in
  let p' := (run p (agreeing tid d)).1 in
  (run p (agreeing tid d)).2 =
    [Arm wait_for_cancommit_vote tid;
     Send (VOTE_RESPONSE pid (bare CANCOMMIT_VOTE_YES tid));
     Arm wait_for_precommit_vote tid;
     Send (VOTE_RESPONSE pid (bare PRECOMMIT_VOTE_YES tid));
     Arm wait_for_ack_commit tid;
     Send (ACK_RESPONSE pid (bare ACK_COMMIT tid))] ∧
  committed_transactions p' = <[tid := PDict d]> (committed_transactions p) ∧
  prepared_transactions p' = prepared_transactions p ∖ {[tid]} ∧
  waited_transactions p' = waited_transactions p ∖ {[tid]} ∧
  aborted_transactions p' = aborted_transactions p ∧
  pending_vote p' = None ∧ pending_commit p' = None ∧
  pending_abort p' = pending_abort p ∧ crashed p' = false.
Proof.
  intros Hc Hr pid p'. subst pid p'.
  set (v := Some (tid, PDict d)).
  set (p1 := set_pending_vote v p).
  set (p2 := set_waited ({[tid]} ∪ waited_transactions p)
               (set_pending_vote None p1)).
  set (p3 := set_pending_vote v p2).
  set (p4 := set_prepared ({[tid]} ∪ prepared_transactions p)
               (set_waited (waited_transactions p2 ∖ {[tid]})
                  (set_pending_vote None p3))).
  set (p5 := set_pending_commit v p4).
  set (p6 := set_prepared (prepared_transactions p4 ∖ {[tid]})
               (set_committed (<[tid := PDict d]> (committed_transactions p))
                  (set_pending_commit None p5))).
  assert (Hfail : ∀ q, failure_rate q = failure_rate p →
                       simulated_failure q 0 = false).
  { intros q Hq. apply no_failure. by rewrite Hq. }
  assert (H1 : step p (Request {| msg_type := CANCOMMIT;
                 transaction_id := tid; data := PDict d |} 0 0) =
               (p1, [Arm wait_for_cancommit_vote tid])).
  { simpl. unfold _handle_request, _process_message, _handle_cancommit.
    rewrite Hc. simpl. by rewrite (Hfail p eq_refl). }
  assert (H2 : step p1 (CancommitVote (Some true) true) =
               (p2, [Send (VOTE_RESPONSE (participant_id p)
                             (bare CANCOMMIT_VOTE_YES tid))])) by done.
  assert (H3 : step p2 (Request {| msg_type := PRECOMMIT;
                 transaction_id := tid; data := PDict d |} 0 0) =
               (p3, [Arm wait_for_precommit_vote tid])).
  { simpl. unfold _handle_request, _process_message, _handle_precommit.
    simpl. rewrite Hc. simpl. by rewrite (Hfail p2 eq_refl). }
  assert (H4 : step p3 (PrecommitVote (Some true) true) =
               (p4, [Send (VOTE_RESPONSE (participant_id p)
                             (bare PRECOMMIT_VOTE_YES tid))])) by done.
  assert (Hin : tid ∈ prepared_transactions p4).
  { unfold p4. simpl. set_solver. }
  assert (H5 : step p4 (Request {| msg_type := COMMIT;
                 transaction_id := tid; data := PDict d |} 0 0) =
               (p5, [Arm wait_for_ack_commit tid])).
  { simpl. unfold _handle_request, _process_message, _handle_commit.
    simpl. rewrite Hc. simpl. rewrite (Hfail p4 eq_refl).
    cbn [msg_type transaction_id data].
    by rewrite (bool_decide_eq_true_2 _ Hin). }
  assert (H6 : step p5 (AckCommand (Some true) true) =
               (p6, [Send (ACK_RESPONSE (participant_id p)
                             (bare ACK_COMMIT tid))])).
  { simpl. unfold _handle_ack_command, do_commit. simpl.
    by rewrite (bool_decide_eq_true_2 _ Hin). }
  assert (Hrun : run p (agreeing tid d) =
    (p6, [Arm wait_for_cancommit_vote tid;
          Send (VOTE_RESPONSE (participant_id p)
                  (bare CANCOMMIT_VOTE_YES tid));
          Arm wait_for_precommit_vote tid;
          Send (VOTE_RESPONSE (participant_id p)
                  (bare PRECOMMIT_VOTE_YES tid));
          Arm wait_for_ack_commit tid;
          Send (ACK_RESPONSE (participant_id p) (bare ACK_COMMIT tid))])).
  { unfold agreeing. rewrite !run_cons.
    rewrite H1. cbn [fst snd]. rewrite H2. cbn [fst snd].
    rewrite H3. cbn [fst snd]. rewrite H4. cbn [fst snd].
    rewrite H5. cbn [fst snd]. rewrite H6. done. }
  rewrite Hrun. cbn [fst snd].
  split; [done|]. split; [done|].
  split; [unfold p6, p4; simpl; set_solver|].
  split; [unfold p6, p4, p2; simpl; set_solver|]. done.
Qed.

(** ** A vote typed while the coordinator cannot be reached *)

(** X17. When the coordinator cannot be reached, a vote that the operator types
    is lost: the pending transaction is taken out of the slot, nothing is
    sent and no set changes, and as long as no new CANCOMMIT or PRECOMMIT
    for the transaction arrives no vote on it leaves the participant, not
    even the NO of its timeout thread. *)
Theorem unreachable_vote_is_lost p tid d (b : bool) ops :
  pending_vote p = Some (tid, d) →
  forallb (λ o, negb (delivers tid o)) ops = true →
  step p (CancommitVote (Some b) false) = (set_pending_vote None p, []) ∧
  step p (PrecommitVote (Some b) false) = (set_pending_vote None p, []) ∧
  silent_on tid (run (set_pending_vote None p) ops).2.
Proof.
  intros Hp Hops. split; [|split].
  - simpl. unfold _handle_cancommit_vote_command. by rewrite Hp.
  - simpl. unfold _handle_precommit_vote_command. by rewrite Hp.
  - by apply run_silent.
Qed.

(** ** The failure rate *)

Lemma step_failure_rate p o :
  (0 <= failure_rate p)%Q ∧ (failure_rate p <= 1)%Q →
  (0 <= failure_rate (step p o).1)%Q ∧ (failure_rate (step p o).1 <= 1)%Q.
Proof.
  intros Hr.
  destruct o as [m d1 d2|t tid' net|v net|v net|a net| |reg r|rate]; simpl.
  - unfold _handle_request. destruct (crashed p); [done|].
    unfold _process_message.
    destruct (simulated_failure p d1); [by case_bool_decide|].
    destruct (msg_type m); try done; simpl.
    + unfold _handle_cancommit. by destruct (simulated_failure p d2).
    + unfold _handle_precommit. by destruct (simulated_failure p d2).
    + unfold _handle_commit. by case_bool_decide.
  - destruct t; simpl.
    + unfold _wait_for_cancommit_vote.
      destruct (holds (pending_vote p) tid'); [|done].
      unfold _send_cancommit_vote_to_coordinator. by destruct net.
    + unfold _wait_for_precommit_vote.
      destruct (holds (pending_vote p) tid'); [|done].
      unfold _send_precommit_vote_to_coordinator. by destruct net.
    + unfold _wait_for_ack_commit.
      destruct (pending_commit p) as [[t0 d0]|]; [|done].
      case_bool_decide; [|done]. simpl. unfold do_commit.
      by case_bool_decide.
    + unfold _wait_for_ack_abort.
      by destruct (holds (pending_abort p) tid').
  - unfold _handle_cancommit_vote_command.
    destruct v as [v|]; [|done].
    destruct (pending_vote p) as [[t0 d0]|]; [|done].
    unfold _send_cancommit_vote_to_coordinator.
    destruct net; simpl; [|done]. by destruct v.
  - unfold _handle_precommit_vote_command.
    destruct v as [v|]; [|done].
    destruct (pending_vote p) as [[t0 d0]|]; [|done].
    unfold _send_precommit_vote_to_coordinator.
    destruct net; simpl; [|done]. by destruct v.
  - unfold _handle_ack_command, do_commit, do_abort.
    destruct a as [[|]|]; [| |done].
    + destruct (pending_commit p) as [[t0 d0]|]; [|done]. simpl.
      by case_bool_decide.
    + destruct (pending_commit p) as [[t0 d0]|]; [done|].
      by destruct (pending_abort p) as [[t0 d0]|].
  - unfold _handle_crash. by destruct (crashed p).
  - unfold _handle_recover. destruct (negb (crashed p)); [done|].
    destruct (negb reg); [done|].
    unfold _request_history_from_coordinator.
    destruct r as [r|]; [|done].
    case_bool_decide; [|done].
    destruct (data r); try done. simpl.
    assert (∀ h q, failure_rate (fold_left replay h q) = failure_rate q)
      as ->; [|done].
    clear. intros h. induction h as [|e h IH]; intros q; simpl; [done|].
    rewrite IH. unfold replay. by destruct (h_status e).
  - unfold _set_failure_rate.
    destruct (Qle_bool 0 rate) eqn:H0; simpl; [|done].
    destruct (Qle_bool rate 1) eqn:H1; simpl; [|done].
    split; by apply Qle_bool_iff.
Qed.

(** X18. The failure rate stays a probability: when it is between 0 and 1 it
    remains so whatever the operations, a [fail] command with a rate out
    of that range included. *)
Theorem failure_rate_in_range p ops :
  (0 <= failure_rate p)%Q ∧ (failure_rate p <= 1)%Q →
  (0 <= failure_rate (run p ops).1)%Q ∧
  (failure_rate (run p ops).1 <= 1)%Q.
Proof.
  revert p. induction ops as [|o ops IH]; intros p Hr; [done|].
  rewrite run_cons. simpl. by apply IH, step_failure_rate.
Qed.

Lemma one_vote_per_delivery_witness :
  forallb (λ o, negb (delivers "t1" o)) Examples.vote_then_timeout = true ∧
  (votes_cast "t1"
     (run Scenario.voting_on_t1 Examples.vote_then_timeout).2 ≤ 1)%nat.
Proof.
  assert (H : forallb (λ o, negb (delivers "t1" o))
                Examples.vote_then_timeout = true) by reflexivity.
  split; [exact H|].
  exact (one_vote_per_delivery "t1" Scenario.voting_on_t1
           Examples.vote_then_timeout H).
Defined.

Lemma commit_needs_agreement_witness :
  "t1" ∈ dom (committed_transactions
                (run (init "P1") (agreeing "t1" Scenario.kv)).1) ∧
  existsb (delivers "t1") (agreeing "t1" Scenario.kv) = true ∧
  existsb prepares (agreeing "t1" Scenario.kv) = true ∧
  existsb (asks_commit "t1") (agreeing "t1" Scenario.kv) = true.
Proof.
  assert (H1 : "t1" ∉ dom (committed_transactions (init "P1"))).
  { simpl. rewrite dom_empty. apply not_elem_of_empty. }
  assert (H2 : "t1" ∉ prepared_transactions (init "P1"))
    by apply not_elem_of_empty.
  assert (H3 : forallb (λ o, negb (recovers o)) (agreeing "t1" Scenario.kv)
               = true) by reflexivity.
  assert (H4 : "t1" ∈ dom (committed_transactions
                             (run (init "P1") (agreeing "t1" Scenario.kv)).1)).
  { apply (bool_decide_unpack _). vm_compute. exact I. }
  split; [exact H4|].
  exact (commit_needs_agreement "t1" (init "P1") (agreeing "t1" Scenario.kv)
           H1 H2 eq_refl eq_refl H3 H4).
Defined.

Lemma agreeing_participant_commits_witness :
  (run (init "P1") (agreeing "t1" Scenario.kv)).2 =
    [Arm wait_for_cancommit_vote "t1";
     Send (VOTE_RESPONSE "P1" (bare CANCOMMIT_VOTE_YES "t1"));
     Arm wait_for_precommit_vote "t1";
     Send (VOTE_RESPONSE "P1" (bare PRECOMMIT_VOTE_YES "t1"));
     Arm wait_for_ack_commit "t1";
     Send (ACK_RESPONSE "P1" (bare ACK_COMMIT "t1"))] ∧
  committed_transactions (run (init "P1") (agreeing "t1" Scenario.kv)).1 =
    <[ "t1" := PDict Scenario.kv ]> ∅.
Proof.
  assert (H1 : crashed (init "P1") = false) by reflexivity.
  assert (H2 : (failure_rate (init "P1") == 0)%Q) by reflexivity.
  destruct (agreeing_participant_commits (init "P1") "t1" Scenario.kv H1 H2)
    as (Hout & Hcom & _).
  split; [exact Hout|exact Hcom].
Defined.

Lemma unreachable_vote_is_lost_witness :
  pending_vote Scenario.voting_on_t1 = Some ("t1", PDict Scenario.kv) ∧
  step Scenario.voting_on_t1 (CancommitVote (Some true) false) =
    (set_pending_vote None Scenario.voting_on_t1, []) ∧
  step Scenario.voting_on_t1 (PrecommitVote (Some true) false) =
    (set_pending_vote None Scenario.voting_on_t1, []) ∧
  silent_on "t1"
    (run (set_pending_vote None Scenario.voting_on_t1)
       Examples.timeout_then_ack).2.
Proof.
  assert (H1 : pending_vote Scenario.voting_on_t1 =
               Some ("t1", PDict Scenario.kv)) by reflexivity.
  assert (H2 : forallb (λ o, negb (delivers "t1" o))
                 Examples.timeout_then_ack = true) by reflexivity.
  split; [exact H1|].
  exact (unreachable_vote_is_lost Scenario.voting_on_t1 "t1"
           (PDict Scenario.kv) true Examples.timeout_then_ack H1 H2).
Defined.

Lemma failure_rate_in_range_witness :
  ((0 <= failure_rate (init "P1"))%Q ∧ (failure_rate (init "P1") <= 1)%Q) ∧
  (0 <= failure_rate (run (init "P1") Examples.fail_commands).1)%Q ∧
  (failure_rate (run (init "P1") Examples.fail_commands).1 <= 1)%Q.
Proof.
  assert (H : (0 <= failure_rate (init "P1"))%Q ∧
              (failure_rate (init "P1") <= 1)%Q).
  { split; unfold Qle; simpl; lia. }
  split; [exact H|].
  exact (failure_rate_in_range (init "P1") Examples.fail_commands H).
Defined.

End ParticipantLaws.

(** * A crashed participant *)
Module ParticipantCrash.
Import Participant ParticipantProofs Observation ParticipantLaws.

Lemma step_crashed p o :
  crashed p = true → recovers o = false →
  crashed (step p o).1 = true ∧
  Forall (λ out, ∀ m, out ≠ Respond m) (step p o).2.
Proof.
  intros Hc Ho.
  destruct o as [m d1 d2|t tid net|v net|v net|a net| |reg r|rate];
    try discriminate; simpl.
  - unfold _handle_request. rewrite Hc. simpl. split; [done|constructor].
  - destruct t; simpl;
      unfold _wait_for_cancommit_vote, _wait_for_precommit_vote,
        _wait_for_ack_commit, _wait_for_ack_abort,
        _send_cancommit_vote_to_coordinator,
        _send_precommit_vote_to_coordinator, _send_ack_to_coordinator,
        do_commit, do_abort;
      repeat (first [case_match | case_bool_decide]; simpl);
      simplify_eq/=; (split; [done|]); repeat constructor; done.
  - unfold _handle_cancommit_vote_command,
      _send_cancommit_vote_to_coordinator.
    repeat (case_match; simpl); simplify_eq/=; (split; [done|]); repeat constructor; done.
  - unfold _handle_precommit_vote_command,
      _send_precommit_vote_to_coordinator.
    repeat (case_match; simpl); simplify_eq/=; (split; [done|]); repeat constructor; done.
  - unfold _handle_ack_command, _send_ack_to_coordinator, do_commit, do_abort.
    repeat (first [case_match | case_bool_decide]; simpl);
      simplify_eq/=; (split; [done|]); repeat constructor; done.
  - unfold _handle_crash. rewrite Hc. simpl. split; [done|constructor].
  - unfold _set_failure_rate. case_match; simpl; (split; [done|constructor]).
Qed.

(** X19. A crashed participant answers no request: until its operator types
    [recover] it stays crashed, a message from the coordinator changes
    nothing of its state, and nothing is written back on a connection of
    the coordinator, whatever else happens. *)
Theorem crashed_participant_is_mute p ops :
  crashed p = true →
  forallb (λ o, negb (recovers o)) ops = true →
  crashed (run p ops).1 = true ∧
  Forall (λ out, ∀ m, out ≠ Respond m) (run p ops).2 ∧
  ∀ m d1 d2, step (run p ops).1 (Request m d1 d2) = ((run p ops).1, []).
Proof.
  revert p. induction ops as [|o ops IH]; intros p Hc Hops.
  - simpl. split; [done|]. split; [constructor|].
    intros. unfold _handle_request. by rewrite Hc.
  - simpl in Hops. apply andb_true_iff in Hops as [Ho Hops].
    apply negb_true_iff in Ho.
    destruct (step_crashed p o Hc Ho) as [Hc' Hout].
    destruct (IH _ Hc' Hops) as (H1 & H2 & H3).
    rewrite run_cons. simpl. split; [done|]. split; [|done].
    apply Forall_app. by split.
Qed.

Lemma crashed_participant_is_mute_witness :
  crashed Examples.p1_down = true ∧
  forallb (λ o, negb (recovers o)) Examples.requests_while_down = true ∧
  crashed (run Examples.p1_down Examples.requests_while_down).1 = true.
Proof.
  assert (H1 : crashed Examples.p1_down = true) by reflexivity.
  assert (H2 : forallb (λ o, negb (recovers o))
                 Examples.requests_while_down = true) by reflexivity.
  split; [exact H1|]. split; [exact H2|].
  exact (proj1 (crashed_participant_is_mute Examples.p1_down
                  Examples.requests_while_down H1 H2)).
Defined.

End ParticipantCrash.

(** * The recovery of a participant *)
Module ParticipantRecovery.
Import Participant.

Lemma replay_reflects history e :
  e ∈ history →
  ∀ p, let p' := fold_left replay history p in
       (h_status e = COMMITTED →
          h_transaction_id e ∈ dom (committed_transactions p')) ∧
       (h_status e = ABORTED →
          h_transaction_id e ∈ aborted_transactions p').
Proof.
  induction history as [|r history IH]; intros Hin p; [by inversion Hin|].
  apply elem_of_cons in Hin as [->|Hin]; [|by apply IH].
  simpl.
  destruct (ParticipantLaws.replay_committed history (replay p r))
    as [Hc Ha].
  split; intros Hs.
  - apply Hc. unfold replay. rewrite Hs. simpl.
    rewrite dom_insert. set_solver.
  - apply Ha. unfold replay. rewrite Hs. simpl. set_solver.
Qed.

Lemma replay_unprepares history p tid :
  tid ∈ map h_transaction_id
          (List.filter (λ e, Coordinator.terminal (h_status e)) history) →
  tid ∉ prepared_transactions
          (fold_left replay history p).
Proof.
  revert p. induction history as [|r history IH]; intros p; simpl;
    [by intros ?%elem_of_nil|].
  destruct (Coordinator.terminal (h_status r)) eqn:Ht; simpl.
  - intros [->|Hin]%elem_of_cons; [|by apply IH].
    intros Hp. apply ParticipantLaws.replay_prepared in Hp.
    unfold replay in Hp.
    destruct (h_status r); simpl in *; try done; set_solver.
  - apply IH.
Qed.

(** X20. The [recover] command of a crashed participant. When the
    registration is not answered [OK], the participant stays as it was,
    crashed. When it is, the participant is up again whatever the history
    request brings. If no reply can be read from it, the sets of the
    participant are as they were. If the reply is a HISTORY_RESPONSE that
    carries a history, the participant knows that history afterwards:
    every transaction with a COMMITTED entry is among its committed
    transactions, every transaction with an ABORTED entry in its aborted
    set, and none of them is left in its prepared set. *)
Theorem recovery_replays_history p m history :
  crashed p = true →
  msg_type m = HISTORY_RESPONSE →
  data m = PHistory history →
  (∀ r, (_handle_recover false r p).1 = p) ∧
  (_handle_recover true None p).1 = set_crashed false p ∧
  let p' := (_handle_recover true (Some m) p).1 in
  crashed p' = false ∧
  ∀ e, e ∈ history →
    (h_status e = COMMITTED →
       h_transaction_id e ∈ dom (committed_transactions p') ∧
       h_transaction_id e ∉ prepared_transactions p') ∧
    (h_status e = ABORTED →
       h_transaction_id e ∈ aborted_transactions p' ∧
       h_transaction_id e ∉ prepared_transactions p').
Proof.
  intros Hc Hm Hd.
  split; [intros r; unfold _handle_recover; by rewrite Hc|].
  split; [unfold _handle_recover; by rewrite Hc|].
  unfold _handle_recover, _request_history_from_coordinator.
  rewrite Hc, Hm, Hd. simpl. split; [done|].
  intros e He.
  assert (Hterm : Coordinator.terminal (h_status e) = true →
    h_transaction_id e ∉ prepared_transactions (fold_left replay history p)).
  { intros Ht. apply replay_unprepares.
    apply list_elem_of_fmap. exists e. split; [done|].
    apply list_elem_of_In, filter_In. split; [|done].
    by apply list_elem_of_In. }
  destruct (replay_reflects _ e He p) as [Hcom Hab].
  split; intros Hs; (split; [auto|]); apply Hterm; by rewrite Hs.
Qed.

Lemma recovery_replays_history_witness :
  crashed Examples.p1_down = true ∧
  crashed (_handle_recover true (Some Examples.history_reply)
             Examples.p1_down).1 = false ∧
  "t1" ∈ dom (committed_transactions
                (_handle_recover true (Some Examples.history_reply)
                   Examples.p1_down).1).
Proof.
  assert (H : crashed Examples.p1_down = true) by reflexivity.
  split; [exact H|].
  destruct (recovery_replays_history Examples.p1_down Examples.history_reply
              [Scenario.entry COMMITTED] H eq_refl eq_refl)
    as (_ & _ & Hup & Hall).
  split; [exact Hup|].
  destruct (Hall (Scenario.entry COMMITTED)) as [Hcom _];
    [apply list_elem_of_here|].
  exact (proj1 (Hcom eq_refl)).
Defined.

End ParticipantRecovery.

(** * What the coordinator reads back from the text of a frame *)
Module WireLaws.
Import Wire.

Lemma split_nonempty sep s : split sep s ≠ [].
Proof. destruct s as [|a s]; simpl; [done|]. by repeat case_match. Qed.

Lemma split_plain sep s : contains sep s = false → split sep s = [s].
Proof.
  induction s as [|a s IH]; simpl; [done|].
  intros [Ha Hs]%orb_false_iff. rewrite Ha, (IH Hs). done.
Qed.

Lemma split_field sep a r :
  contains sep a = false →
  split sep (a +:+ String sep r) = a :: split sep r.
Proof.
  induction a as [|c a IH]; simpl.
  - intros _. by rewrite Ascii.eqb_refl.
  - intros [Hc Ha]%orb_false_iff. by rewrite Hc, (IH Ha).
Qed.

Lemma join_split sep s : join sep (split sep s) = s.
Proof.
  induction s as [|a s IH]; simpl; [done|].
  destruct (Ascii.eqb_spec a sep) as [->|Hne].
  - pose proof (split_nonempty sep s) as Hs.
    destruct (split sep s) as [|x l] eqn:E; [done|].
    change (join sep (EmptyString :: x :: l))
      with (String sep (join sep (x :: l))). by rewrite IH.
  - destruct (split sep s) as [|x l] eqn:E.
    + by destruct (split_nonempty sep s).
    + destruct l as [|y l]; simpl in *; by rewrite <- IH.
Qed.

Lemma append_assoc a b c : (a +:+ b) +:+ c = a +:+ (b +:+ c).
Proof.
  induction a as [|x a IH]; [done|].
  change (String x ((a +:+ b) +:+ c) = String x (a +:+ (b +:+ c))).
  by rewrite IH.
Qed.

(** X21. The text of a vote or of an ACK, read whole by the coordinator: when
    the id of the participant holds no ['|'], the coordinator gets back
    the request type, the id and the very text of the message, also when
    that text holds a ['|']; an id with a ['|'] is cut at its first ['|']
    and what follows it is put in front of the text of the message. *)
Theorem frame_read_back kind pid json :
  contains bar kind = false →
  (contains bar pid = false →
   read_frame (frame kind pid json) = Some (kind, pid, json)) ∧
  (∀ a b, pid = a +:+ String bar b → contains bar a = false →
   read_frame (frame kind pid json) = Some (kind, a, b +:+ String bar json)).
Proof.
  intros Hk.
  assert (Hread : ∀ a r, contains bar a = false →
    read_frame (kind +:+ String bar (a +:+ String bar r)) = Some (kind, a, r)).
  { intros a r Ha. unfold read_frame.
    rewrite (split_field _ _ _ Hk), (split_field _ _ _ Ha).
    pose proof (split_nonempty bar r) as Hr.
    destruct (split bar r) as [|x l] eqn:E; [done|].
    by rewrite <- E, join_split. }
  split.
  - intros Hp. by apply Hread.
  - intros a b -> Ha. unfold frame.
    replace ((a +:+ String bar b) +:+ String bar json)
      with (a +:+ String bar (b +:+ String bar json)).
    + by apply Hread.
    + symmetry. apply (append_assoc a (String bar b)).
Qed.

Lemma append_cons x a b : String x a +:+ b = String x (a +:+ b).
Proof. reflexivity. Qed.

(** X22. The text of a registration, read whole by the coordinator: when
    neither the id nor the host holds a ['|'], the coordinator gets back
    the id, the host and the text of the port. An id with one ['|'] is
    registered under what stands before it, with what follows as the host
    and the host as the text of the port; an id that reads [a|b|c] is
    registered as [a] at the host [b] with [c] as the text of the port,
    whatever the host and the port of the participant. *)
Theorem register_read_back pid host port :
  contains bar port = false →
  (contains bar pid = false → contains bar host = false →
   read_register (register_frame pid host port) = Some (pid, host, port)) ∧
  (∀ a b, pid = a +:+ String bar b →
     contains bar a = false → contains bar b = false →
     contains bar host = false →
     read_register (register_frame pid host port) = Some (a, b, host)) ∧
  (∀ a b c, pid = a +:+ String bar (b +:+ String bar c) →
     contains bar a = false → contains bar b = false →
     contains bar c = false →
     read_register (register_frame pid host port) = Some (a, b, c)).
Proof.
  intros Hq.
  assert (Hread : ∀ a b t c l,
    contains bar a = false → contains bar b = false →
    split bar t = c :: l →
    read_register
      ("REGISTER" +:+ String bar (a +:+ String bar (b +:+ String bar t)))
    = Some (a, b, c)).
  { intros a b t c l Ha Hb Ht. unfold read_register.
    rewrite (split_field bar "REGISTER") by done.
    by rewrite (split_field _ _ _ Ha), (split_field _ _ _ Hb), Ht. }
  split; [|split].
  - intros Hp Hh. apply (Hread pid host port port []); [done..|].
    by apply split_plain.
  - intros a b -> Ha Hb Hh. unfold register_frame.
    rewrite (append_assoc a), (append_cons bar).
    apply (Hread a b _ host (split bar port)); [done..|].
    by apply split_field.
  - intros a b c -> Ha Hb Hc. unfold register_frame.
    rewrite (append_assoc a), (append_cons bar), (append_assoc b),
      (append_cons bar c).
    apply (Hread a b _ c (split bar (host +:+ String bar port))); [done..|].
    by apply split_field.
Qed.

Lemma frame_read_back_witness :
  contains bar "VOTE_RESPONSE" = false ∧
  read_frame (frame "VOTE_RESPONSE" "P1" "{k: a|b}") =
    Some ("VOTE_RESPONSE", "P1", "{k: a|b}") ∧
  read_frame (frame "VOTE_RESPONSE" "P1|localhost" "{k: a|b}") =
    Some ("VOTE_RESPONSE", "P1", "localhost|{k: a|b}").
Proof.
  assert (H : contains bar "VOTE_RESPONSE" = false) by reflexivity.
  split; [exact H|].
  destruct (frame_read_back "VOTE_RESPONSE" "P1" "{k: a|b}" H) as [H1 _].
  destruct (frame_read_back "VOTE_RESPONSE" "P1|localhost" "{k: a|b}" H)
    as [_ H2].
  split; [exact (H1 eq_refl)|exact (H2 "P1" "localhost" eq_refl eq_refl)].
Defined.

Lemma register_read_back_witness :
  contains bar "6001" = false ∧
  read_register (register_frame "P1" "localhost" "6001") =
    Some ("P1", "localhost", "6001") ∧
  read_register (register_frame "P1|10.0.0.1|7000" "localhost" "6001") =
    Some ("P1", "10.0.0.1", "7000").
Proof.
  assert (H : contains bar "6001" = false) by reflexivity.
  split; [exact H|].
  destruct (register_read_back "P1" "localhost" "6001" H) as [H1 _].
  destruct (register_read_back "P1|10.0.0.1|7000" "localhost" "6001" H)
    as (_ & _ & H3).
  split; [exact (H1 eq_refl eq_refl)|].
  exact (H3 "P1" "10.0.0.1" "7000" eq_refl eq_refl eq_refl eq_refl).
Defined.

End WireLaws.
